(** * Hierarchical configuration resolution: the node store, the path walk,
      cascading delete and the inheritance merge

    A shallow embedding of the configuration-node store
    ([DatabaseStorage], TypeScript), of the Express routes in front of it
    and of the second, row-per-property resolver ([Repository], Go),
    followed by the properties of the resolution engine proved on them. *)

From Stdlib Require Import PrimFloat.
From stdpp Require Import gmap strings list fin_maps pretty.

Open Scope Z_scope.
Set Warnings "-register-all".

(** ** JSON values

    What a [jsonb] column, a request body or a Go [interface{}] filled by
    [encoding/json] holds.  Numbers are IEEE doubles on both sides
    (JavaScript numbers, Go [float64]); objects are finite maps from keys
    to values; a string is held as its UTF-8 text, byte by byte, and a
    lone surrogate of a JavaScript string, which UTF-8 does not encode,
    as the three bytes of its code unit. *)

Inductive json : Type :=
  | JNull : json
  | JBool (b : bool) : json
  | JNum (x : float) : json
  | JStr (s : string) : json
  | JArr (items : list json) : json
  | JObj (fields : gmap string json) : json.

(** ** Text

    What the two sides count in a string: PostgreSQL counts characters
    and refuses the character U+0000; JavaScript indexes UTF-16 code
    units. *)

Module Utf8.

Definition byte (c : Ascii.ascii) : N := Ascii.N_of_ascii c.

(** A byte [10xxxxxx] continues a character. *)
Definition continuation (c : Ascii.ascii) : bool :=
  (128 <=? byte c)%N && (byte c <? 192)%N.

(** The text holds the character U+0000. *)
Fixpoint has_nul (s : string) : bool :=
  match s with
  | EmptyString => false
  | String c rest => bool_decide (c = Ascii.zero) || has_nul rest
  end.

(** The number of characters. *)
Fixpoint length (s : string) : nat :=
  match s with
  | EmptyString => O
  | String c rest => ((if continuation c then 0 else 1) + length rest)%nat
  end.

(** The continuation bytes a text starts with, and the characters after
    them, each with its continuation bytes. *)
Fixpoint split (s : string) : string * list string :=
  match s with
  | EmptyString => (EmptyString, [])
  | String c rest =>
    let '(pending, found) := split rest in
    if continuation c then (String c pending, found)
    else (EmptyString, String c pending :: found)
  end.

Definition characters (s : string) : list string :=
  let '(pending, found) := split s in
  match pending with
  | EmptyString => found
  | _ => pending :: found
  end.

(** A code unit [u] of the surrogate range, as three bytes. *)
Definition surrogate (u : N) : string :=
  String (Ascii.ascii_of_N (224 + u / 4096))
    (String (Ascii.ascii_of_N (128 + (u / 64) mod 64))
       (String (Ascii.ascii_of_N (128 + u mod 64)) EmptyString)).

(** The UTF-16 code units of a character: one, or the two surrogates of
    a character outside the basic plane (four bytes). *)
Definition units_of (character : string) : list string :=
  match character with
  | String b0 (String b1 (String b2 (String b3 EmptyString))) =>
    if (240 <=? byte b0)%N
    then
      let point := ((byte b0 mod 8) * 262144 + (byte b1 mod 64) * 4096
                    + (byte b2 mod 64) * 64 + byte b3 mod 64 - 65536)%N in
      [surrogate (55296 + point / 1024); surrogate (56320 + point mod 1024)]
    else [character]
  | _ => [character]
  end.

Definition units (s : string) : list string := characters s ≫= units_of.

(** A code unit of the surrogate range in its three bytes
    [11101101 101xxxxx 10xxxxxx]: a lone surrogate. *)
Definition is_surrogate (character : string) : bool :=
  match character with
  | String b0 (String b1 (String _ EmptyString)) =>
    (byte b0 =? 237)%N && (160 <=? byte b1)%N
  | _ => false
  end.

Definition has_surrogate (s : string) : bool := existsb is_surrogate (characters s).

(** U+FFFD. *)
Definition replacement : string :=
  String (Ascii.ascii_of_N 239)
    (String (Ascii.ascii_of_N 191) (String (Ascii.ascii_of_N 189) EmptyString)).

(** The bytes a JavaScript string is sent as: a lone surrogate is sent
    as U+FFFD. *)
Definition scrub (s : string) : string :=
  foldr String.append EmptyString
    ((fun character => if is_surrogate character then replacement else character)
       <$> characters s).

End Utf8.

(** The type tag of a value (the [DataType] of the Go models). *)
Inductive DataType : Type :=
  | DataTypeString | DataTypeNumber | DataTypeBoolean
  | DataTypeObject | DataTypeArray | DataTypeNull.


(** ** JavaScript objects used as records

    [Object.assign] and the assignment [resolved.$NAME = ...] both go
    through the ordinary [[Set]] operation of the language. *)

Module Js.

Definition proto_key : string := "__proto__".

(** The code units of a string, as strings of one code unit: what the
    indices of a [String] wrapper hold. *)
Definition chars (s : string) : list json := JStr <$> Utf8.units s.

(** Index keys ["0"], ["1"], ... of an array-like value. *)
Definition indexed (items : list json) : gmap string json :=
  list_to_map (imap (fun (i : nat) (v : json) => (pretty i, v)) items).

(** The own enumerable string-keyed properties of [ToObject(v)]: the
    fields of an object, the indices of an array, the indices of a
    string wrapper; a number or a boolean wrapper has none, and
    [Object.assign] skips [null]. *)
Definition entries (v : json) : gmap string json :=
  match v with
  | JObj fields => fields
  | JArr items => indexed items
  | JStr s => indexed (chars s)
  | JNull | JBool _ | JNum _ => ∅
  end.

(** An object created by the literal [{}] and then only written to.
    [own] holds its own properties.  [proto_setter] tells whether a
    [[Set]] of the key [__proto__] still finds the accessor of
    [Object.prototype] on the prototype chain: true for a fresh object,
    false once the prototype is [null] or is an object that has an own
    data property of that name. *)
Record object : Type := mkObject {
  own : gmap string json;
  proto_setter : bool
}.

(** [{}] *)
Definition empty : object := mkObject ∅ true.

(** The setter of [Object.prototype.__proto__] applied to [o]: an object
    or [null] becomes the prototype, any other value is ignored.  Values
    here come out of [JSON.parse], so the prototype of an object value
    is [Object.prototype] and the prototype of an array value is
    [Array.prototype]. *)
Definition set_prototype (o : object) (v : json) : object :=
  match v with
  | JNull => mkObject (own o) false
  | JObj fields => mkObject (own o) (bool_decide (fields !! proto_key = None))
  | JArr _ => mkObject (own o) true
  | JBool _ | JNum _ | JStr _ => o
  end.

(** [o[k] = v] *)
Definition set (o : object) (k : string) (v : json) : object :=
  if bool_decide (k = proto_key) && proto_setter o
     && bool_decide (own o !! k = None)
  then set_prototype o v
  else mkObject (<[k := v]> (own o)) (proto_setter o).

(** [Object.assign(target, source)]: every own enumerable property of
    the source is written to the target with [set]. *)
Definition assign (target : object) (source : json) : object :=
  map_fold (fun k v o => set o k v) target (entries source).

End Js.

(** ** The [config_nodes] table (shared schema)

    [id] is a [serial] primary key, [parentId] a nullable reference to
    [config_nodes.id], [properties] and [defaults] are [jsonb NOT NULL]
    columns with default ['{}'], the two timestamps default to the clock.
    The reference from [userId] to the [users] table is outside the
    resolution engine and is not part of the model. *)

Module Node.
Record t : Type := mk {
  id : Z;
  name : string;
  parentId : option Z;
  userId : string;
  properties : json;
  defaults : json;
  nodeType : string;
  createdAt : Z;
  updatedAt : Z
}.
End Node.

Abbreviation ConfigNode := Node.t.

(** [InsertConfigNode]: the insert schema without [id], [createdAt] and
    [updatedAt]; [parentId], [properties] and [defaults] are optional. *)
Record InsertConfigNode : Type := mkInsert {
  ins_name : string;
  ins_parentId : option Z;
  ins_userId : string;
  ins_properties : option json;
  ins_defaults : option json;
  ins_nodeType : string
}.

(** [UpdateConfigNode = insertConfigNodeSchema.partial().omit({userId})]:
    every remaining field is optional.  For [parentId] the outer [option]
    is "supplied or not", the inner one is [null] or a number. *)
Record UpdateConfigNode : Type := mkUpdate {
  upd_name : option string;
  upd_parentId : option (option Z);
  upd_properties : option json;
  upd_defaults : option json;
  upd_nodeType : option string
}.

(** ** The database

    The rows of [config_nodes] and the next value of the sequence behind
    the [serial] column. *)
Record Store : Type := mkStore {
  config_nodes : list ConfigNode;
  config_nodes_id_seq : Z
}.

(** The result of a call that writes: a value and the new store, or an
    exception thrown by the driver, with the store as the exception left
    it (no call here runs inside a transaction). *)
Inductive res (A : Type) : Type :=
  | Ok (a : A) (db : Store)
  | Throw (db : Store).
Arguments Ok {A} a db.
Arguments Throw {A} db.

Definition ids (rows : list ConfigNode) : list Z := Node.id <$> rows.

Module Sql.

(** [select().from(configNodes).where(eq(configNodes.id, i))] *)
Definition select_by_id (i : Z) (db : Store) : list ConfigNode :=
  filter (fun n => Node.id n = i) (config_nodes db).

(** [select().from(configNodes).where(eq(configNodes.parentId, i))] *)
Definition select_by_parent (i : Z) (db : Store) : list ConfigNode :=
  filter (fun n => Node.parentId n = Some i) (config_nodes db).

(** The foreign key of [parentId]: [NULL] or the id of some row. *)
Definition references_ok (parent : option Z) (rows : list ConfigNode) : bool :=
  match parent with
  | None => true
  | Some p => bool_decide (p ∈ ids rows)
  end.

(** The range of an [integer] column.  The driver sends a number as
    text and the server refuses one outside this range, so no row holds
    such an [id]. *)
Definition int4 (i : Z) : Prop := -2147483648 <= i <= 2147483647.

#[global] Instance int4_dec i : Decision (int4 i).
Proof. unfold int4. apply _. Defined.

(** A [varchar] parameter: text that holds the character U+0000 is
    refused. *)
Definition text_ok (s : string) : bool := negb (Utf8.has_nul s).

(** The text of a [varchar] parameter as the server receives it. *)
Definition text (s : string) : string := Utf8.scrub s.

(** A string or a key inside a [jsonb] parameter: [JSON.stringify]
    writes a lone surrogate as an escape, which the input function of
    the type refuses as it refuses U+0000. *)
Definition json_text_ok (s : string) : bool :=
  text_ok s && negb (Utf8.has_surrogate s).

(** A number as [JSON.stringify] writes it and the column returns it:
    [NaN] and the infinities are written [null], [-0] is written [0]. *)
Definition number (x : float) : json :=
  if PrimFloat.is_nan x || PrimFloat.is_infinity x then JNull
  else if PrimFloat.is_zero x then JNum PrimFloat.zero
  else JNum x.

(** What a [jsonb] column holds of a value: the value sent as
    [JSON.stringify(v)], read by the input function of the type and
    returned by [JSON.parse].  [None]: the text is refused, which is the
    case when a string or a key holds the character U+0000 or a lone
    surrogate. *)
Fixpoint jsonb (v : json) : option json :=
  match v with
  | JNull => Some JNull
  | JBool b => Some (JBool b)
  | JNum x => Some (number x)
  | JStr s => if json_text_ok s then Some (JStr s) else None
  | JArr items => JArr <$> mapM jsonb items
  | JObj fields =>
    JObj <$> map_fold (fun k v stored =>
                         if json_text_ok k
                         then stored ← stored; v' ← jsonb v; Some (<[k := v']> stored)
                         else None)
                      (Some ∅) fields
  end.

(** The parameter of a [jsonb] column, when the statement has one. *)
Definition bind_json (v : option json) : option (option json) :=
  match v with
  | None => Some None
  | Some x => Some <$> jsonb x
  end.

(** The parameters of an [INSERT] as the server reads them; [None] when
    it refuses one, which happens before the statement runs.  The user
    id is the one of the session, which the [users] table holds. *)
Definition bind_insert (v : InsertConfigNode) : option InsertConfigNode :=
  if text_ok (ins_name v) && text_ok (ins_userId v) && text_ok (ins_nodeType v)
     && match ins_parentId v with
        | Some p => bool_decide (int4 p)
        | None => true
        end
  then
    properties ← bind_json (ins_properties v);
    defaults ← bind_json (ins_defaults v);
    Some (mkInsert (text (ins_name v)) (ins_parentId v) (ins_userId v) properties defaults
            (text (ins_nodeType v)))
  else None.

(** The parameters of an [UPDATE]; the range of [parentId] is looked at
    by [update], next to the rows. *)
Definition bind_update (u : UpdateConfigNode) : option UpdateConfigNode :=
  if from_option text_ok true (upd_name u) && from_option text_ok true (upd_nodeType u)
  then
    properties ← bind_json (upd_properties u);
    defaults ← bind_json (upd_defaults u);
    Some (mkUpdate (text <$> upd_name u) (upd_parentId u) properties defaults
            (text <$> upd_nodeType u))
  else None.

(** A JavaScript [null] is sent as SQL [NULL], which a [NOT NULL]
    column refuses; an absent value takes the column default ['{}']. *)
Definition not_null_ok (v : option json) : bool :=
  match v with
  | Some JNull => false
  | _ => true
  end.

Definition column_default : json := JObj ∅.

(** [insert(configNodes).values(v).returning()].  A refused parameter
    fails the statement before it runs; once it runs, the sequence
    advances whether or not the row is accepted. *)
Definition insert (v : InsertConfigNode) (now : Z) (db : Store) : res ConfigNode :=
  match bind_insert v with
  | None => Throw db
  | Some sent =>
    let i := config_nodes_id_seq db in
    let row := Node.mk i (ins_name sent) (ins_parentId sent) (ins_userId sent)
                 (default column_default (ins_properties sent))
                 (default column_default (ins_defaults sent))
                 (ins_nodeType sent) now now in
    let rows := config_nodes db in
    if not_null_ok (ins_properties v) && not_null_ok (ins_defaults v)
       && bool_decide (i ∉ ids rows)
       && references_ok (ins_parentId sent) (rows ++ [row])
    then Ok row (mkStore (rows ++ [row]) (i + 1))
    else Throw (mkStore rows (i + 1))
  end.

(** [SET] of one row: [{ ...updates, updatedAt: new Date() }], fields
    that are [undefined] are left out of the statement. *)
Definition set_row (u : UpdateConfigNode) (now : Z) (n : ConfigNode) : ConfigNode :=
  Node.mk (Node.id n)
    (default (Node.name n) (upd_name u))
    (default (Node.parentId n) (upd_parentId u))
    (Node.userId n)
    (default (Node.properties n) (upd_properties u))
    (default (Node.defaults n) (upd_defaults u))
    (default (Node.nodeType n) (upd_nodeType u))
    (Node.createdAt n)
    now.

(** A [parentId] parameter outside the [integer] range is refused; the
    id of a row is within the range. *)
Definition parent_in_range (parent : option (option Z)) (rows : list ConfigNode) : bool :=
  match parent with
  | Some (Some p) => bool_decide (int4 p) || bool_decide (p ∈ ids rows)
  | _ => true
  end.

(** [update(configNodes).set(...).where(eq(configNodes.id, i)).returning()].
    A refused parameter fails the statement before it runs.  The
    reference is checked for a row whose [parentId] changes. *)
Definition update (i : Z) (u : UpdateConfigNode) (now : Z) (db : Store)
  : res (list ConfigNode) :=
  match bind_update u with
  | None => Throw db
  | Some sent =>
    let rows := config_nodes db in
    let hit := filter (fun n => Node.id n = i) rows in
    if negb (parent_in_range (upd_parentId sent) rows) then Throw db
    else if bool_decide (hit = []) then Ok [] db
    else if not_null_ok (upd_properties u) && not_null_ok (upd_defaults u)
            && forallb (fun n =>
                 bool_decide (Node.parentId (set_row sent now n) = Node.parentId n)
                 || references_ok (Node.parentId (set_row sent now n)) rows) hit
    then Ok (set_row sent now <$> hit)
            (mkStore ((fun n => if bool_decide (Node.id n = i)
                                then set_row sent now n else n) <$> rows)
                     (config_nodes_id_seq db))
    else Throw db
  end.

(** [delete(configNodes).where(eq(configNodes.id, i))], with its
    [rowCount].  The reference from [parentId] has no [ON DELETE]
    action: the statement is refused while a remaining row points at a
    deleted one. *)
Definition delete (i : Z) (db : Store) : res Z :=
  let rows := config_nodes db in
  let kept := filter (fun n => Node.id n ≠ i) rows in
  let gone := filter (fun n => Node.id n = i) rows in
  if bool_decide (gone = []) then Ok 0 db
  else if forallb (fun n => bool_decide (Node.parentId n ≠ Some i)) kept
  then Ok (Z.of_nat (length gone)) (mkStore kept (config_nodes_id_seq db))
  else Throw db.

End Sql.

(** ** [DatabaseStorage]

    The two loops that follow parent links carry a [fuel] argument, the
    number of iterations (or of nested calls) they may make; [None] means
    the fuel ran out before the call returned. *)

Section for_of.
Context {A : Type}.

(** [for (const x of xs) { await body(x) }]: an exception leaves the
    loop, running out of fuel inside the body does too. *)
Fixpoint for_of (body : A -> Store -> option (res unit)) (xs : list A) (db : Store)
  : option (res unit) :=
  match xs with
  | [] => Some (Ok tt db)
  | x :: rest =>
    match body x db with
    | None => None
    | Some (Throw db') => Some (Throw db')
    | Some (Ok _ db') => for_of body rest db'
    end
  end.
End for_of.

Definition dollar_NAME : string := "$NAME".

(** [const [node] = await db.select()...; return node].  For an [id]
    outside the [integer] range the query throws instead of returning;
    no row has such an id, and a route that calls this answers for it
    through [no_row] below. *)
Definition getConfigNode (i : Z) (db : Store) : option ConfigNode :=
  head (Sql.select_by_id i db).

Definition createConfigNode (node : InsertConfigNode) (now : Z) (db : Store)
  : res ConfigNode :=
  Sql.insert node now db.

Definition updateConfigNode (i : Z) (updates : UpdateConfigNode) (now : Z) (db : Store)
  : res (option ConfigNode) :=
  match Sql.update i updates now db with
  | Ok returned db' => Ok (head returned) db'
  | Throw db' => Throw db'
  end.

(** The statement [await this.deleteConfigNode(child.id)] of the loop
    body: the boolean is dropped. *)
Definition delete_child (deleteConfigNode : Z -> Store -> option (res bool))
  (child : ConfigNode) (db : Store) : option (res unit) :=
  match deleteConfigNode (Node.id child) db with
  | None => None
  | Some (Throw db') => Some (Throw db')
  | Some (Ok _ db') => Some (Ok tt db')
  end.

Fixpoint deleteConfigNode (fuel : nat) (i : Z) (db : Store) : option (res bool) :=
  match fuel with
  | O => None
  | S fuel' =>
    let children := Sql.select_by_parent i db in
    match for_of (delete_child (deleteConfigNode fuel')) children db with
    | None => None
    | Some (Throw db') => Some (Throw db')
    | Some (Ok _ db1) =>
      match Sql.delete i db1 with
      | Throw db2 => Some (Throw db2)
      | Ok rowCount db2 => Some (Ok (bool_decide (0 < rowCount)) db2)
      end
    end
  end.

(** The [while (currentId !== null)] loop of [getConfigNodePath], on its
    two variables. *)
Fixpoint path_loop (fuel : nat) (db : Store) (currentId : option Z) (path : list ConfigNode)
  : option (list ConfigNode) :=
  match currentId with
  | None => Some path
  | Some i =>
    match getConfigNode i db with
    | None => Some path
    | Some node =>
      match fuel with
      | O => None
      | S fuel' => path_loop fuel' db (Node.parentId node) (node :: path)
      end
    end
  end.

Definition getConfigNodePath (fuel : nat) (i : Z) (db : Store) : option (list ConfigNode) :=
  path_loop fuel db (Some i) [].

(** The body of the [for (const node of path)] loop of
    [resolveConfiguration]. *)
Definition apply_node (resolved : Js.object) (node : ConfigNode) : Js.object :=
  let resolved := Js.assign resolved (Node.defaults node) in
  let resolved := Js.assign resolved (Node.properties node) in
  Js.set resolved dollar_NAME (JStr (Node.name node)).

Definition resolveConfiguration (fuel : nat) (nodeId : Z) (db : Store) : option Js.object :=
  path ← getConfigNodePath fuel nodeId db;
  Some (foldl apply_node Js.empty path).

(** ** The routes

    Every handler receives the authenticated caller
    ([req.user.claims.sub]) and answers with a status and a body; an
    exception of the storage layer is caught and answered with 500.  The
    id of a route is [parseInt(req.params.id)], an integer (where the
    text holds no number the query throws, as it does for an integer
    outside the range of the column). *)

Inductive Body : Type :=
  | Message (text : string)
  | NodeBody (node : ConfigNode)
  | PathBody (path : list ConfigNode)
  | ResolvedBody (properties : gmap string json)
  | NoBody.

Record Response : Type := mkResponse {
  status : Z;
  body : Body
}.

(** The JSON body of [POST /api/config-nodes], field by field; a [name]
    or [nodeType] that is missing or not a string is [None]; [parentId]
    is [None] when it is missing or [null], and an integer otherwise (a
    number that is not an integer passes the validation and is refused
    by the [integer] column as an integer outside its range is). *)
Record CreateBody : Type := mkCreateBody {
  cb_name : option string;
  cb_nodeType : option string;
  cb_parentId : option Z;
  cb_properties : option json;
  cb_defaults : option json
}.

(** ** Validation

    For a [jsonb] column [createInsertSchema] gives the union of the JSON
    literals, [z.record(z.any())] and [z.array(z.any())].  A parsed
    object is rebuilt key by key, its values untouched, and the key
    [__proto__] is left out of what is rebuilt; numbers are not asked to
    be finite. *)
Module Zod.

Definition jsonSchema (v : json) : json :=
  match v with
  | JObj fields => JObj (delete Js.proto_key fields)
  | _ => v
  end.

(** What [updateConfigNodeSchema.parse] makes of the fields it
    accepts. *)
Definition update (u : UpdateConfigNode) : UpdateConfigNode :=
  mkUpdate (upd_name u) (upd_parentId u) (jsonSchema <$> upd_properties u)
    (jsonSchema <$> upd_defaults u) (upd_nodeType u).

End Zod.

(** [insertConfigNodeSchema.parse({ ...req.body, userId, parentId })];
    [None] is the [ZodError]. *)
Definition parse_insert (userId : string) (b : CreateBody) : option InsertConfigNode :=
  match cb_name b, cb_nodeType b with
  | Some name, Some nodeType =>
    Some (mkInsert name (cb_parentId b) userId (Zod.jsonSchema <$> cb_properties b)
            (Zod.jsonSchema <$> cb_defaults b) nodeType)
  | _, _ => None
  end.

(** What a handler answers when [storage.getConfigNode(id)] gives it no
    row: 404, or, for an [id] outside the [integer] range, where the
    query throws, the 500 of the handler's [catch] with its message. *)
Definition no_row (i : Z) (failure : string) : Response :=
  if bool_decide (Sql.int4 i) then mkResponse 404 (Message "Config node not found")
  else mkResponse 500 (Message failure).

(** [if (nodeData.parentId)]: [undefined] and [0] are falsy. *)
Definition truthy (parentId : option Z) : option Z :=
  match parentId with
  | Some p => if bool_decide (p = 0) then None else Some p
  | None => None
  end.

Module Routes.

(** [GET /api/config-nodes/:id/resolve] *)
Definition get_resolve (fuel : nat) (caller : string) (i : Z) (db : Store)
  : option Response :=
  match getConfigNode i db with
  | None => Some (no_row i "Failed to resolve configuration")
  | Some node =>
    if bool_decide (Node.userId node ≠ caller)
    then Some (mkResponse 403 (Message "Access denied"))
    else
      resolved ← resolveConfiguration fuel i db;
      Some (mkResponse 200 (ResolvedBody (Js.own resolved)))
  end.

(** [GET /api/config-nodes/:id/path] *)
Definition get_path (fuel : nat) (caller : string) (i : Z) (db : Store)
  : option Response :=
  match getConfigNode i db with
  | None => Some (no_row i "Failed to fetch config path")
  | Some node =>
    if bool_decide (Node.userId node ≠ caller)
    then Some (mkResponse 403 (Message "Access denied"))
    else
      path ← getConfigNodePath fuel i db;
      Some (mkResponse 200 (PathBody path))
  end.

(** [POST /api/config-nodes] *)
Definition post (caller : string) (b : CreateBody) (now : Z) (db : Store)
  : Response * Store :=
  match parse_insert caller b with
  | None => (mkResponse 400 (Message "Validation error"), db)
  | Some nodeData =>
    let create :=
      match createConfigNode nodeData now db with
      | Ok node db' => (mkResponse 201 (NodeBody node), db')
      | Throw db' => (mkResponse 500 (Message "Failed to create config node"), db')
      end in
    match truthy (ins_parentId nodeData) with
    | Some p =>
      match getConfigNode p db with
      | None =>
        (if bool_decide (Sql.int4 p) then mkResponse 400 (Message "Invalid parent node")
         else mkResponse 500 (Message "Failed to create config node"), db)
      | Some parent =>
        if bool_decide (Node.userId parent ≠ caller)
        then (mkResponse 400 (Message "Invalid parent node"), db)
        else create
      end
    | None => create
    end
  end.

(** [PATCH /api/config-nodes/:id]; [parsed] holds the fields of the
    body that [updateConfigNodeSchema] accepts, [None] for a
    [ZodError]. *)
Definition patch (caller : string) (i : Z) (parsed : option UpdateConfigNode) (now : Z)
    (db : Store) : Response * Store :=
  match getConfigNode i db with
  | None => (no_row i "Failed to update config node", db)
  | Some existingNode =>
    if bool_decide (Node.userId existingNode ≠ caller)
    then (mkResponse 403 (Message "Access denied"), db)
    else
      match parsed with
      | None => (mkResponse 400 (Message "Validation error"), db)
      | Some updates =>
        match updateConfigNode i (Zod.update updates) now db with
        | Ok None db' => (mkResponse 404 (Message "Config node not found"), db')
        | Ok (Some updatedNode) db' => (mkResponse 200 (NodeBody updatedNode), db')
        | Throw db' => (mkResponse 500 (Message "Failed to update config node"), db')
        end
      end
  end.

(** [DELETE /api/config-nodes/:id] *)
Definition delete (fuel : nat) (caller : string) (i : Z) (db : Store)
  : option (Response * Store) :=
  match getConfigNode i db with
  | None => Some (no_row i "Failed to delete config node", db)
  | Some existingNode =>
    if bool_decide (Node.userId existingNode ≠ caller)
    then Some (mkResponse 403 (Message "Access denied"), db)
    else
      match deleteConfigNode fuel i db with
      | None => None
      | Some (Ok false db') => Some (mkResponse 404 (Message "Config node not found"), db')
      | Some (Ok true db') => Some (mkResponse 204 NoBody, db')
      | Some (Throw db') => Some (mkResponse 500 (Message "Failed to delete config node"), db')
      end
  end.

End Routes.

(** ** The row-per-property variant ([Repository], Go)

    Nodes carry no maps; every property is a row of [config_properties]
    holding the JSON text of its value. *)

Module Go.

Record ConfigNode : Type := mkConfigNode {
  ID : Z;
  Name : string;
  NodeType : string;
  ParentID : option Z;
  Description : string;
  CreatedAt : Z;
  UpdatedAt : Z
}.

Record ConfigProperty : Type := mkConfigProperty {
  PropID : Z;
  NodeID : Z;
  Key : string;
  Value : string;
  PropDataType : DataType;
  DefaultValue : option string;
  PropDescription : string
}.

Record DB : Type := mkDB {
  config_nodes : list ConfigNode;
  config_properties : list ConfigProperty
}.

Record ResolvedConfiguration : Type := mkResolved {
  ResolvedNodeID : Z;
  NodeName : string;
  Properties : gmap string json;
  Path : list ConfigNode
}.

(** [SELECT ... FROM config_nodes WHERE id = $1]; [sql.ErrNoRows]
    becomes [nil]. *)
Definition GetNodeByID (id : Z) (db : DB) : option ConfigNode :=
  head (filter (fun n => ID n = id) (config_nodes db)).

(** The [for currentID != nil] loop of [GetNodePath]. *)
Fixpoint path_loop (fuel : nat) (db : DB) (currentID : option Z) (path : list ConfigNode)
  : option (list ConfigNode) :=
  match currentID with
  | None => Some path
  | Some id =>
    match GetNodeByID id db with
    | None => Some path
    | Some node =>
      match fuel with
      | O => None
      | S fuel' => path_loop fuel' db (ParentID node) (node :: path)
      end
    end
  end.

Definition GetNodePath (fuel : nat) (nodeID : Z) (db : DB) : option (list ConfigNode) :=
  path_loop fuel db (Some nodeID) [].

Section Repository.
(** [json.Unmarshal([]byte(text), &value)] into an [interface{}];
    [None] is a decoding error. *)
Variable json_Unmarshal : string -> option json.
(** The [ORDER BY key] of the property query, under the collation of
    the database. *)
Variable order_by_key : list ConfigProperty -> list ConfigProperty.

(** [SELECT ... FROM config_properties WHERE node_id = $1 ORDER BY key] *)
Definition GetPropertiesByNodeID (nodeID : Z) (db : DB) : list ConfigProperty :=
  order_by_key (filter (fun p => NodeID p = nodeID) (config_properties db)).

(** The value a property row contributes: the decoded JSON text, or
    the text itself as a string when decoding fails. *)
Definition decode (text : string) : json :=
  match json_Unmarshal text with
  | Some value => value
  | None => JStr text
  end.

(** The body of [for _, node := range path]. *)
Definition apply_node (db : DB) (resolved : gmap string json) (node : ConfigNode)
  : gmap string json :=
  foldl (fun resolved prop => <[Key prop := decode (Value prop)]> resolved)
        resolved (GetPropertiesByNodeID (ID node) db).

(** [ResolveConfiguration]; [inl] is the error value. *)
Definition ResolveConfiguration (fuel : nat) (nodeID : Z) (db : DB)
  : option (string + ResolvedConfiguration) :=
  path ← GetNodePath fuel nodeID db;
  match last path with
  | None => Some (inl "node not found")
  | Some currentNode =>
    Some (inr (mkResolved nodeID (Name currentNode)
                 (foldl (apply_node db) ∅ path) path))
  end.
End Repository.

End Go.

(** ** Resolution as the specification words it

    "For each node in path, in root-to-leaf order: first merge that node's
    defaults into the accumulator (each key overwrites any existing value
    for that key), then merge that node's properties into the
    accumulator." *)

Definition spec_merge (acc source : gmap string json) : gmap string json :=
  source ∪ acc.

Definition spec_step (acc : gmap string json) (node : ConfigNode) : gmap string json :=
  spec_merge (spec_merge acc (Js.entries (Node.defaults node)))
             (Js.entries (Node.properties node)).

Definition spec_resolve (path : list ConfigNode) : gmap string json :=
  foldl spec_step ∅ path.

(** What one node says about a key: its property, else its default. *)
Definition node_value (node : ConfigNode) (k : string) : option json :=
  match Js.entries (Node.properties node) !! k with
  | Some v => Some v
  | None => Js.entries (Node.defaults node) !! k
  end.

(** ** Shapes of paths and stores *)

(** Both implementations climb the parent links in the same way; [walk]
    is that loop over an arbitrary lookup, used to state facts once for
    both. *)
Section walk.
Context {N : Type}.
Variable lookup : Z -> option N.
Variable parent : N -> option Z.
Variable ident : N -> Z.

Fixpoint walk (fuel : nat) (current : option Z) (path : list N) : option (list N) :=
  match current with
  | None => Some path
  | Some i =>
    match lookup i with
    | None => Some path
    | Some node =>
      match fuel with
      | O => None
      | S fuel' => walk fuel' (parent node) (node :: path)
      end
    end
  end.

(** The id reached from [i] by following [k] parent links, each read
    from the row found under the id before it. *)
Fixpoint ancestor (k : nat) (i : Z) : option Z :=
  match k with
  | O => Some i
  | S k' => node ← lookup i; p ← parent node; ancestor k' p
  end.

(** Every element is the parent of the next one. *)
Fixpoint linked (path : list N) : Prop :=
  match path with
  | a :: (b :: _) as rest => parent b = Some (ident a) /\ linked rest
  | _ => True
  end.

(** The first element of a returned path is a root, or its parent is
    not in the store (the truncation boundary). *)
Definition starts_at_boundary (path : list N) : Prop :=
  match path with
  | [] => True
  | a :: _ =>
    match parent a with
    | None => True
    | Some p => lookup p = None
    end
  end.

(** What the loop keeps true of its two variables. *)
Definition walk_inv (current : option Z) (path : list N) : Prop :=
  linked path /\ match path with [] => True | b :: _ => parent b = current end.
End walk.

(** The parent links form a forest: some rank strictly decreases from
    every row to its parent. *)
Definition ranked (rank : Z -> nat) (rows : list ConfigNode) : Prop :=
  Forall (fun n => match Node.parentId n with
                   | Some p => (rank p < rank (Node.id n))%nat
                   | None => True
                   end) rows.

(** ... and no rank reaches [bound]. *)
Definition rank_below (rank : Z -> nat) (bound : nat) (rows : list ConfigNode) : Prop :=
  Forall (fun n => (rank (Node.id n) < bound)%nat) rows.

(** The primary key. *)
Definition unique_ids (db : Store) : Prop := NoDup (ids (config_nodes db)).

(** Every id and every parent reference was handed out by the sequence. *)
Definition issued (db : Store) : Prop :=
  Forall (fun n => Node.id n < config_nodes_id_seq db
                   /\ match Node.parentId n with
                      | Some p => p < config_nodes_id_seq db
                      | None => True
                      end) (config_nodes db).

(** A row that stays keeps its parent: no row of [after] points at a row
    of [before] that is gone from [after]. *)
Definition closed_under (before after : list ConfigNode) : Prop :=
  forall r q, r ∈ after -> Node.parentId r = Some q ->
              q ∈ ids before -> q ∈ ids after.

(** What deleting [i] does to the rows, as far as the proofs need it:
    rows are only removed, [i] is gone, no remaining row points at a
    removed one, and rows of rank at most that of [i] stay. *)
Definition delete_post (rank : Z -> nat) (i : Z) (before after : list ConfigNode) : Prop :=
  (after ⊆ before)
  /\ (i ∉ ids after)
  /\ closed_under before after
  /\ (forall r, r ∈ before -> (rank (Node.id r) <= rank i)%nat -> Node.id r ≠ i -> r ∈ after).

(** What deleting asks of a call [recur] given [fuel]: on a forest whose
    ranks stay below [bound] it returns, tells whether [i] was there, leaves
    the sequence alone and changes the rows as [delete_post] says. *)
Definition deletes (rank : Z -> nat) (bound : nat)
  (recur : Z -> Store -> option (res bool)) (fuel : nat) : Prop :=
  forall i db,
    ranked rank (config_nodes db) ->
    rank_below rank bound (config_nodes db) ->
    (bound - rank i < fuel)%nat ->
    exists db',
      recur i db = Some (Ok (bool_decide (i ∈ ids (config_nodes db))) db')
      /\ config_nodes_id_seq db' = config_nodes_id_seq db
      /\ delete_post rank i (config_nodes db) (config_nodes db').

(** ** The same contents in both representations

    A node of the embedded form and a node row of the normalized form
    that describe the same node, and a store of each form with the same
    nodes, where every property row [(nodeId, key, value, defaultValue)]
    is the entry [key] of the node's [properties] (its decoded [value])
    and of the node's [defaults] (its decoded [defaultValue], when the row
    has one). *)

Definition same_node (n : ConfigNode) (g : Go.ConfigNode) : Prop :=
  Go.ID g = Node.id n /\ Go.Name g = Node.name n
  /\ Go.ParentID g = Node.parentId n /\ Go.NodeType g = Node.nodeType n.

(** The constraint [UNIQUE(node_id, key)]. *)
Definition unique_keys (go : Go.DB) : Prop :=
  NoDup ((fun p => (Go.NodeID p, Go.Key p)) <$> Go.config_properties go).

Section equivalent.
Variable json_Unmarshal : string -> option json.

Definition go_properties (go : Go.DB) (i : Z) : gmap string json :=
  list_to_map ((fun p => (Go.Key p, Go.decode json_Unmarshal (Go.Value p)))
                 <$> filter (fun p => Go.NodeID p = i) (Go.config_properties go)).

Definition go_defaults (go : Go.DB) (i : Z) : gmap string json :=
  list_to_map (omap (fun p => (fun d => (Go.Key p, Go.decode json_Unmarshal d))
                                <$> Go.DefaultValue p)
                    (filter (fun p => Go.NodeID p = i) (Go.config_properties go))).

Definition same_maps (go : Go.DB) (n : ConfigNode) : Prop :=
  Js.entries (Node.properties n) = go_properties go (Node.id n)
  /\ Js.entries (Node.defaults n) = go_defaults go (Node.id n).

Definition equivalent (db : Store) (go : Go.DB) : Prop :=
  Forall2 same_node (config_nodes db) (Go.config_nodes go)
  /\ Forall (same_maps go) (config_nodes db).
End equivalent.

(** ** Sample stores *)

Module Sample.

Definition Production : ConfigNode :=
  Node.mk 1 "Production" None "alice"
    (JObj {[ "cache_enabled" := JBool true ]})
    (JObj {[ "api_timeout" := JNum 10%float ]})
    "territory" 100 100.

Definition EastCoast : ConfigNode :=
  Node.mk 2 "EastCoast" (Some 1) "alice"
    (JObj {[ "region" := JStr "us-east-1" ]})
    (JObj ∅)
    "center" 101 101.

Definition store : Store := mkStore [Production; EastCoast] 3.

(** An empty root. *)
Definition Bare : ConfigNode :=
  Node.mk 1 "Bare" None "alice" (JObj ∅) (JObj ∅) "territory" 100 100.

Definition bare_store : Store := mkStore [Bare] 2.

(** A root with a property stored under the key [__proto__]. *)
Definition Proto : ConfigNode :=
  Node.mk 1 "Proto" None "alice"
    (JObj {[ "__proto__" := JNum 1%float ]}) (JObj ∅) "territory" 100 100.

Definition proto_store : Store := mkStore [Proto] 2.

(** Two rows whose parent links point at each other. *)
Definition cyclic_store : Store :=
  mkStore [ Node.mk 1 "a" (Some 2) "alice" (JObj ∅) (JObj ∅) "territory" 100 102;
            Node.mk 2 "b" (Some 1) "alice" (JObj ∅) (JObj ∅) "center" 101 101 ] 3.

Definition rank (i : Z) : nat := Z.to_nat i.

(** A store that the normalized form can hold as well, and that form. *)
Definition Root : ConfigNode :=
  Node.mk 1 "Root" None "alice"
  (JObj {[ "api_timeout" := JNum 10%float; "cache_enabled" := JBool true ]})
  (JObj {[ "api_timeout" := JNum 1%float ]})
  "territory" 100 100.

Definition Leaf : ConfigNode :=
  Node.mk 2 "Leaf" (Some 1) "alice"
  (JObj {[ "api_timeout" := JNum 1%float ]}) (JObj ∅) "center" 101 101.

Definition row_store : Store := mkStore [Root; Leaf] 3.

Definition go_store : Go.DB :=
  Go.mkDB
  [ Go.mkConfigNode 1 "Root" "territory" None EmptyString 100 100;
    Go.mkConfigNode 2 "Leaf" "center" (Some 1) EmptyString 101 101 ]
  [ Go.mkConfigProperty 1 1 "api_timeout" "10" DataTypeNumber (Some "1") EmptyString;
    Go.mkConfigProperty 2 1 "cache_enabled" "true" DataTypeBoolean None EmptyString;
    Go.mkConfigProperty 3 2 "api_timeout" "1" DataTypeNumber None EmptyString ].

Definition go_bare : Go.DB :=
  Go.mkDB [ Go.mkConfigNode 1 "Bare" "territory" None EmptyString 100 100 ] [].

Definition go_proto : Go.DB :=
  Go.mkDB [ Go.mkConfigNode 1 "Proto" "territory" None EmptyString 100 100 ]
        [ Go.mkConfigProperty 1 1 "__proto__" "1" DataTypeNumber None EmptyString ].

(** A decoder for the three JSON texts used above. *)
Definition unmarshal (text : string) : option json :=
  if bool_decide (text = "10") then Some (JNum 10%float)
  else if bool_decide (text = "1") then Some (JNum 1%float)
  else if bool_decide (text = "true") then Some (JBool true)
  else None.

(** Request bodies. *)
Definition orphan_body : CreateBody :=
  mkCreateBody (Some "Orphan") (Some "center") (Some 99) None None.

(** A parent outside the range of the [integer] column. *)
Definition far_body : CreateBody :=
  mkCreateBody (Some "Far") (Some "center") (Some 2147483648) None None.

Definition west_body : CreateBody :=
  mkCreateBody (Some "WestCoast") (Some "center") (Some 1)
  (Some (JObj {[ "region" := JStr "us-west-2" ]})) None.





Definition rename : UpdateConfigNode :=
  mkUpdate (Some "Prod") None (Some (JObj ∅)) None None.


End Sample.


(** ** The remaining operations of [DatabaseStorage] and their routes *)

(** [{ ...node, children }], as the node and its children. *)
Definition getConfigNodeWithChildren (i : Z) (db : Store)
  : option (ConfigNode * list ConfigNode) :=
  match getConfigNode i db with
  | None => None
  | Some node => Some (node, Sql.select_by_parent i db)
  end.

Definition getUserConfigNodes (userId : string) (db : Store) : list ConfigNode :=
  filter (fun n => Node.userId n = userId) (config_nodes db).

Definition getRootConfigNodes (userId : string) (db : Store) : list ConfigNode :=
  filter (fun n => Node.userId n = userId /\ Node.parentId n = None) (config_nodes db).

Module Reads.

(** [GET /api/config-nodes] *)
Definition get_config_nodes (caller : string) (db : Store) : Z * list ConfigNode :=
  (200, getUserConfigNodes caller db).

(** [GET /api/config-nodes/roots] *)
Definition get_roots (caller : string) (db : Store) : Z * list ConfigNode :=
  (200, getRootConfigNodes caller db).

(** [GET /api/config-nodes/:id]: the status and, with 200, the node and
    its children. *)
Definition get_node (caller : string) (i : Z) (db : Store)
  : Z * option (ConfigNode * list ConfigNode) :=
  match getConfigNodeWithChildren i db with
  | None => (status (no_row i "Failed to fetch config node"), None)
  | Some (node, children) =>
    if bool_decide (Node.userId node ≠ caller) then (403, None)
    else (200, Some (node, children))
  end.

End Reads.

(** ** The [users] table

    [id] is the primary key, [email] is unique when it is not [NULL], the
    two timestamps are nullable and default to the clock. *)

Record User : Type := mkUser {
  user_id : string;
  email : option string;
  firstName : option string;
  lastName : option string;
  profileImageUrl : option string;
  user_createdAt : option Z;
  user_updatedAt : option Z
}.

(** [UpsertUser = typeof users.$inferInsert]: only [id] is required; for
    the other fields the outer [option] is "supplied or not", the inner
    one is [null] or a value. *)
Record UpsertUser : Type := mkUpsertUser {
  up_id : string;
  up_email : option (option string);
  up_firstName : option (option string);
  up_lastName : option (option string);
  up_profileImageUrl : option (option string);
  up_createdAt : option (option Z);
  up_updatedAt : option (option Z)
}.

(** The parameters of a statement on [users] as the server receives
    them. *)
Definition sent_user (d : UpsertUser) : UpsertUser :=
  let sent := fun field : option (option string) =>
    match field with
    | Some value => Some (Sql.text <$> value)
    | None => None
    end in
  mkUpsertUser (Sql.text (up_id d)) (sent (up_email d)) (sent (up_firstName d))
    (sent (up_lastName d)) (sent (up_profileImageUrl d))
    (up_createdAt d) (up_updatedAt d).

(** The rows with the id the server received. *)
Definition find_user (id : string) (users : list User) : option User :=
  head (filter (fun u => user_id u = id) users).

(** [const [user] = await db.select().from(users).where(eq(users.id, id))] *)
Definition getUser (id : string) (users : list User) : option User :=
  find_user (Sql.text id) users.

(** The row of [insert(users).values(userData)]. *)
Definition inserted_user (d : UpsertUser) (now : Z) : User :=
  mkUser (up_id d)
    (default None (up_email d)) (default None (up_firstName d))
    (default None (up_lastName d)) (default None (up_profileImageUrl d))
    (default (Some now) (up_createdAt d)) (default (Some now) (up_updatedAt d)).

(** The row after [set: { ...userData, updatedAt: new Date() }]. *)
Definition updated_user (d : UpsertUser) (now : Z) (old : User) : User :=
  mkUser (user_id old)
    (default (email old) (up_email d)) (default (firstName old) (up_firstName d))
    (default (lastName old) (up_lastName d))
    (default (profileImageUrl old) (up_profileImageUrl d))
    (default (user_createdAt old) (up_createdAt d)) (Some now).

(** The unique constraint on [email], for the row [u] among the others. *)
Definition email_free (u : User) (users : list User) : bool :=
  match email u with
  | None => true
  | Some e =>
    forallb (fun other => bool_decide (user_id other = user_id u)
                          || negb (bool_decide (email other = Some e))) users
  end.

(** The [varchar] parameters of the statement are accepted: none holds
    the character U+0000. *)
Definition user_text_ok (d : UpsertUser) : bool :=
  let supplied := fun field : option (option string) =>
    match field with
    | Some (Some text) => Sql.text_ok text
    | _ => true
    end in
  Sql.text_ok (up_id d) && supplied (up_email d) && supplied (up_firstName d)
  && supplied (up_lastName d) && supplied (up_profileImageUrl d).

(** [INSERT ... ON CONFLICT (id) DO UPDATE SET ... RETURNING *] on the
    parameters the server received; [None] when a constraint refuses the
    row. *)
Definition upsert (sent : UpsertUser) (now : Z) (users : list User)
  : option (User * list User) :=
  match find_user (up_id sent) users with
  | None =>
    let row := inserted_user sent now in
    if email_free row users then Some (row, users ++ [row]) else None
  | Some old =>
    let row := updated_user sent now old in
    if email_free row users
    then Some (row, (fun u => if bool_decide (user_id u = up_id sent)
                              then updated_user sent now u else u) <$> users)
    else None
  end.

(** [insert(users).values(userData).onConflictDoUpdate({ target: users.id,
    set: ... }).returning()]; [None] is the exception of the driver, which
    leaves the table as it was. *)
Definition upsertUser (userData : UpsertUser) (now : Z) (users : list User)
  : option (User * list User) :=
  if user_text_ok userData then upsert (sent_user userData) now users else None.

(** The two constraints of the table. *)
Definition users_ok (users : list User) : Prop :=
  NoDup (user_id <$> users)
  /\ forall u v e, u ∈ users -> v ∈ users ->
        email u = Some e -> email v = Some e -> user_id u = user_id v.

(** The email the data supply belongs to nobody else. *)
Definition email_available (d : UpsertUser) (users : list User) : Prop :=
  forall e other, up_email d = Some (Some e) -> other ∈ users ->
                  email other = Some e -> user_id other = up_id d.

(** The store a call leaves, returned or thrown. *)
Definition left_by {A : Type} (r : res A) : Store :=
  match r with
  | Ok _ db => db
  | Throw db => db
  end.

(** ** Descendants, as the recursion of [deleteConfigNode] reaches them *)

Inductive descends (rows : list ConfigNode) : Z -> ConfigNode -> Prop :=
  | descends_self i r : Node.id r = i -> descends rows i r
  | descends_child i c r :
      c ∈ rows -> Node.parentId c = Some i ->
      descends rows (Node.id c) r -> descends rows i r.

(** What the nested calls of [deleteConfigNode] are asked for: rows are
    only removed, and only rows that descend from the deleted id. *)
Definition keeps_rest (recur : Z -> Store -> option (res bool)) : Prop :=
  forall i db b db',
    recur i db = Some (Ok b db') ->
    config_nodes db' ⊆ config_nodes db
    /\ forall r, r ∈ config_nodes db -> ~ descends (config_nodes db) i r ->
                 r ∈ config_nodes db'.

(** Whatever a returned delete did: rows are only removed, the id is
    gone, and no row that stays points at a row that was removed. *)
Definition closes (recur : Z -> Store -> option (res bool)) : Prop :=
  forall i db b db',
    recur i db = Some (Ok b db') ->
    config_nodes db' ⊆ config_nodes db
    /\ closed_under (config_nodes db) (config_nodes db')
    /\ i ∉ ids (config_nodes db').

(** Ranks grow along a path, from the root to the node. *)
Fixpoint climbing {N : Type} (rank : Z -> nat) (ident : N -> Z) (path : list N) : Prop :=
  match path with
  | [] => True
  | a :: rest =>
    Forall (fun b => (rank (ident a) < rank (ident b))%nat) rest
    /\ climbing rank ident rest
  end.

(** ** Writing in the row-per-property variant ([Repository], Go)

    The two tables with the sequences behind their [BIGSERIAL] keys.  The
    rows are those of the module [Go]; the two timestamps of a property
    row are not part of them. *)

Module Repo.

Record Tables : Type := mkTables {
  tables : Go.DB;
  nodes_seq : Z;
  props_seq : Z
}.

(** What a call that writes returns: a value and the tables, or an error
    of the database with the tables as it left them. *)
Inductive result (A : Type) : Type :=
  | Done (a : A) (t : Tables)
  | Failed (t : Tables).
Arguments Done {A} a t.
Arguments Failed {A} t.

Record CreateNodeRequest : Type := mkCreateNodeRequest {
  cn_Name : string;
  cn_NodeType : string;
  cn_ParentID : option Z;
  cn_Description : string
}.

Record UpdateNodeRequest : Type := mkUpdateNodeRequest {
  un_Name : option string;
  un_Description : option string
}.

Record CreatePropertyRequest : Type := mkCreatePropertyRequest {
  cp_Key : string;
  cp_Value : string;
  cp_DataType : string;
  cp_DefaultValue : option string;
  cp_Description : string
}.

Record UpdatePropertyRequest : Type := mkUpdatePropertyRequest {
  up_Value : option string;
  up_DataType : option string;
  up_DefaultValue : option string;
  up_Description : option string
}.

(** [CHECK (node_type IN ('territory', 'center'))] *)
Definition node_type_ok (t : string) : bool :=
  bool_decide (t = "territory") || bool_decide (t = "center").

(** [CHECK (data_type IN ('string', ..., 'null'))], with the tag a valid
    text stands for. *)
Definition data_type_of (text : string) : option DataType :=
  if bool_decide (text = "string") then Some DataTypeString
  else if bool_decide (text = "number") then Some DataTypeNumber
  else if bool_decide (text = "boolean") then Some DataTypeBoolean
  else if bool_decide (text = "object") then Some DataTypeObject
  else if bool_decide (text = "array") then Some DataTypeArray
  else if bool_decide (text = "null") then Some DataTypeNull
  else None.

(** [VARCHAR(255)] *)
Definition fits_255 (text : string) : bool :=
  bool_decide (Utf8.length text <= 255)%nat.

Definition node_ids (t : Tables) : list Z := Go.ID <$> Go.config_nodes (tables t).

(** [INSERT INTO config_nodes ... RETURNING ...]; the sequence advances
    whether or not the row is accepted. *)
Definition CreateNode (req : CreateNodeRequest) (now : Z) (t : Tables)
  : result Go.ConfigNode :=
  let id := nodes_seq t in
  let node := Go.mkConfigNode id (cn_Name req) (cn_NodeType req) (cn_ParentID req)
                (cn_Description req) now now in
  let next := fun nodes =>
    mkTables (Go.mkDB nodes (Go.config_properties (tables t)))
             (nodes_seq t + 1) (props_seq t) in
  if fits_255 (cn_Name req) && node_type_ok (cn_NodeType req)
     && bool_decide (id ∉ node_ids t)
     && match cn_ParentID req with
        | None => true
        | Some p => bool_decide (p ∈ id :: node_ids t)
        end
  then Done node (next (Go.config_nodes (tables t) ++ [node]))
  else Failed (next (Go.config_nodes (tables t))).

(** [SET name = COALESCE($1, name), description = COALESCE($2,
    description), updated_at = $3] of one row. *)
Definition set_node (req : UpdateNodeRequest) (now : Z) (n : Go.ConfigNode)
  : Go.ConfigNode :=
  Go.mkConfigNode (Go.ID n) (default (Go.Name n) (un_Name req)) (Go.NodeType n)
    (Go.ParentID n) (default (Go.Description n) (un_Description req))
    (Go.CreatedAt n) now.

(** [UpdateNode]; [Done None] is the [nil, nil] of [sql.ErrNoRows]. *)
Definition UpdateNode (id : Z) (req : UpdateNodeRequest) (now : Z) (t : Tables)
  : result (option Go.ConfigNode) :=
  let nodes := Go.config_nodes (tables t) in
  let hit := filter (fun n => Go.ID n = id) nodes in
  if bool_decide (hit = []) then Done None t
  else if forallb (fun n => fits_255 (Go.Name (set_node req now n))) hit
  then Done (head (set_node req now <$> hit))
         (mkTables
            (Go.mkDB ((fun n => if bool_decide (Go.ID n = id)
                                then set_node req now n else n) <$> nodes)
                     (Go.config_properties (tables t)))
            (nodes_seq t) (props_seq t))
  else Failed t.

(** The rows of [config_properties] for one node and one key. *)
Definition at_key (nodeID : Z) (key : string) (p : Go.ConfigProperty) : Prop :=
  Go.NodeID p = nodeID /\ Go.Key p = key.

(** [INSERT INTO config_properties ... ON CONFLICT (node_id, key) DO
    UPDATE SET value, data_type, default_value, description, updated_at
    RETURNING ...]; the sequence advances in every case. *)
Definition CreateProperty (nodeID : Z) (req : CreatePropertyRequest) (t : Tables)
  : result Go.ConfigProperty :=
  let props := Go.config_properties (tables t) in
  let next := fun props =>
    mkTables (Go.mkDB (Go.config_nodes (tables t)) props)
             (nodes_seq t) (props_seq t + 1) in
  match data_type_of (cp_DataType req) with
  | None => Failed (next props)
  | Some dt =>
    let write := fun id =>
      Go.mkConfigProperty id nodeID (cp_Key req) (cp_Value req) dt
        (cp_DefaultValue req) (cp_Description req) in
    if fits_255 (cp_Key req)
    then
      match head (filter (at_key nodeID (cp_Key req)) props) with
      | Some old =>
        Done (write (Go.PropID old))
          (next ((fun p => if bool_decide (at_key nodeID (cp_Key req) p)
                           then write (Go.PropID p) else p) <$> props))
      | None =>
        if bool_decide (nodeID ∈ node_ids t)
           && bool_decide (props_seq t ∉ (Go.PropID <$> props))
        then Done (write (props_seq t)) (next (props ++ [write (props_seq t)]))
        else Failed (next props)
      end
    else Failed (next props)
  end.

(** The tables a call leaves. *)
Definition after {A : Type} (r : result A) : Tables :=
  match r with
  | Done _ t => t
  | Failed t => t
  end.

(** [SET value = COALESCE($1, value), data_type = COALESCE($2,
    data_type), default_value = COALESCE($3, default_value), description
    = COALESCE($4, description)] of one row, with the type the row then
    has. *)
Definition set_property (req : UpdatePropertyRequest) (dt : DataType)
    (p : Go.ConfigProperty) : Go.ConfigProperty :=
  Go.mkConfigProperty (Go.PropID p) (Go.NodeID p) (Go.Key p)
    (default (Go.Value p) (up_Value req)) dt
    (match up_DefaultValue req with
     | Some d => Some d
     | None => Go.DefaultValue p
     end)
    (default (Go.PropDescription p) (up_Description req)).

(** [UpdateProperty]; the [CHECK] on [data_type] is evaluated for the
    rows the statement updates, and [Done None] is the [nil, nil] of
    [sql.ErrNoRows]. *)
Definition UpdateProperty (id : Z) (req : UpdatePropertyRequest) (t : Tables)
  : result (option Go.ConfigProperty) :=
  let props := Go.config_properties (tables t) in
  let hit := filter (fun p => Go.PropID p = id) props in
  let write := fun dt : option DataType =>
    let set := fun p => set_property req (default (Go.PropDataType p) dt) p in
    Done (head (set <$> hit))
      (mkTables
         (Go.mkDB (Go.config_nodes (tables t))
                  ((fun p => if bool_decide (Go.PropID p = id) then set p else p) <$> props))
         (nodes_seq t) (props_seq t)) in
  if bool_decide (hit = []) then Done None t
  else
    match up_DataType req with
    | None => write None
    | Some text =>
      match data_type_of text with
      | Some dt => write (Some dt)
      | None => Failed t
      end
    end.

(** [DELETE FROM config_properties WHERE id = $1]; no row affected is the
    error "property not found". *)
Definition DeleteProperty (id : Z) (t : Tables) : result unit :=
  let props := Go.config_properties (tables t) in
  if bool_decide (filter (fun p => Go.PropID p = id) props = []) then Failed t
  else Done tt (mkTables
                  (Go.mkDB (Go.config_nodes (tables t))
                           (filter (fun p => Go.PropID p ≠ id) props))
                  (nodes_seq t) (props_seq t)).

End Repo.

(** ** The handlers of the row-per-property variant *)

Module Handlers.

Inductive Payload : Type :=
  | ErrorText (text : string)
  | NodeJSON (node : Go.ConfigNode)
  | PathJSON (path : list Go.ConfigNode)
  | PropertyJSON (property : Go.ConfigProperty)
  | ResolvedJSON (resolved : Go.ResolvedConfiguration)
  | NoContent.

(** [c.ShouldBindJSON(&req)] with [binding:"required"] on [Name] and
    [NodeType]: the decoded body, refused when a required field is empty;
    [None] going in is a body that does not decode. *)
Definition bind_CreateNode (body : option Repo.CreateNodeRequest)
  : option Repo.CreateNodeRequest :=
  match body with
  | Some req =>
    if bool_decide (Repo.cn_Name req = EmptyString)
       || bool_decide (Repo.cn_NodeType req = EmptyString)
    then None else Some req
  | None => None
  end.

(** [binding:"required"] on [Key], [Value] and [DataType]. *)
Definition bind_CreateProperty (body : option Repo.CreatePropertyRequest)
  : option Repo.CreatePropertyRequest :=
  match body with
  | Some req =>
    if bool_decide (Repo.cp_Key req = EmptyString)
       || bool_decide (Repo.cp_Value req = EmptyString)
       || bool_decide (Repo.cp_DataType req = EmptyString)
    then None else Some req
  | None => None
  end.

(** [CreateNode] *)
Definition CreateNode (body : option Repo.CreateNodeRequest) (now : Z) (t : Repo.Tables)
  : Z * Payload * Repo.Tables :=
  match bind_CreateNode body with
  | None => (400, ErrorText "binding", t)
  | Some req =>
    if negb (bool_decide (Repo.cn_NodeType req = "territory"))
       && negb (bool_decide (Repo.cn_NodeType req = "center"))
    then (400, ErrorText "nodeType must be 'territory' or 'center'", t)
    else
      let create :=
        match Repo.CreateNode req now t with
        | Repo.Done node t' => (201, NodeJSON node, t')
        | Repo.Failed t' => (500, ErrorText "Failed to create node", t')
        end in
      match Repo.cn_ParentID req with
      | Some p =>
        match Go.GetNodeByID p (Repo.tables t) with
        | None => (400, ErrorText "Parent node not found", t)
        | Some _ => create
        end
      | None => create
      end
  end.

(** [UpdateNode]; [id] is [None] when the path parameter is not a
    number. *)
Definition UpdateNode (id : option Z) (body : option Repo.UpdateNodeRequest) (now : Z)
    (t : Repo.Tables) : Z * Payload * Repo.Tables :=
  match id with
  | None => (400, ErrorText "Invalid node ID", t)
  | Some id =>
    match body with
    | None => (400, ErrorText "binding", t)
    | Some req =>
      match Repo.UpdateNode id req now t with
      | Repo.Failed t' => (500, ErrorText "Failed to update node", t')
      | Repo.Done None t' => (404, ErrorText "Node not found", t')
      | Repo.Done (Some node) t' => (200, NodeJSON node, t')
      end
    end
  end.

Section Handlers.
Variable json_Unmarshal : string -> option json.
Variable order_by_key : list Go.ConfigProperty -> list Go.ConfigProperty.

(** [CreateProperty] *)
Definition CreateProperty (nodeId : option Z) (body : option Repo.CreatePropertyRequest)
    (t : Repo.Tables) : Z * Payload * Repo.Tables :=
  match nodeId with
  | None => (400, ErrorText "Invalid node ID", t)
  | Some nodeID =>
    match bind_CreateProperty body with
    | None => (400, ErrorText "binding", t)
    | Some req =>
      match json_Unmarshal (Repo.cp_Value req) with
      | None => (400, ErrorText "Value must be valid JSON", t)
      | Some _ =>
        match Repo.data_type_of (Repo.cp_DataType req) with
        | None => (400, ErrorText "Invalid data type", t)
        | Some _ =>
          match Go.GetNodeByID nodeID (Repo.tables t) with
          | None => (404, ErrorText "Node not found", t)
          | Some _ =>
            match Repo.CreateProperty nodeID req t with
            | Repo.Done property t' => (201, PropertyJSON property, t')
            | Repo.Failed t' => (500, ErrorText "Failed to create property", t')
            end
          end
        end
      end
    end
  end.

(** [UpdateProperty] *)
Definition UpdateProperty (propertyId : option Z) (body : option Repo.UpdatePropertyRequest)
    (t : Repo.Tables) : Z * Payload * Repo.Tables :=
  match propertyId with
  | None => (400, ErrorText "Invalid property ID", t)
  | Some id =>
    match body with
    | None => (400, ErrorText "binding", t)
    | Some req =>
      let update :=
        match Repo.UpdateProperty id req t with
        | Repo.Failed t' => (500, ErrorText "Failed to update property", t')
        | Repo.Done None t' => (404, ErrorText "Property not found", t')
        | Repo.Done (Some property) t' => (200, PropertyJSON property, t')
        end in
      match Repo.up_Value req with
      | Some value =>
        match json_Unmarshal value with
        | None => (400, ErrorText "Value must be valid JSON", t)
        | Some _ => update
        end
      | None => update
      end
    end
  end.

(** [DeleteProperty] *)
Definition DeleteProperty (propertyId : option Z) (t : Repo.Tables)
  : Z * Payload * Repo.Tables :=
  match propertyId with
  | None => (400, ErrorText "Invalid property ID", t)
  | Some id =>
    match Repo.DeleteProperty id t with
    | Repo.Failed t' => (500, ErrorText "Failed to delete property", t')
    | Repo.Done _ t' => (204, NoContent, t')
    end
  end.

(** [GetNodePath] *)
Definition GetNodePath (fuel : nat) (nodeId : option Z) (t : Repo.Tables)
  : option (Z * Payload) :=
  match nodeId with
  | None => Some (400, ErrorText "Invalid node ID")
  | Some nodeID =>
    path ← Go.GetNodePath fuel nodeID (Repo.tables t);
    Some (200, PathJSON path)
  end.

(** [ResolveConfiguration] *)
Definition ResolveConfiguration (fuel : nat) (nodeId : option Z) (t : Repo.Tables)
  : option (Z * Payload) :=
  match nodeId with
  | None => Some (400, ErrorText "Invalid node ID")
  | Some nodeID =>
    outcome ← Go.ResolveConfiguration json_Unmarshal order_by_key fuel nodeID
                (Repo.tables t);
    match outcome with
    | inl _ => Some (500, ErrorText "Failed to resolve configuration")
    | inr resolved => Some (200, ResolvedJSON resolved)
    end
  end.
End Handlers.

End Handlers.

(** The fold of the row resolver, as maps: each node of the path puts the
    decoded values of its rows over what the nodes above it gave. *)
Definition go_fold (json_Unmarshal : string -> option json) (go : Go.DB)
    (path : list Go.ConfigNode) : gmap string json :=
  foldl (fun acc g => go_properties json_Unmarshal go (Go.ID g) ∪ acc) ∅ path.

(** The parent links of the node rows form a forest. *)
Definition go_ranked (rank : Z -> nat) (go : Go.DB) : Prop :=
  Forall (fun g => match Go.ParentID g with
                   | Some p => (rank p < rank (Go.ID g))%nat
                   | None => True
                   end) (Go.config_nodes go).

(** Two property tables that differ at most in the default values, the
    declared types and the descriptions of their rows. *)
Definition same_values (props props' : list Go.ConfigProperty) : Prop :=
  Forall2 (fun p p' => Go.NodeID p' = Go.NodeID p /\ Go.Key p' = Go.Key p
                       /\ Go.Value p' = Go.Value p) props props'.

(** Every id and every parent reference of the node rows was handed out
    by the sequence. *)
Definition go_issued (t : Repo.Tables) : Prop :=
  Forall (fun g => Go.ID g < Repo.nodes_seq t
                   /\ match Go.ParentID g with
                      | Some p => p < Repo.nodes_seq t
                      | None => True
                      end) (Go.config_nodes (Repo.tables t)).

(** A node row and what an update of the row [id] may have made of it:
    the same place in the forest, and the same row unless it is [id]. *)
Definition same_place (id : Z) (g g' : Go.ConfigNode) : Prop :=
  Go.ID g' = Go.ID g /\ Go.NodeType g' = Go.NodeType g
  /\ Go.ParentID g' = Go.ParentID g /\ Go.CreatedAt g' = Go.CreatedAt g
  /\ (Go.ID g ≠ id -> g' = g).

(** A property row and what an update of the row [id] may have made of
    it: the same id, node and key, and the same row unless it is [id]. *)
Definition same_slot (id : Z) (p p' : Go.ConfigProperty) : Prop :=
  Go.PropID p' = Go.PropID p /\ Go.NodeID p' = Go.NodeID p /\ Go.Key p' = Go.Key p
  /\ (Go.PropID p ≠ id -> p' = p).

(** What a resolution shows of the properties: the error, or the map. *)
Definition resolved_properties (outcome : option (string + Go.ResolvedConfiguration))
  : option (string + gmap string json) :=
  sum_map id Go.Properties <$> outcome.

(** Further requests and stores for the examples. *)
Module More.

Definition zero_body : CreateBody :=
  mkCreateBody (Some "Zero") (Some "center") (Some 0) None None.

(** A root of another owner beside the two nodes of [Sample.store]. *)
Definition Guest : ConfigNode :=
  Node.mk 3 "Guest" None "bob"
    (JObj {[ "region" := JStr "eu-west-1" ]}) (JObj ∅) "territory" 102 102.

Definition shared_store : Store :=
  mkStore [Sample.Production; Sample.EastCoast; Guest] 4.

Definition alice : User :=
  mkUser "alice" (Some "alice@example.org") (Some "Alice") None None (Some 10) (Some 10).

Definition alice_again : UpsertUser :=
  mkUpsertUser "alice" (Some (Some "a@example.org")) None (Some (Some "Liddell")) None
    None None.

(** The tables of [Sample.go_store] with their sequences. *)
Definition go_tables : Repo.Tables := Repo.mkTables Sample.go_store 3 4.

(** The property rows of [Sample.go_store] with other default values,
    declared types and descriptions. *)
Definition relabelled : list Go.ConfigProperty :=
  [ Go.mkConfigProperty 1 1 "api_timeout" "10" DataTypeString None "seconds";
    Go.mkConfigProperty 2 1 "cache_enabled" "true" DataTypeNull (Some "1") EmptyString;
    Go.mkConfigProperty 3 2 "api_timeout" "1" DataTypeArray (Some "10") EmptyString ].

(** A request that declares the JSON value [true] a string. *)
Definition timeout_request : Repo.CreatePropertyRequest :=
  Repo.mkCreatePropertyRequest "api_timeout" "true" "string" None EmptyString.

Definition timeout_request_boolean : Repo.CreatePropertyRequest :=
  Repo.mkCreatePropertyRequest "api_timeout" "true" "boolean" None EmptyString.


Definition revalue_request : Repo.UpdatePropertyRequest :=
  Repo.mkUpdatePropertyRequest (Some "10") None None None.

Definition rename_request : Repo.UpdateNodeRequest :=
  Repo.mkUpdateNodeRequest (Some "Trunk") None.

Definition branch_request : Repo.CreateNodeRequest :=
  Repo.mkCreateNodeRequest "Branch" "center" (Some 1) EmptyString.

End More.

(** * Properties *)

(** ** Writing to a JavaScript object *)

Section js_facts.
Implicit Types (o target : Js.object) (k j : string) (v source : json).

Lemma dollar_NAME_not_proto : dollar_NAME ≠ Js.proto_key.
Proof. discriminate. Qed.

Lemma own_set_prototype o v : Js.own (Js.set_prototype o v) = Js.own o.
Proof. by destruct v. Qed.

(** A write to any key but [__proto__] lands in the own properties. *)
Lemma own_set_plain o k v :
  k ≠ Js.proto_key -> Js.own (Js.set o k v) = <[k := v]> (Js.own o).
Proof.
  intros Hk. unfold Js.set. by rewrite (bool_decide_eq_false_2 _ Hk).
Qed.

Lemma own_set_lookup_ne o k v j :
  j ≠ k -> Js.own (Js.set o k v) !! j = Js.own o !! j.
Proof.
  intros Hj. unfold Js.set.
  destruct (_ && _); simpl.
  - by rewrite own_set_prototype.
  - by rewrite lookup_insert_ne.
Qed.

Lemma own_set_is_Some o k v j :
  is_Some (Js.own (Js.set o k v) !! j) -> j = k \/ is_Some (Js.own o !! j).
Proof.
  destruct (decide (j = k)) as [->|Hj]; [by left|].
  rewrite own_set_lookup_ne by done. by right.
Qed.

(** [Object.assign] on every key but [__proto__]: the source wins. *)
Lemma own_assign_lookup target source k :
  k ≠ Js.proto_key ->
  Js.own (Js.assign target source) !! k
  = (Js.entries source ∪ Js.own target) !! k.
Proof.
  intros Hk. unfold Js.assign.
  apply (map_fold_weak_ind
           (fun r (m : gmap string json) => Js.own r !! k = (m ∪ Js.own target) !! k)).
  - by rewrite (left_id_L ∅ (∪)).
  - intros i x m r _ IH.
    rewrite <- insert_union_l.
    destruct (decide (k = i)) as [<-|Hne].
    + rewrite own_set_plain by done. by rewrite !lookup_insert_eq.
    + rewrite own_set_lookup_ne by done. by rewrite lookup_insert_ne.
Qed.

(** [Object.assign] invents no key. *)
Lemma own_assign_is_Some target source j :
  is_Some (Js.own (Js.assign target source) !! j) ->
  is_Some (Js.entries source !! j) \/ is_Some (Js.own target !! j).
Proof.
  unfold Js.assign.
  apply (map_fold_weak_ind
           (fun r (m : gmap string json) =>
              is_Some (Js.own r !! j) -> is_Some (m !! j) \/ is_Some (Js.own target !! j))).
  - by right.
  - intros i x m r _ IH Hj.
    destruct (own_set_is_Some _ _ _ _ Hj) as [->|Hr].
    + left. rewrite lookup_insert_eq. by eexists.
    + destruct (IH Hr) as [Hm|Ht]; [left|by right].
      destruct (decide (i = j)) as [->|Hne].
      * rewrite lookup_insert_eq. by eexists.
      * by rewrite lookup_insert_ne.
Qed.
End js_facts.

(** ** Climbing the parent links *)

Section walk_facts.
Context {N : Type}.
Variable lookup : Z -> option N.
Variable parent : N -> option Z.
Variable ident : N -> Z.
Hypothesis lookup_ident : forall i n, lookup i = Some n -> ident n = i.

Local Abbreviation walk := (walk lookup parent).
Local Abbreviation linked := (linked parent ident).
Local Abbreviation starts_at_boundary := (starts_at_boundary lookup parent).
Local Abbreviation walk_inv := (walk_inv parent ident).

Lemma walk_grows fuel current acc path :
  walk fuel current acc = Some path -> exists climbed, path = climbed ++ acc.
Proof.
  revert current acc. induction fuel as [|fuel IH]; intros [i|] acc; simpl;
    try (intros [= <-]; by exists []).
  - destruct (lookup i); [done|]. intros [= <-]. by exists [].
  - destruct (lookup i) as [node|]; [|intros [= <-]; by exists []].
    intros (climbed & ->)%IH. exists (climbed ++ [node]). by rewrite <- app_assoc.
Qed.

Lemma walk_shape fuel current acc path :
  walk_inv current acc ->
  walk fuel current acc = Some path ->
  linked path /\ starts_at_boundary path.
Proof.
  revert current acc. induction fuel as [|fuel IH]; intros [i|] acc [Hl Hh]; simpl.
  - destruct (lookup i) eqn:Hi; [done|]. intros [= <-]. split; [done|].
    destruct acc as [|b acc]; simpl; [done|]. by rewrite Hh.
  - intros [= <-]. split; [done|]. destruct acc as [|b acc]; simpl; [done|]. by rewrite Hh.
  - destruct (lookup i) as [node|] eqn:Hi.
    + apply IH. split; [|done]. destruct acc as [|b acc]; simpl; [done|].
      split; [|done]. by rewrite (lookup_ident _ _ Hi).
    + intros [= <-]. split; [done|]. destruct acc as [|b acc]; simpl; [done|]. by rewrite Hh.
  - intros [= <-]. split; [done|]. destruct acc as [|b acc]; simpl; [done|]. by rewrite Hh.
Qed.

(** The node the walk starts from ends up last. *)
Lemma walk_last fuel i node path :
  lookup i = Some node ->
  walk fuel (Some i) [] = Some path ->
  last path = Some node.
Proof.
  intros Hi. destruct fuel as [|fuel]; simpl; rewrite Hi; [done|].
  intros (climbed & ->)%walk_grows. apply last_snoc.
Qed.

(** More fuel does not change a result. *)
Lemma walk_fuel_mono fuel fuel' current acc path :
  (fuel <= fuel')%nat ->
  walk fuel current acc = Some path -> walk fuel' current acc = Some path.
Proof.
  revert fuel' current acc.
  induction fuel as [|fuel IH]; intros fuel' [i|] acc Hle; simpl.
  - destruct (lookup i) eqn:Hi; [done|]. intros [= <-].
    destruct fuel'; simpl; by rewrite Hi.
  - intros [= <-]. by destruct fuel'.
  - destruct fuel' as [|fuel']; [lia|]. simpl.
    destruct (lookup i); [|done]. apply IH. lia.
  - intros [= <-]. by destruct fuel'.
Qed.

(** Every element of a returned path was found under its own id. *)
Lemma walk_in_store fuel current acc path :
  Forall (fun n => lookup (ident n) = Some n) acc ->
  walk fuel current acc = Some path ->
  Forall (fun n => lookup (ident n) = Some n) path.
Proof.
  revert current acc. induction fuel as [|fuel IH]; intros [i|] acc Hacc; simpl;
    try (by intros [= <-]).
  - destruct (lookup i); [done|]. by intros [= <-].
  - destruct (lookup i) as [node|] eqn:Hi; [|by intros [= <-]].
    apply IH. constructor; [|done]. by rewrite (lookup_ident _ _ Hi).
Qed.

(** Following [k] parent links costs the walk [k] iterations. *)
Lemma walk_climb k i j fuel acc :
  ancestor lookup parent k i = Some j ->
  walk fuel (Some i) acc = None
  \/ exists acc', (k <= fuel)%nat /\ walk fuel (Some i) acc = walk (fuel - k) (Some j) acc'.
Proof.
  revert i fuel acc. induction k as [|k IH]; intros i fuel acc; simpl.
  - intros [= ->]. right. exists acc. split; [lia|]. by rewrite Nat.sub_0_r.
  - destruct (lookup i) as [node|] eqn:Hi; [|done]. simpl.
    destruct (parent node) as [p|] eqn:Hp; [|done]. simpl. intros Hk.
    destruct fuel as [|fuel]; simpl; rewrite Hi; [by left|]. rewrite Hp.
    destruct (IH p fuel (node :: acc) Hk) as [Hnone|(acc' & Hle & Hwalk)]; [by left|].
    right. exists acc'. split; [lia|done].
Qed.

(** A walk that comes back to an id it has left never returns. *)
Lemma walk_cycle k c fuel acc :
  ancestor lookup parent (S k) c = Some c -> walk fuel (Some c) acc = None.
Proof.
  intros Hcycle. revert acc. induction (lt_wf fuel) as [fuel _ IH]. intros acc.
  destruct (walk_climb (S k) c c fuel acc Hcycle) as [Hnone|(acc' & Hle & ->)]; [done|].
  apply IH. lia.
Qed.

Lemma walk_into_cycle k m i c fuel acc :
  ancestor lookup parent k i = Some c ->
  ancestor lookup parent (S m) c = Some c ->
  walk fuel (Some i) acc = None.
Proof.
  intros Hreach Hcycle.
  destruct (walk_climb k i c fuel acc Hreach) as [Hnone|(acc' & Hle & ->)]; [done|].
  by apply (walk_cycle m).
Qed.

(** A walk returns exactly when the parent links it follows come to an
    end: [k] iterations are enough when there is no [k]-th ancestor. *)
Lemma walk_ends k i fuel acc :
  ancestor lookup parent k i = None -> (k <= fuel)%nat ->
  is_Some (walk fuel (Some i) acc).
Proof.
  revert i fuel acc. induction k as [|k IH]; intros i fuel acc; simpl; [done|].
  intros Hend Hle. destruct fuel as [|fuel]; [lia|]. simpl.
  destruct (lookup i) as [node|]; [|by eexists]. simpl in Hend.
  destruct (parent node) as [p|]; [|destruct fuel; by eexists]. simpl in Hend.
  apply IH; [done|lia].
Qed.

Lemma walk_returned_ends fuel i acc path :
  walk fuel (Some i) acc = Some path ->
  exists k, (k <= S fuel)%nat /\ ancestor lookup parent k i = None.
Proof.
  revert i acc. induction fuel as [|fuel IH]; intros i acc; simpl.
  - destruct (lookup i) eqn:Hi; [done|]. intros _. exists 1%nat.
    split; [lia|]. simpl. by rewrite Hi.
  - destruct (lookup i) as [node|] eqn:Hi.
    + destruct (parent node) as [p|] eqn:Hp.
      * intros (k & Hle & Hk)%IH. exists (S k). split; [lia|]. simpl.
        rewrite Hi. simpl. by rewrite Hp.
      * intros _. exists 1%nat. split; [lia|]. simpl. rewrite Hi. simpl. by rewrite Hp.
    + intros _. exists 1%nat. split; [lia|]. simpl. by rewrite Hi.
Qed.

(** On a forest the walk returns, after at most [rank + 1] lookups. *)
Section ranked.
Variable rank : Z -> nat.
Hypothesis rank_decreases :
  forall i n p, lookup i = Some n -> parent n = Some p -> (rank p < rank i)%nat.

Lemma walk_terminates fuel current acc :
  match current with Some i => (rank i < fuel)%nat | None => True end ->
  is_Some (walk fuel current acc).
Proof.
  revert current acc. induction fuel as [|fuel IH]; intros [i|] acc Hlt; simpl;
    try by eexists.
  - lia.
  - destruct (lookup i) as [node|] eqn:Hi; [|by eexists].
    apply IH. destruct (parent node) as [p|] eqn:Hp; [|done].
    specialize (rank_decreases _ _ _ Hi Hp). lia.
Qed.
End ranked.
End walk_facts.

(** ** The store seen through [getConfigNode] *)

Lemma getConfigNode_Some i db node :
  getConfigNode i db = Some node ->
  Node.id node = i /\ node ∈ config_nodes db.
Proof.
  intros Hhead%head_Some_elem_of.
  by apply list_elem_of_filter in Hhead.
Qed.

Lemma getConfigNode_None i db :
  getConfigNode i db = None <-> i ∉ ids (config_nodes db).
Proof.
  unfold getConfigNode, Sql.select_by_id, ids. rewrite head_None. split.
  - intros Hnil (n & -> & Hn)%list_elem_of_fmap.
    by apply (filter_nil_not_elem_of _ _ n Hnil).
  - intros Hnot. destruct (filter _ _) as [|n rest] eqn:Hf; [done|].
    assert (n ∈ filter (fun n => Node.id n = i) (config_nodes db)) as Hin
      by (rewrite Hf; left).
    apply list_elem_of_filter in Hin as [<- Hin].
    destruct Hnot. by apply list_elem_of_fmap_2.
Qed.

Lemma getConfigNode_is_Some i db :
  is_Some (getConfigNode i db) <-> i ∈ ids (config_nodes db).
Proof.
  rewrite <- not_eq_None_Some, getConfigNode_None.
  split; [apply dec_stable | by intros ? ?].
Qed.

Lemma path_loop_walk fuel db current acc :
  path_loop fuel db current acc
  = walk (fun i => getConfigNode i db) Node.parentId fuel current acc.
Proof.
  revert current acc. induction fuel as [|fuel IH]; intros [i|] acc; simpl; try done.
  destruct (getConfigNode i db); [apply IH|done].
Qed.

Lemma ranked_decreases rank db i n p :
  ranked rank (config_nodes db) ->
  getConfigNode i db = Some n -> Node.parentId n = Some p ->
  (rank p < rank i)%nat.
Proof.
  intros Hr [<- Hin]%getConfigNode_Some Hp.
  unfold ranked in Hr. rewrite Forall_forall in Hr.
  specialize (Hr _ Hin). by rewrite Hp in Hr.
Qed.

Lemma getConfigNodePath_returns rank db n :
  ranked rank (config_nodes db) ->
  exists path, forall fuel, (rank n < fuel)%nat -> getConfigNodePath fuel n db = Some path.
Proof.
  intros Hr. unfold getConfigNodePath.
  destruct (walk_terminates (fun i => getConfigNode i db) Node.parentId rank
              (fun i n p => ranked_decreases rank db i n p Hr)
              (S (rank n)) (Some n) []) as [path Hpath]; [simpl; lia|].
  exists path. intros fuel Hlt. rewrite path_loop_walk.
  apply (walk_fuel_mono _ _ (S (rank n))); [lia|done].
Qed.

(** The walk returns when the parent links followed from [n] come to an
    end, and only then. *)
Lemma getConfigNodePath_ends db n k :
  ancestor (fun i => getConfigNode i db) Node.parentId k n = None ->
  exists path, forall fuel, (k <= fuel)%nat -> getConfigNodePath fuel n db = Some path.
Proof.
  intros Hend. unfold getConfigNodePath.
  destruct (walk_ends (fun i => getConfigNode i db) Node.parentId k n k [] Hend)
    as [path Hpath]; [done|].
  exists path. intros fuel Hle. rewrite path_loop_walk.
  by apply (walk_fuel_mono _ _ k).
Qed.

Lemma getConfigNodePath_returned_ends fuel n db path :
  getConfigNodePath fuel n db = Some path ->
  exists k, (k <= S fuel)%nat
            /\ ancestor (fun i => getConfigNode i db) Node.parentId k n = None.
Proof.
  unfold getConfigNodePath. rewrite path_loop_walk. apply walk_returned_ends.
Qed.

Lemma getConfigNodePath_last fuel n db node path :
  getConfigNode n db = Some node ->
  getConfigNodePath fuel n db = Some path ->
  last path = Some node.
Proof.
  unfold getConfigNodePath. rewrite path_loop_walk. intros Hn.
  by apply (walk_last (fun i => getConfigNode i db)).
Qed.

(** C2 (amended): for a node [n] of the store, whatever the walk
    returns is not empty, ends with the record of [n], consists of rows
    of the store, each found under its own id, links every element to the
    one before it through [parentId], and starts at a root or at a node
    whose parent is missing from the store.  The walk returns exactly
    when the parent links followed from [n] come to an end, with any fuel
    from the number of links on; so it returns on every store whose
    parent links form a forest, with any fuel above the rank of [n]. *)
Theorem getConfigNodePath_shape db n node :
  getConfigNode n db = Some node ->
  (forall fuel path,
     getConfigNodePath fuel n db = Some path ->
     path ≠ []
     /\ last path = Some node
     /\ Forall (fun r => getConfigNode (Node.id r) db = Some r) path
     /\ linked Node.parentId Node.id path
     /\ starts_at_boundary (fun i => getConfigNode i db) Node.parentId path
     /\ exists k, ancestor (fun i => getConfigNode i db) Node.parentId k n = None)
  /\ (forall k, ancestor (fun i => getConfigNode i db) Node.parentId k n = None ->
        exists path, forall fuel, (k <= fuel)%nat ->
                                  getConfigNodePath fuel n db = Some path)
  /\ (forall rank, ranked rank (config_nodes db) ->
        exists path, forall fuel, (rank n < fuel)%nat ->
                                  getConfigNodePath fuel n db = Some path).
Proof.
  intros Hn. split; [|split; [intros k; apply getConfigNodePath_ends
                             |intros rank Hr; by apply getConfigNodePath_returns]].
  intros fuel path Hpath.
  pose proof (getConfigNodePath_last _ _ _ _ _ Hn Hpath) as Hlast.
  split; [by apply last_is_Some; eexists|]. split; [done|].
  assert (forall i m, getConfigNode i db = Some m -> Node.id m = i) as Hident
    by (intros i m Hm; by apply getConfigNode_Some in Hm as [? _]).
  destruct (getConfigNodePath_returned_ends _ _ _ _ Hpath) as (k & _ & Hend).
  unfold getConfigNodePath in Hpath. rewrite path_loop_walk in Hpath. split.
  - by apply (walk_in_store (fun i => getConfigNode i db) Node.parentId Node.id Hident
                fuel (Some n) []).
  - destruct (walk_shape (fun i => getConfigNode i db) Node.parentId Node.id Hident
                fuel (Some n) [] path) as [Hlinked Hstart]; [done|done|].
    split; [done|]. split; [done|]. by exists k.
Qed.

Lemma getConfigNodePath_shape_witness :
  (forall fuel path,
     getConfigNodePath fuel 2 Sample.store = Some path ->
     path ≠ []
     /\ last path = Some Sample.EastCoast
     /\ Forall (fun r => getConfigNode (Node.id r) Sample.store = Some r) path
     /\ linked Node.parentId Node.id path
     /\ starts_at_boundary (fun i => getConfigNode i Sample.store) Node.parentId path
     /\ exists k, ancestor (fun i => getConfigNode i Sample.store) Node.parentId k 2 = None)
  /\ (exists path, forall fuel, (2 <= fuel)%nat ->
                                getConfigNodePath fuel 2 Sample.store = Some path)
  /\ exists path, forall fuel, (Sample.rank 2 < fuel)%nat ->
                               getConfigNodePath fuel 2 Sample.store = Some path.
Proof.
  destruct (getConfigNodePath_shape Sample.store 2 Sample.EastCoast)
    as (Hshape & Hends & Hreturns).
  - vm_compute. reflexivity.
  - split; [exact Hshape|]. split.
    + apply (Hends 2%nat). vm_compute. reflexivity.
    + apply (Hreturns Sample.rank). repeat constructor; simpl; vm_compute; lia.
Defined.

(** C2, as stated, fails: a node of a store whose parent links form a
    cycle exists, and no path is returned for it. *)
Lemma path_of_cyclic_node_not_returned :
  is_Some (getConfigNode 2 Sample.cyclic_store)
  /\ forall fuel, getConfigNodePath fuel 2 Sample.cyclic_store = None.
Proof.
  split; [vm_compute; by eexists|]. intros fuel.
  unfold getConfigNodePath. rewrite path_loop_walk.
  apply (walk_cycle (fun i => getConfigNode i Sample.cyclic_store) Node.parentId 1 2).
  vm_compute. reflexivity.
Qed.

(** ** The inheritance merge *)

Section merge_facts.
Implicit Types (o : Js.object) (m : gmap string json) (k : string).

Lemma own_apply_node_lookup o node k :
  k ≠ dollar_NAME -> k ≠ Js.proto_key ->
  Js.own (apply_node o node) !! k = spec_step (Js.own o) node !! k.
Proof.
  intros Hname Hproto. unfold apply_node, spec_step, spec_merge.
  rewrite own_set_lookup_ne by done.
  rewrite own_assign_lookup by done. rewrite !lookup_union.
  rewrite own_assign_lookup by done. by rewrite lookup_union.
Qed.

Lemma spec_step_agree m m' node k :
  m !! k = m' !! k -> spec_step m node !! k = spec_step m' node !! k.
Proof. intros Heq. unfold spec_step, spec_merge. by rewrite !lookup_union, Heq. Qed.

Lemma fold_apply_node_agree path o m k :
  k ≠ dollar_NAME -> k ≠ Js.proto_key ->
  Js.own o !! k = m !! k ->
  Js.own (foldl apply_node o path) !! k = foldl spec_step m path !! k.
Proof.
  intros Hname Hproto. revert o m.
  induction path as [|node path IH]; intros o m Heq; simpl; [done|].
  apply IH. rewrite own_apply_node_lookup by done. by apply spec_step_agree.
Qed.

Lemma spec_step_lookup m node k :
  spec_step m node !! k
  = match node_value node k with Some v => Some v | None => m !! k end.
Proof.
  unfold spec_step, spec_merge, node_value. rewrite !lookup_union.
  by destruct (Js.entries (Node.properties node) !! k),
              (Js.entries (Node.defaults node) !! k), (m !! k).
Qed.

(** Nodes that say nothing about a key leave it as it is. *)
Lemma spec_fold_silent path m k :
  Forall (fun d => node_value d k = None) path ->
  foldl spec_step m path !! k = m !! k.
Proof.
  revert m. induction path as [|d path IH]; intros m Hs; simpl; [done|].
  inversion_clear Hs as [|? ? Hd Hrest].
  rewrite IH by done. by rewrite spec_step_lookup, Hd.
Qed.

(** The deepest node that mentions a key decides it. *)
Lemma spec_resolve_deepest before node after k v :
  node_value node k = Some v ->
  Forall (fun d => node_value d k = None) after ->
  spec_resolve (before ++ node :: after) !! k = Some v.
Proof.
  intros Hv Hs. unfold spec_resolve. rewrite foldl_app. simpl.
  rewrite spec_fold_silent by done. by rewrite spec_step_lookup, Hv.
Qed.

Lemma own_apply_node_is_Some o node k :
  is_Some (Js.own (apply_node o node) !! k) ->
  k = dollar_NAME
  \/ is_Some (Js.entries (Node.defaults node) !! k)
  \/ is_Some (Js.entries (Node.properties node) !! k)
  \/ is_Some (Js.own o !! k).
Proof.
  unfold apply_node. intros [->|Hk]%own_set_is_Some; [by left|right].
  apply own_assign_is_Some in Hk as [Hk|Hk]; [by right; left|].
  apply own_assign_is_Some in Hk as [Hk|Hk]; [by left|by right; right].
Qed.

Lemma fold_apply_node_is_Some path o k :
  is_Some (Js.own (foldl apply_node o path) !! k) ->
  k = dollar_NAME
  \/ (exists node, node ∈ path
        /\ (is_Some (Js.entries (Node.defaults node) !! k)
            \/ is_Some (Js.entries (Node.properties node) !! k)))
  \/ is_Some (Js.own o !! k).
Proof.
  revert o. induction path as [|node path IH]; intros o; simpl; [by right; right|].
  intros [->|[(d & Hd & Hk)|Hk]]%IH; [by left| |].
  - right; left. exists d. split; [by right|done].
  - apply own_apply_node_is_Some in Hk as [->|[Hk|[Hk|Hk]]];
      [by left| | |by right; right]; right; left; exists node; (split; [by left|]); auto.
Qed.

Lemma own_apply_node_NAME o node :
  Js.own (apply_node o node) !! dollar_NAME = Some (JStr (Node.name node)).
Proof.
  unfold apply_node. rewrite own_set_plain by apply dollar_NAME_not_proto.
  apply lookup_insert_eq.
Qed.
End merge_facts.

Lemma resolveConfiguration_unfold fuel n db path :
  getConfigNodePath fuel n db = Some path ->
  resolveConfiguration fuel n db = Some (foldl apply_node Js.empty path).
Proof. intros Hpath. unfold resolveConfiguration. by rewrite Hpath. Qed.

(** The fold of the specification and the resolver, on a returned path. *)
Lemma resolveConfiguration_of_path fuel n db path :
  getConfigNodePath fuel n db = Some path ->
  resolveConfiguration fuel n db = Some (foldl apply_node Js.empty path)
  /\ forall k, k ≠ dollar_NAME -> k ≠ Js.proto_key ->
       Js.own (foldl apply_node Js.empty path) !! k = spec_resolve path !! k.
Proof.
  intros Hpath. split; [by apply resolveConfiguration_unfold|].
  intros k Hname Hproto. by apply fold_apply_node_agree.
Qed.

(** C1 (amended): on a store whose parent links form a forest, the path
    of [n] and its resolved configuration are returned (with any fuel
    above the rank of [n]) and, on every key other than [$NAME] and
    [__proto__], the resolved configuration is the fold of the
    specification over that path (defaults, then properties, root to leaf,
    every merged key overwriting); so for such a key the deepest node of
    the path that carries it decides its value, by its property if it has
    one and by its default otherwise. *)
Theorem resolveConfiguration_fold rank db n :
  ranked rank (config_nodes db) ->
  exists path resolved,
    (forall fuel, (rank n < fuel)%nat ->
       getConfigNodePath fuel n db = Some path
       /\ resolveConfiguration fuel n db = Some resolved)
    /\ forall k, k ≠ dollar_NAME -> k ≠ Js.proto_key ->
         Js.own resolved !! k = spec_resolve path !! k
         /\ forall before node after v,
              path = before ++ node :: after ->
              node_value node k = Some v ->
              Forall (fun d => node_value d k = None) after ->
              Js.own resolved !! k = Some v.
Proof.
  intros Hr. destruct (getConfigNodePath_returns rank db n Hr) as [path Hpath].
  exists path, (foldl apply_node Js.empty path). split.
  - intros fuel Hfuel. split; [by apply Hpath|].
    by apply resolveConfiguration_unfold, Hpath.
  - intros k Hname Hproto.
    assert (Js.own (foldl apply_node Js.empty path) !! k = spec_resolve path !! k) as Heq
      by by apply fold_apply_node_agree.
    split; [done|]. intros before node after v -> Hv Hs.
    rewrite Heq. by apply spec_resolve_deepest.
Qed.

Lemma resolveConfiguration_fold_witness :
  exists path resolved,
    (forall fuel, (Sample.rank 2 < fuel)%nat ->
       getConfigNodePath fuel 2 Sample.store = Some path
       /\ resolveConfiguration fuel 2 Sample.store = Some resolved)
    /\ forall k, k ≠ dollar_NAME -> k ≠ Js.proto_key ->
         Js.own resolved !! k = spec_resolve path !! k
         /\ forall before node after v,
              path = before ++ node :: after ->
              node_value node k = Some v ->
              Forall (fun d => node_value d k = None) after ->
              Js.own resolved !! k = Some v.
Proof.
  apply (resolveConfiguration_fold Sample.rank Sample.store 2).
  repeat constructor; simpl; vm_compute; lia.
Defined.

(** C1, as stated, fails: the resolver adds the key [$NAME], which the
    fold of the specification does not produce, and a property stored
    under [__proto__] never becomes a key of the result. *)
Lemma resolveConfiguration_is_not_spec_resolve :
  (Js.own <$> resolveConfiguration 1 1 Sample.bare_store
   ≠ spec_resolve <$> getConfigNodePath 1 1 Sample.bare_store)
  /\ (Js.own <$> resolveConfiguration 1 1 Sample.proto_store
      ≠ spec_resolve <$> getConfigNodePath 1 1 Sample.proto_store).
Proof.
  split; intros Heq.
  - assert ((Js.own <$> resolveConfiguration 1 1 Sample.bare_store)
              ≫= (fun m => m !! dollar_NAME)
            = Some (JStr "Bare")) as Hl by (vm_compute; reflexivity).
    rewrite Heq in Hl. vm_compute in Hl. discriminate Hl.
  - assert ((spec_resolve <$> getConfigNodePath 1 1 Sample.proto_store)
              ≫= (fun m => m !! Js.proto_key)
            = Some (JNum 1%float)) as Hr by (vm_compute; reflexivity).
    rewrite <- Heq in Hr. vm_compute in Hr. discriminate Hr.
Qed.

(** The resolver returns exactly when the walk does, with the same
    fuel. *)
Lemma resolveConfiguration_returns fuel n db :
  is_Some (resolveConfiguration fuel n db) <-> is_Some (getConfigNodePath fuel n db).
Proof.
  unfold resolveConfiguration. destruct (getConfigNodePath fuel n db); simpl.
  - split; by eexists.
  - split; by intros [? ?].
Qed.

Lemma resolveConfiguration_on_forest rank db n fuel :
  ranked rank (config_nodes db) -> (rank n < fuel)%nat ->
  is_Some (resolveConfiguration fuel n db).
Proof.
  intros Hr Hfuel. apply resolveConfiguration_returns.
  destruct (getConfigNodePath_returns rank db n Hr) as [path Hpath].
  rewrite (Hpath fuel Hfuel). by eexists.
Qed.

Lemma resolveConfiguration_ends db n k fuel :
  ancestor (fun i => getConfigNode i db) Node.parentId k n = None -> (k <= fuel)%nat ->
  is_Some (resolveConfiguration fuel n db).
Proof.
  intros Hend Hfuel. apply resolveConfiguration_returns.
  destruct (getConfigNodePath_ends db n k Hend) as [path Hpath].
  rewrite (Hpath fuel Hfuel). by eexists.
Qed.

(** C8 (amended): for a node [n] that exists in the store, a resolved
    configuration that is returned for [n] comes with the path of [n],
    and every key of the result other than [$NAME] is a key of the
    defaults or of the properties of some node on the path; a key other
    than [$NAME] that no node of the path carries is absent from the
    result.  The resolver returns whenever the walk does, which is when
    the parent links followed from [n] come to an end; so it returns on
    every store whose parent links form a forest. *)
Theorem resolved_keys_come_from_path db n node :
  getConfigNode n db = Some node ->
  (forall fuel resolved,
     resolveConfiguration fuel n db = Some resolved ->
     exists path,
       getConfigNodePath fuel n db = Some path
       /\ (forall k, is_Some (Js.own resolved !! k) -> k ≠ dollar_NAME ->
             exists node, node ∈ path
               /\ (is_Some (Js.entries (Node.defaults node) !! k)
                   \/ is_Some (Js.entries (Node.properties node) !! k)))
       /\ (forall k, k ≠ dollar_NAME ->
             Forall (fun node => Js.entries (Node.defaults node) !! k = None
                                 /\ Js.entries (Node.properties node) !! k = None) path ->
             Js.own resolved !! k = None))
  /\ (forall fuel, is_Some (getConfigNodePath fuel n db) ->
                   is_Some (resolveConfiguration fuel n db))
  /\ (forall links fuel,
        ancestor (fun i => getConfigNode i db) Node.parentId links n = None ->
        (links <= fuel)%nat ->
        is_Some (resolveConfiguration fuel n db))
  /\ (forall rank fuel, ranked rank (config_nodes db) -> (rank n < fuel)%nat ->
                        is_Some (resolveConfiguration fuel n db)).
Proof.
  intros _.
  split; [|split; [intros fuel; apply resolveConfiguration_returns
                  |split; [intros links fuel; apply resolveConfiguration_ends
                          |intros rank fuel; apply resolveConfiguration_on_forest]]].
  intros fuel resolved Hres. unfold resolveConfiguration in Hres.
  destruct (getConfigNodePath fuel n db) as [path|]; [|done].
  simpl in Hres. injection Hres as <-. exists path. split; [done|].
  assert (forall k, is_Some (Js.own (foldl apply_node Js.empty path) !! k) ->
            k ≠ dollar_NAME ->
            exists node, node ∈ path
              /\ (is_Some (Js.entries (Node.defaults node) !! k)
                  \/ is_Some (Js.entries (Node.properties node) !! k))) as Hkeys.
  { intros k [?|[?|Hempty]]%fold_apply_node_is_Some Hname; [done|done|].
    simpl in Hempty. rewrite lookup_empty in Hempty. by destruct Hempty. }
  split; [done|]. intros k Hname Hnone.
  apply eq_None_not_Some. intros (node' & Hin & Hk)%Hkeys; [|done].
  rewrite Forall_forall in Hnone. destruct (Hnone _ Hin) as [Hd Hp].
  rewrite Hd, Hp in Hk. destruct Hk as [[? [=]]|[? [=]]].
Qed.

Lemma resolved_keys_come_from_path_witness :
  exists resolved path,
    resolveConfiguration 3 2 Sample.store = Some resolved
    /\ getConfigNodePath 3 2 Sample.store = Some path
    /\ (forall k, is_Some (Js.own resolved !! k) -> k ≠ dollar_NAME ->
          exists node, node ∈ path
            /\ (is_Some (Js.entries (Node.defaults node) !! k)
                \/ is_Some (Js.entries (Node.properties node) !! k))).
Proof.
  destruct (resolved_keys_come_from_path Sample.store 2 Sample.EastCoast)
    as (Hkeys & _ & Hends & _).
  - vm_compute. reflexivity.
  - destruct (Hends 2%nat 3%nat) as [resolved Hres].
    + vm_compute. reflexivity.
    + lia.
    + destruct (Hkeys 3%nat resolved Hres) as (path & Hpath & Hfrom & _).
      exists resolved, path. split; [exact Hres|]. split; [exact Hpath|exact Hfrom].
Defined.

(** C8, as stated, fails: the result for a node without any default or
    property has the key [$NAME], which no node of its path carries. *)
Lemma resolved_key_from_no_node :
  exists resolved,
    resolveConfiguration 1 1 Sample.bare_store = Some resolved
    /\ getConfigNodePath 1 1 Sample.bare_store = Some [Sample.Bare]
    /\ is_Some (Js.own resolved !! dollar_NAME)
    /\ Js.entries (Node.defaults Sample.Bare) !! dollar_NAME = None
    /\ Js.entries (Node.properties Sample.Bare) !! dollar_NAME = None.
Proof.
  eexists. split; [vm_compute; reflexivity|].
  split; [vm_compute; reflexivity|].
  split; [|split; vm_compute; reflexivity].
  vm_compute. by eexists.
Qed.

(** C10: for a node [n] that exists in the store, whatever its parent
    links look like, a resolved configuration that is returned for [n]
    comes with the path of [n], which ends with the record of [n], and
    binds [$NAME] to the name of that record, whatever the nodes of the
    path store under [$NAME].  The resolver returns whenever the walk
    does, which is when the parent links followed from [n] come to an
    end; so it returns on every store whose parent links form a
    forest. *)
Theorem resolved_NAME_is_node_name db n node :
  getConfigNode n db = Some node ->
  (forall fuel resolved,
     resolveConfiguration fuel n db = Some resolved ->
     exists path,
       getConfigNodePath fuel n db = Some path
       /\ last path = Some node
       /\ Js.own resolved !! dollar_NAME = Some (JStr (Node.name node)))
  /\ (forall fuel, is_Some (getConfigNodePath fuel n db) ->
                   is_Some (resolveConfiguration fuel n db))
  /\ (forall links fuel,
        ancestor (fun i => getConfigNode i db) Node.parentId links n = None ->
        (links <= fuel)%nat ->
        is_Some (resolveConfiguration fuel n db))
  /\ (forall rank fuel, ranked rank (config_nodes db) -> (rank n < fuel)%nat ->
                        is_Some (resolveConfiguration fuel n db)).
Proof.
  intros Hn.
  split; [|split; [intros fuel; apply resolveConfiguration_returns
                  |split; [intros links fuel; apply resolveConfiguration_ends
                          |intros rank fuel; apply resolveConfiguration_on_forest]]].
  intros fuel resolved Hres. unfold resolveConfiguration in Hres.
  destruct (getConfigNodePath fuel n db) as [path|] eqn:Hpath; [|done].
  simpl in Hres. injection Hres as <-. exists path. split; [done|].
  pose proof (getConfigNodePath_last _ _ _ _ _ Hn Hpath) as Hlast.
  split; [done|]. apply last_Some in Hlast as [init ->].
  rewrite foldl_snoc. apply own_apply_node_NAME.
Qed.

Lemma resolved_NAME_is_node_name_witness :
  exists resolved,
    resolveConfiguration 3 2 Sample.store = Some resolved
    /\ Js.own resolved !! dollar_NAME = Some (JStr (Node.name Sample.EastCoast)).
Proof.
  destruct (resolved_NAME_is_node_name Sample.store 2 Sample.EastCoast)
    as (Hname & _ & _ & Hforest).
  - vm_compute. reflexivity.
  - destruct (Hforest Sample.rank 3%nat) as [resolved Hres].
    + repeat constructor; simpl; vm_compute; lia.
    + vm_compute. lia.
    + destruct (Hname 3%nat resolved Hres) as (path & _ & _ & Hbound).
      exists resolved. split; [exact Hres|exact Hbound].
Defined.

(** ** Termination of the path walk *)

Lemma cyclic_walk_runs_out fuel :
  forall acc, path_loop fuel Sample.cyclic_store (Some 1) acc = None
              /\ path_loop fuel Sample.cyclic_store (Some 2) acc = None.
Proof.
  induction fuel as [|fuel IH]; intros acc; [by split|].
  split.
  - change (path_loop fuel Sample.cyclic_store (Some 2)
              (Node.mk 1 "a" (Some 2) "alice" (JObj ∅) (JObj ∅) "territory" 100 102 :: acc)
            = None).
    apply IH.
  - change (path_loop fuel Sample.cyclic_store (Some 1)
              (Node.mk 2 "b" (Some 1) "alice" (JObj ∅) (JObj ∅) "center" 101 101 :: acc)
            = None).
    apply IH.
Qed.

(** C4, as stated, fails: on a store whose parent links form a cycle the
    walk returns with no amount of fuel, and the route that runs it never
    answers. *)
Lemma cyclic_walk_never_returns :
  ~ (exists fuel path, getConfigNodePath fuel 1 Sample.cyclic_store = Some path)
  /\ forall fuel, Routes.get_path fuel "alice" 1 Sample.cyclic_store = None.
Proof.
  split.
  - intros (fuel & path & Hpath). unfold getConfigNodePath in Hpath.
    by rewrite (proj1 (cyclic_walk_runs_out fuel [])) in Hpath.
  - intros fuel. unfold Routes.get_path.
    change (getConfigNode 1 Sample.cyclic_store) with
      (Some (Node.mk 1 "a" (Some 2) "alice" (JObj ∅) (JObj ∅) "territory" 100 102)).
    simpl. unfold getConfigNodePath.
    by rewrite (proj1 (cyclic_walk_runs_out fuel [])).
Qed.

(** C4 (amended): the walk from an id within the range of the column
    returns exactly when the parent links followed from it come to an
    end, after as many iterations as there are links; so it returns on
    every store whose parent links form a forest, within [rank n + 1]
    iterations.  On a store where the parent links followed from [n] lead
    into a cycle (through [n] or through one of its ancestors) it returns
    with no amount of fuel.  The walk keeps no bound of its own, and the
    routes that run it answer 200, 403, 404 or 500, never with a
    conflict. *)
Theorem path_walk_returns_on_forest db n :
  (Sql.int4 n ->
   (forall links,
      ancestor (fun i => getConfigNode i db) Node.parentId links n = None ->
      exists path, forall fuel, (links <= fuel)%nat ->
                                getConfigNodePath fuel n db = Some path)
   /\ (forall rank, ranked rank (config_nodes db) ->
         exists path, forall fuel, (rank n < fuel)%nat ->
                                   getConfigNodePath fuel n db = Some path))
  /\ (forall fuel path,
        getConfigNodePath fuel n db = Some path ->
        exists links, (links <= S fuel)%nat
          /\ ancestor (fun i => getConfigNode i db) Node.parentId links n = None)
  /\ (forall k m c,
        ancestor (fun i => getConfigNode i db) Node.parentId k n = Some c ->
        ancestor (fun i => getConfigNode i db) Node.parentId (S m) c = Some c ->
        forall fuel, getConfigNodePath fuel n db = None)
  /\ (forall fuel caller r, Routes.get_path fuel caller n db = Some r ->
        status r = 200 \/ status r = 403 \/ status r = 404 \/ status r = 500)
  /\ (forall fuel caller r, Routes.get_resolve fuel caller n db = Some r ->
        status r = 200 \/ status r = 403 \/ status r = 404 \/ status r = 500).
Proof.
  split.
  { intros _. split; [intros links; apply getConfigNodePath_ends
                     |intros rank Hr; by apply (getConfigNodePath_returns rank)]. }
  split; [intros fuel path; apply getConfigNodePath_returned_ends|].
  split.
  { intros k m c Hreach Hcycle fuel. unfold getConfigNodePath. rewrite path_loop_walk.
    by apply (walk_into_cycle _ _ k m n c). }
  assert (forall failure, let r := no_row n failure in status r = 404 \/ status r = 500)
    as Hmissing by (intros failure; unfold no_row; case_bool_decide; auto).
  split; intros fuel caller r; unfold Routes.get_path, Routes.get_resolve;
    (destruct (getConfigNode n db);
     [|intros [= <-]; destruct (Hmissing "Failed to fetch config path");
       destruct (Hmissing "Failed to resolve configuration"); auto]);
    (case_bool_decide; [intros [= <-]; auto|]).
  - destruct (getConfigNodePath fuel n db); simpl; intros [= <-]; auto.
  - destruct (resolveConfiguration fuel n db); simpl; intros [= <-]; auto.
Qed.

Lemma path_walk_returns_on_forest_witness :
  (exists path, forall fuel, (Sample.rank 2 < fuel)%nat ->
     getConfigNodePath fuel 2 Sample.store = Some path)
  /\ (forall fuel, getConfigNodePath fuel 2 Sample.cyclic_store = None).
Proof.
  split.
  - destruct (path_walk_returns_on_forest Sample.store 2) as (Hreturns & _).
    destruct Hreturns as [_ Hforest]; [unfold Sql.int4; lia|].
    apply (Hforest Sample.rank). repeat constructor; simpl; vm_compute; lia.
  - destruct (path_walk_returns_on_forest Sample.cyclic_store 2) as (_ & _ & Hcycle & _).
    apply (Hcycle 1%nat 1%nat 1); vm_compute; reflexivity.
Defined.

(** ** Creating a node *)

(** C5 (amended): a create call that passes validation and names a
    non-zero [parentId] is answered 400 "Invalid parent node" when the
    parent belongs to another owner and also when no node has that id and
    the id is within the range of the column; for an id outside that
    range, which no node has, the lookup of the parent throws and the
    answer is 500.  In every case the store is left as it was. *)
Theorem post_invalid_parent caller b now db nodeData p :
  parse_insert caller b = Some nodeData ->
  cb_parentId b = Some p -> p ≠ 0 ->
  (getConfigNode p db = None
   \/ exists parent, getConfigNode p db = Some parent /\ Node.userId parent ≠ caller) ->
  (Sql.int4 p ->
   Routes.post caller b now db = (mkResponse 400 (Message "Invalid parent node"), db))
  /\ (~ Sql.int4 p -> getConfigNode p db = None ->
      Routes.post caller b now db
      = (mkResponse 500 (Message "Failed to create config node"), db)).
Proof.
  intros Hparse Hp Hnz Hparent. unfold Routes.post. rewrite Hparse.
  assert (ins_parentId nodeData = Some p) as ->.
  { unfold parse_insert in Hparse.
    destruct (cb_name b), (cb_nodeType b); try done.
    injection Hparse as <-. done. }
  unfold truthy. rewrite (bool_decide_eq_false_2 _ Hnz). split.
  - intros Hrange. destruct Hparent as [->|(parent & -> & Hother)].
    + by rewrite (bool_decide_eq_true_2 _ Hrange).
    + by rewrite (bool_decide_eq_true_2 _ Hother).
  - intros Hrange ->. by rewrite (bool_decide_eq_false_2 _ Hrange).
Qed.

Lemma post_invalid_parent_witness :
  Routes.post "bob" Sample.west_body 200 Sample.store
  = (mkResponse 400 (Message "Invalid parent node"), Sample.store)
  /\ Routes.post "alice" Sample.far_body 200 Sample.store
     = (mkResponse 500 (Message "Failed to create config node"), Sample.store).
Proof.
  split.
  - apply (post_invalid_parent "bob" Sample.west_body 200 Sample.store
             (mkInsert "WestCoast" (Some 1) "bob"
                (Some (JObj {[ "region" := JStr "us-west-2" ]})) None "center") 1).
    + vm_compute. reflexivity.
    + reflexivity.
    + lia.
    + right. exists Sample.Production. split; [vm_compute; reflexivity|discriminate].
    + unfold Sql.int4. lia.
  - apply (post_invalid_parent "alice" Sample.far_body 200 Sample.store
             (mkInsert "Far" (Some 2147483648) "alice" None None "center") 2147483648).
    + vm_compute. reflexivity.
    + reflexivity.
    + lia.
    + left. vm_compute. reflexivity.
    + unfold Sql.int4. lia.
    + vm_compute. reflexivity.
Defined.

(** C5, as stated, fails: a missing parent is not answered 404 and a
    parent of another owner is not answered 403; both get 400. *)
Lemma post_invalid_parent_is_400 :
  getConfigNode 99 Sample.store = None
  /\ status (Routes.post "alice" Sample.orphan_body 200 Sample.store).1 = 400
  /\ (Node.userId <$> getConfigNode 1 Sample.store) = Some "alice"
  /\ status (Routes.post "bob" Sample.west_body 200 Sample.store).1 = 400.
Proof. repeat split; vm_compute; reflexivity. Qed.

(** ** Updating a node *)

Lemma filter_id_fmap (f : ConfigNode -> ConfigNode) i (rows : list ConfigNode) :
  (forall n, Node.id (f n) = Node.id n) ->
  filter (fun n => Node.id n = i) (f <$> rows)
  = f <$> filter (fun n => Node.id n = i) rows.
Proof.
  intros Hid. induction rows as [|n rows IH]; [done|].
  rewrite fmap_cons, !filter_cons, Hid.
  destruct (decide (Node.id n = i)); by rewrite IH.
Qed.

Lemma getConfigNode_fmap (f : ConfigNode -> ConfigNode) i db :
  (forall n, Node.id (f n) = Node.id n) ->
  getConfigNode i (mkStore (f <$> config_nodes db) (config_nodes_id_seq db))
  = f <$> getConfigNode i db.
Proof.
  intros Hid. unfold getConfigNode, Sql.select_by_id. simpl.
  rewrite filter_id_fmap by done. by destruct (filter _ _).
Qed.

(** What the server reads of the parameters of an update it accepts. *)
Lemma bind_update_fields u sent :
  Sql.bind_update u = Some sent ->
  upd_name sent = Sql.text <$> upd_name u /\ upd_parentId sent = upd_parentId u
  /\ upd_nodeType sent = Sql.text <$> upd_nodeType u
  /\ Sql.bind_json (upd_properties u) = Some (upd_properties sent)
  /\ Sql.bind_json (upd_defaults u) = Some (upd_defaults sent).
Proof.
  unfold Sql.bind_update. destruct (_ && _); [|done].
  destruct (Sql.bind_json (upd_properties u)) as [properties|]; [|done].
  destruct (Sql.bind_json (upd_defaults u)) as [defaults|]; [|done].
  simpl. by intros [= <-].
Qed.




(** ** Creating a node and resolving it *)

Section walk_prefix.
Context {N : Type}.
Variable lookup : Z -> option N.
Variable parent : N -> option Z.

(** What the walk climbs does not depend on what it started with. *)
Lemma walk_acc fuel current acc :
  walk lookup parent fuel current acc
  = (fun climbed => climbed ++ acc) <$> walk lookup parent fuel current [].
Proof.
  revert current acc. induction fuel as [|fuel IH]; intros [i|] acc; simpl; try done.
  - by destruct (lookup i).
  - destruct (lookup i) as [node|]; [|done].
    rewrite (IH _ (node :: acc)), (IH _ [node]).
    destruct (walk lookup parent fuel (parent node) []) as [climbed|]; [|done].
    simpl. by rewrite <- app_assoc.
Qed.
End walk_prefix.


Lemma getConfigNode_append_other j row db seq' :
  Node.id row ≠ j ->
  getConfigNode j (mkStore (config_nodes db ++ [row]) seq') = getConfigNode j db.
Proof.
  intros Hj. unfold getConfigNode, Sql.select_by_id. simpl.
  rewrite filter_app, filter_cons, decide_False by done.
  by rewrite filter_nil, app_nil_r.
Qed.


(** A walk that starts below the sequence never meets the new row. *)
Lemma path_loop_append row db seq' fuel current acc :
  issued db ->
  Node.id row = config_nodes_id_seq db ->
  match current with Some c => c < config_nodes_id_seq db | None => True end ->
  path_loop fuel (mkStore (config_nodes db ++ [row]) seq') current acc
  = path_loop fuel db current acc.
Proof.
  intros Hi Hrow. revert current acc.
  induction fuel as [|fuel IH]; intros [c|] acc Hc; simpl; try done.
  - rewrite getConfigNode_append_other by lia. done.
  - rewrite getConfigNode_append_other by lia.
    destruct (getConfigNode c db) as [node|] eqn:Hnode; [|done].
    apply IH. apply getConfigNode_Some in Hnode as [_ Hin].
    unfold issued in Hi. rewrite Forall_forall in Hi.
    by destruct (Hi _ Hin) as [_ Hp].
Qed.

(** What the server reads of the parameters it accepts. *)
Lemma bind_insert_fields v sent :
  Sql.bind_insert v = Some sent ->
  ins_name sent = Sql.text (ins_name v) /\ ins_parentId sent = ins_parentId v
  /\ ins_userId sent = ins_userId v /\ ins_nodeType sent = Sql.text (ins_nodeType v)
  /\ Sql.bind_json (ins_properties v) = Some (ins_properties sent)
  /\ Sql.bind_json (ins_defaults v) = Some (ins_defaults sent).
Proof.
  unfold Sql.bind_insert. destruct (_ && _); [|done].
  destruct (Sql.bind_json (ins_properties v)) as [properties|]; [|done].
  destruct (Sql.bind_json (ins_defaults v)) as [defaults|]; [|done].
  simpl. by intros [= <-].
Qed.








(** ** Cascading delete *)

Lemma elem_of_ids (rows : list ConfigNode) r : r ∈ rows -> Node.id r ∈ ids rows.
Proof. apply list_elem_of_fmap_2. Qed.

Lemma ids_subseteq (rows rows' : list ConfigNode) i :
  rows' ⊆ rows -> i ∈ ids rows' -> i ∈ ids rows.
Proof.
  intros Hsub (r & -> & Hr)%list_elem_of_fmap. by apply elem_of_ids, Hsub.
Qed.

Lemma ranked_subseteq rank (rows rows' : list ConfigNode) :
  rows' ⊆ rows -> ranked rank rows -> ranked rank rows'.
Proof. unfold ranked. rewrite !Forall_forall. intros Hsub Hr n Hn. by apply Hr, Hsub. Qed.

Lemma rank_below_subseteq rank bound (rows rows' : list ConfigNode) :
  rows' ⊆ rows -> rank_below rank bound rows -> rank_below rank bound rows'.
Proof. unfold rank_below. rewrite !Forall_forall. intros Hsub Hr n Hn. by apply Hr, Hsub. Qed.

Lemma closed_under_trans (a b c : list ConfigNode) :
  c ⊆ b -> closed_under a b -> closed_under b c -> closed_under a c.
Proof.
  intros Hcb Hab Hbc r q Hr Hq Hqa. apply (Hbc r q Hr Hq).
  by apply (Hab r q (Hcb _ Hr) Hq).
Qed.

Section cascade.
Variable rank : Z -> nat.
Variable bound : nat.

Local Abbreviation deletes := (deletes rank bound).

(** The loop over the children of [i]. *)
Lemma for_of_children recur fuel i children :
  deletes recur fuel ->
  forall db,
    ranked rank (config_nodes db) ->
    rank_below rank bound (config_nodes db) ->
    Forall (fun c => (rank i < rank (Node.id c))%nat
                     /\ (bound - rank (Node.id c) < fuel)%nat) children ->
    exists db1,
      for_of (delete_child recur) children db = Some (Ok tt db1)
      /\ config_nodes_id_seq db1 = config_nodes_id_seq db
      /\ config_nodes db1 ⊆ config_nodes db
      /\ closed_under (config_nodes db) (config_nodes db1)
      /\ Forall (fun c => Node.id c ∉ ids (config_nodes db1)) children
      /\ (forall r, r ∈ config_nodes db -> (rank (Node.id r) <= rank i)%nat ->
            r ∈ config_nodes db1).
Proof.
  intros Hrec. induction children as [|c children IH]; intros db Hr Hb Hcs; simpl.
  - exists db. repeat split; try done. by intros r q ? ? ?.
  - inversion_clear Hcs as [|? ? [Hci Hcf] Hrest].
    destruct (Hrec (Node.id c) db Hr Hb Hcf) as (dbc & Hdel & Hseq & Hsub & Hgone & Hcl & Hkeep).
    unfold delete_child at 1. rewrite Hdel.
    destruct (IH dbc) as (db1 & Hloop & Hseq1 & Hsub1 & Hcl1 & Hgone1 & Hkeep1);
      [by eapply ranked_subseteq|by eapply rank_below_subseteq|done|].
    exists db1. split; [done|]. split; [congruence|].
    split; [by etrans|]. split; [by eapply closed_under_trans|].
    split.
    + constructor; [|done]. intros Hin. apply Hgone. by eapply ids_subseteq.
    + intros r Hin Hle. apply Hkeep1; [|done]. apply Hkeep; [done|lia|].
      intros Heq. rewrite Heq in Hle. lia.
Qed.

Lemma filter_id_nil i (rows : list ConfigNode) :
  filter (fun n => Node.id n = i) rows = [] <-> i ∉ ids rows.
Proof.
  pose proof (getConfigNode_None i (mkStore rows 0)) as Hnone.
  unfold getConfigNode, Sql.select_by_id in Hnone. simpl in Hnone.
  by rewrite head_None in Hnone.
Qed.

Lemma deleteConfigNode_spec fuel : deletes (deleteConfigNode fuel) fuel.
Proof.
  induction fuel as [|fuel IH]; intros i db Hr Hb Hfuel; [lia|].
  simpl deleteConfigNode.
  destruct (for_of_children (deleteConfigNode fuel) fuel i (Sql.select_by_parent i db) IH db)
    as (db1 & -> & Hseq1 & Hsub1 & Hcl1 & Hgone1 & Hkeep1); [done|done| |].
  { apply Forall_forall. intros c [Hp Hin]%list_elem_of_filter.
    unfold ranked, rank_below in Hr, Hb. rewrite Forall_forall in Hr, Hb.
    specialize (Hr _ Hin). specialize (Hb _ Hin). rewrite Hp in Hr. lia. }
  (* no remaining row points at [i] *)
  assert (forall n, n ∈ config_nodes db1 -> Node.parentId n ≠ Some i) as Hnochild.
  { intros n Hn Hp. rewrite Forall_forall in Hgone1.
    apply (Hgone1 n); [|by apply elem_of_ids].
    apply list_elem_of_filter. split; [done|by apply Hsub1]. }
  unfold Sql.delete.
  destruct (filter (fun n => Node.id n = i) (config_nodes db1)) as [|g gone] eqn:Hgone.
  - (* nothing to delete *)
    rewrite bool_decide_eq_true_2 by done.
    apply filter_id_nil in Hgone.
    assert (i ∉ ids (config_nodes db)) as Hnot.
    { intros (r & -> & Hin)%list_elem_of_fmap. apply Hgone, elem_of_ids. by apply Hkeep1. }
    exists db1. rewrite (bool_decide_eq_false_2 (i ∈ _)) by done.
    split; [done|]. split; [done|]. repeat split; try done.
    intros r Hin Hle _. by apply Hkeep1.
  - rewrite bool_decide_eq_false_2 by done.
    assert (forallb (fun n => bool_decide (Node.parentId n ≠ Some i))
              (filter (fun n => Node.id n ≠ i) (config_nodes db1)) = true) as ->.
    { apply forallb_forall. intros n [_ Hn]%list_elem_of_In%list_elem_of_filter.
      apply bool_decide_eq_true_2. by apply Hnochild. }
    exists (mkStore (filter (fun n => Node.id n ≠ i) (config_nodes db1))
                    (config_nodes_id_seq db1)).
    split; [|split; [done|]]; [|simpl].
    + f_equal. f_equal. rewrite bool_decide_eq_true_2 by (rewrite length_cons; lia).
      symmetry. apply bool_decide_eq_true_2.
      apply (ids_subseteq _ _ _ Hsub1).
      apply dec_stable. intros Hnot%filter_id_nil. by rewrite Hgone in Hnot.
    + split; [|split; [|split]].
      * intros r [_ Hin]%list_elem_of_filter. by apply Hsub1.
      * intros (r & Heq & Hin)%list_elem_of_fmap.
        apply list_elem_of_filter in Hin as [Hne _]. done.
      * intros r q [Hne Hin]%list_elem_of_filter Hq Hqb.
        pose proof (Hcl1 r q Hin Hq Hqb) as (m & -> & Hm)%list_elem_of_fmap.
        apply elem_of_ids, list_elem_of_filter. split; [|done].
        intros Heq. apply (Hnochild r Hin). by rewrite Hq, Heq.
      * intros r Hin Hle Hne. apply list_elem_of_filter. split; [done|].
        by apply Hkeep1.
Qed.
End cascade.

Section walk_in_store.
Context {N : Type}.
Variable lookup : Z -> option N.
Variable parent : N -> option Z.
Variable ident : N -> Z.
Hypothesis lookup_ident : forall i n, lookup i = Some n -> ident n = i.

Lemma linked_app_r (l1 l2 : list N) :
  linked parent ident (l1 ++ l2) -> linked parent ident l2.
Proof.
  induction l1 as [|a l1 IH]; [done|]. simpl.
  destruct (l1 ++ l2) eqn:Happ; [|by intros [_ ?]; apply IH].
  apply app_eq_nil in Happ as [_ ->]. done.
Qed.
End walk_in_store.

Lemma unique_ids_eq (rows : list ConfigNode) r r' :
  NoDup (ids rows) -> r ∈ rows -> r' ∈ rows -> Node.id r = Node.id r' -> r = r'.
Proof.
  unfold ids. induction rows as [|n rows IH]; [by intros _ ?%elem_of_nil|].
  rewrite fmap_cons, NoDup_cons. intros [Hn Hnd] Hr Hr' Heq.
  apply elem_of_cons in Hr as [->|Hr]; apply elem_of_cons in Hr' as [->|Hr'].
  - done.
  - destruct Hn. rewrite Heq. by apply list_elem_of_fmap_2.
  - destruct Hn. rewrite <- Heq. by apply list_elem_of_fmap_2.
  - by apply IH.
Qed.

(** Below a deleted node of a linked chain everything is deleted. *)
Lemma gone_below (rows rows' : list ConfigNode) a rest :
  NoDup (ids rows) -> rows' ⊆ rows -> closed_under rows rows' ->
  linked Node.parentId Node.id (a :: rest) ->
  Forall (fun n => n ∈ rows) (a :: rest) ->
  Node.id a ∉ ids rows' ->
  Forall (fun n => Node.id n ∉ ids rows') rest.
Proof.
  intros Hnd Hsub Hcl. revert a.
  induction rest as [|b rest IH]; intros a Hl Hin Ha; [done|].
  destruct Hl as [Hab Hl].
  inversion_clear Hin as [|? ? Hain Hrest]. inversion Hrest as [|? ? Hbin _]; subst.
  assert (Node.id b ∉ ids rows') as Hb.
  { intros (r & Heq & Hr)%list_elem_of_fmap.
    assert (r = b) as -> by (apply (unique_ids_eq rows); auto).
    apply Ha, (Hcl b (Node.id a) Hr Hab). by apply elem_of_ids. }
  constructor; [done|]. by apply (IH b).
Qed.

Lemma getConfigNodePath_missing fuel d db :
  getConfigNode d db = None -> getConfigNodePath fuel d db = Some [].
Proof. intros Hd. unfold getConfigNodePath. destruct fuel; simpl; by rewrite Hd. Qed.

(** A node whose path goes through a deleted node is deleted. *)
Lemma on_path_gone p d fuel path db (rows' : list ConfigNode) :
  unique_ids db -> rows' ⊆ config_nodes db ->
  closed_under (config_nodes db) rows' ->
  p ∉ ids rows' ->
  getConfigNodePath fuel d db = Some path -> p ∈ ids path ->
  d ∉ ids rows'.
Proof.
  intros Hnd Hsub Hcl Hp Hpath (a & -> & Ha)%list_elem_of_fmap.
  destruct (getConfigNode d db) as [node|] eqn:Hd.
  2:{ rewrite (getConfigNodePath_missing _ _ _ Hd) in Hpath.
      injection Hpath as <-. by apply elem_of_nil in Ha. }
  pose proof (getConfigNodePath_last _ _ _ _ _ Hd Hpath) as Hlast.
  apply getConfigNode_Some in Hd as [<- _].
  unfold getConfigNodePath in Hpath. rewrite path_loop_walk in Hpath.
  assert (forall i n, getConfigNode i db = Some n -> Node.id n = i) as Hident
    by (intros i n Hn; by apply getConfigNode_Some in Hn as [? _]).
  pose proof (walk_in_store _ _ Node.id Hident _ _ _ _ (Forall_nil_2 _) Hpath) as Hstore.
  apply (walk_shape _ _ Node.id Hident) in Hpath as [Hlinked _]; [|done].
  apply list_elem_of_split in Ha as (l1 & l2 & ->).
  apply linked_app_r in Hlinked.
  apply Forall_app in Hstore as [_ Hstore].
  assert (Forall (fun n => n ∈ config_nodes db) (a :: l2)) as Hin.
  { eapply Forall_impl; [exact Hstore|]. intros n Hn. by apply getConfigNode_Some in Hn as [_ ?]. }
  pose proof (gone_below _ _ _ _ Hnd Hsub Hcl Hlinked Hin Hp) as Hgone.
  rewrite last_app, last_cons in Hlast.
  destruct (last l2) as [z|] eqn:Hz.
  - injection Hlast as <-. rewrite Forall_forall in Hgone.
    by apply Hgone, last_Some_elem_of.
  - by injection Hlast as <-.
Qed.

Lemma closed_under_refl (rows : list ConfigNode) : closed_under rows rows.
Proof. by intros r q _ _ ?. Qed.

Lemma for_of_closes recur children :
  closes recur ->
  forall db db1,
    for_of (delete_child recur) children db = Some (Ok tt db1) ->
    config_nodes db1 ⊆ config_nodes db
    /\ closed_under (config_nodes db) (config_nodes db1).
Proof.
  intros Hrec. induction children as [|c children IH]; intros db db1; simpl.
  - intros [= <-]. split; [done|apply closed_under_refl].
  - unfold delete_child at 1.
    destruct (recur (Node.id c) db) as [[b dbc|dbc]|] eqn:Hc; [|done|done].
    destruct (Hrec _ _ _ _ Hc) as (Hsub & Hcl & _).
    intros (Hsub1 & Hcl1)%IH. split; [by etrans|].
    by apply (closed_under_trans _ (config_nodes dbc)).
Qed.

Lemma deleteConfigNode_closes fuel : closes (deleteConfigNode fuel).
Proof.
  induction fuel as [|fuel IH]; intros i db b db'; simpl; [done|].
  destruct (for_of _ _ db) as [[[] db1|db1]|] eqn:Hfor; [|done|done].
  destruct (for_of_closes _ _ IH _ _ Hfor) as [Hsub1 Hcl1].
  unfold Sql.delete. case_bool_decide as Hgone.
  - intros [= _ <-]. split; [done|]. split; [done|]. by apply filter_id_nil.
  - destruct (forallb _ _) eqn:Hfk; [|done]. intros [= _ <-]. simpl.
    rewrite forallb_forall in Hfk. split; [|split].
    + intros r [_ Hin]%list_elem_of_filter. by apply Hsub1.
    + intros r q [Hne Hin]%list_elem_of_filter Hq Hqb.
      pose proof (Hcl1 r q Hin Hq Hqb) as (m & -> & Hm)%list_elem_of_fmap.
      apply elem_of_ids, list_elem_of_filter. split; [|done].
      intros Heq.
      assert (r ∈ filter (fun n => Node.id n ≠ i) (config_nodes db1)) as Hkept
        by (by apply list_elem_of_filter).
      specialize (Hfk r (proj1 (list_elem_of_In _ _) Hkept)).
      apply bool_decide_eq_true_1 in Hfk. apply Hfk. by rewrite Hq, Heq.
    + intros (n & Hid & [Hne _]%list_elem_of_filter)%list_elem_of_fmap. congruence.
Qed.

(** C3 (amended): on a store with a primary key, whenever the delete
    route answers 204 for [p], every node whose path went through [p] is
    gone, so the path route and the resolve route answer 404 for it (its
    id being in the range of the column, as the id of a row is); no
    remaining row points at a row that was removed; and rows are only
    removed.  When the parent links of the store form a forest, the route
    called by the owner of [p] does answer 204. *)
Theorem delete_removes_subtree caller p db :
  unique_ids db ->
  (forall fuel db',
     Routes.delete fuel caller p db = Some (mkResponse 204 NoBody, db') ->
     (forall d fuel' path,
        getConfigNodePath fuel' d db = Some path -> p ∈ ids path ->
        getConfigNode d db' = None
        /\ (forall fuel'' caller',
              Sql.int4 d ->
              Routes.get_path fuel'' caller' d db'
              = Some (mkResponse 404 (Message "Config node not found")))
        /\ (forall fuel'' caller',
              Sql.int4 d ->
              Routes.get_resolve fuel'' caller' d db'
              = Some (mkResponse 404 (Message "Config node not found"))))
     /\ closed_under (config_nodes db) (config_nodes db')
     /\ config_nodes db' ⊆ config_nodes db)
  /\ (forall rank bound node,
        ranked rank (config_nodes db) ->
        rank_below rank bound (config_nodes db) ->
        getConfigNode p db = Some node ->
        Node.userId node = caller ->
        exists db', Routes.delete (S bound) caller p db
                    = Some (mkResponse 204 NoBody, db')).
Proof.
  intros Hnd. split.
  - intros fuel db'. unfold Routes.delete.
    destruct (getConfigNode p db) as [node|];
      [|unfold no_row; by case_bool_decide].
    case_bool_decide; [done|].
    destruct (deleteConfigNode fuel p db) as [[[|] db1|db1]|] eqn:Hdel; try done.
    intros [= <-].
    destruct (deleteConfigNode_closes fuel _ _ _ _ Hdel) as (Hsub & Hcl & Hgone).
    split; [|done]. intros d fuel' path Hpath Hon.
    assert (getConfigNode d db1 = None) as Hd.
    { apply getConfigNode_None. by apply (on_path_gone p d fuel' path db). }
    split; [done|].
    split; intros fuel'' caller' Hrange;
      unfold Routes.get_path, Routes.get_resolve, no_row;
      by rewrite Hd, (bool_decide_eq_true_2 _ Hrange).
  - intros rank bound node Hr Hb Hp Hown.
    destruct (deleteConfigNode_spec rank bound (S bound) p db Hr Hb) as
      (db' & Hdel & _); [lia|].
    rewrite bool_decide_eq_true_2 in Hdel
      by (apply getConfigNode_is_Some; by eexists).
    exists db'. unfold Routes.delete. rewrite Hp, Hdel.
    rewrite bool_decide_eq_false_2; [done|]. by intros [].
Qed.

Lemma delete_removes_subtree_witness :
  exists db',
    Routes.delete 4 "alice" 1 Sample.store = Some (mkResponse 204 NoBody, db')
    /\ (forall d fuel path,
          getConfigNodePath fuel d Sample.store = Some path -> 1 ∈ ids path ->
          getConfigNode d db' = None
          /\ (forall fuel' caller',
                Sql.int4 d ->
                Routes.get_path fuel' caller' d db'
                = Some (mkResponse 404 (Message "Config node not found")))
          /\ (forall fuel' caller',
                Sql.int4 d ->
                Routes.get_resolve fuel' caller' d db'
                = Some (mkResponse 404 (Message "Config node not found"))))
    /\ closed_under (config_nodes Sample.store) (config_nodes db')
    /\ config_nodes db' ⊆ config_nodes Sample.store.
Proof.
  destruct (delete_removes_subtree "alice" 1 Sample.store) as [Hdeleted Hforest].
  - apply (bool_decide_unpack _). vm_compute. exact I.
  - destruct (Hforest Sample.rank 3%nat Sample.Production) as [db' Hdelete].
    + repeat constructor; simpl; vm_compute; lia.
    + repeat constructor; simpl; vm_compute; lia.
    + vm_compute. reflexivity.
    + reflexivity.
    + exists db'. split; [exact Hdelete|]. exact (Hdeleted 4%nat db' Hdelete).
Defined.

Lemma cyclic_delete_runs_out fuel :
  deleteConfigNode fuel 1 Sample.cyclic_store = None
  /\ deleteConfigNode fuel 2 Sample.cyclic_store = None.
Proof.
  induction fuel as [|fuel [IH1 IH2]]; [done|]. split.
  - change (deleteConfigNode (S fuel) 1 Sample.cyclic_store)
      with (match for_of (delete_child (deleteConfigNode fuel))
                    (Sql.select_by_parent 1 Sample.cyclic_store) Sample.cyclic_store with
            | None => None
            | Some (Throw db') => Some (Throw db')
            | Some (Ok _ db1) =>
              match Sql.delete 1 db1 with
              | Throw db2 => Some (Throw db2)
              | Ok rowCount db2 => Some (Ok (bool_decide (0 < rowCount)) db2)
              end
            end).
    change (Sql.select_by_parent 1 Sample.cyclic_store)
      with [Node.mk 2 "b" (Some 1) "alice" (JObj ∅) (JObj ∅) "center" 101 101].
    unfold for_of, delete_child. simpl Node.id. by rewrite IH2.
  - change (deleteConfigNode (S fuel) 2 Sample.cyclic_store)
      with (match for_of (delete_child (deleteConfigNode fuel))
                    (Sql.select_by_parent 2 Sample.cyclic_store) Sample.cyclic_store with
            | None => None
            | Some (Throw db') => Some (Throw db')
            | Some (Ok _ db1) =>
              match Sql.delete 2 db1 with
              | Throw db2 => Some (Throw db2)
              | Ok rowCount db2 => Some (Ok (bool_decide (0 < rowCount)) db2)
              end
            end).
    change (Sql.select_by_parent 2 Sample.cyclic_store)
      with [Node.mk 1 "a" (Some 2) "alice" (JObj ∅) (JObj ∅) "territory" 100 102].
    unfold for_of, delete_child. simpl Node.id. by rewrite IH1.
Qed.

(** C3, as stated, fails: on a store whose parent links form a cycle the
    recursion of the delete never comes back, and the route that runs it
    never answers; nothing is removed. *)
Lemma cyclic_delete_never_returns :
  (Node.userId <$> getConfigNode 1 Sample.cyclic_store) = Some "alice"
  /\ (forall fuel, deleteConfigNode fuel 1 Sample.cyclic_store = None)
  /\ (forall fuel, Routes.delete fuel "alice" 1 Sample.cyclic_store = None).
Proof.
  split; [vm_compute; reflexivity|]. split.
  - intros fuel. apply cyclic_delete_runs_out.
  - intros fuel. unfold Routes.delete.
    change (getConfigNode 1 Sample.cyclic_store) with
      (Some (Node.mk 1 "a" (Some 2) "alice" (JObj ∅) (JObj ∅) "territory" 100 102)).
    simpl. by rewrite (proj1 (cyclic_delete_runs_out fuel)).
Qed.

(** ** The two resolvers *)

Section walk_related.
Context {N M : Type}.
Variable lookupN : Z -> option N.
Variable parentN : N -> option Z.
Variable lookupM : Z -> option M.
Variable parentM : M -> option Z.
Variable R : N -> M -> Prop.
Hypothesis lookup_related : forall i, option_Forall2 R (lookupN i) (lookupM i).
Hypothesis parent_related : forall n m, R n m -> parentN n = parentM m.

(** Walks over related stores climb related paths, with the same fuel. *)
Lemma walk_related fuel current accN accM :
  Forall2 R accN accM ->
  option_Forall2 (Forall2 R)
    (walk lookupN parentN fuel current accN)
    (walk lookupM parentM fuel current accM).
Proof.
  revert current accN accM.
  induction fuel as [|fuel IH]; intros [i|] accN accM Hacc; simpl;
    try by constructor.
  - destruct (lookup_related i); by constructor.
  - destruct (lookup_related i) as [n m Hnm|]; [|by constructor].
    rewrite (parent_related _ _ Hnm). apply IH. by constructor.
Qed.
End walk_related.

Lemma Go_path_loop_walk fuel go current acc :
  Go.path_loop fuel go current acc
  = walk (fun i => Go.GetNodeByID i go) Go.ParentID fuel current acc.
Proof.
  revert current acc. induction fuel as [|fuel IH]; intros [i|] acc; simpl; try done.
  destruct (Go.GetNodeByID i go); [apply IH|done].
Qed.

Lemma same_nodes_lookup db go i :
  Forall2 same_node (config_nodes db) (Go.config_nodes go) ->
  option_Forall2 same_node (getConfigNode i db) (Go.GetNodeByID i go).
Proof.
  unfold getConfigNode, Sql.select_by_id, Go.GetNodeByID.
  induction 1 as [|n g rows grows Hng _ IH]; [constructor|].
  rewrite !filter_cons. destruct Hng as (Hid & Hrest).
  destruct (decide (Node.id n = i)) as [Hn|Hn].
  - rewrite decide_True by congruence. by constructor.
  - rewrite decide_False by congruence. done.
Qed.

Section resolvers.
Variable json_Unmarshal : string -> option json.
Variable order_by_key : list Go.ConfigProperty -> list Go.ConfigProperty.
Hypothesis order_by_key_perm : forall rows, order_by_key rows ≡ₚ rows.

Local Abbreviation decode := (Go.decode json_Unmarshal).
Local Abbreviation properties_of := (go_properties json_Unmarshal).
Local Abbreviation defaults_of := (go_defaults json_Unmarshal).

Lemma unique_keys_of_node go i :
  unique_keys go ->
  NoDup (Go.Key <$> filter (fun p => Go.NodeID p = i) (Go.config_properties go)).
Proof.
  unfold unique_keys. induction (Go.config_properties go) as [|p rows IH]; [constructor|].
  rewrite fmap_cons, NoDup_cons, filter_cons. intros [Hp Hnd].
  destruct (decide (Go.NodeID p = i)) as [Hi|Hi]; [|by apply IH].
  rewrite fmap_cons. apply NoDup_cons. split; [|by apply IH].
  intros (q & Hkey & [Hq Hin]%list_elem_of_filter)%list_elem_of_fmap.
  apply Hp, list_elem_of_fmap. exists q. split; [|done]. congruence.
Qed.

(** Assigning the rows one by one builds the map of the rows. *)
Lemma foldl_insert_rows (rows : list Go.ConfigProperty) (resolved : gmap string json) :
  NoDup (Go.Key <$> rows) ->
  foldl (fun resolved prop => <[Go.Key prop := decode (Go.Value prop)]> resolved) resolved rows
  = list_to_map ((fun p => (Go.Key p, decode (Go.Value p))) <$> rows) ∪ resolved.
Proof.
  revert resolved. induction rows as [|p rows IH]; intros resolved Hnd; simpl.
  - by rewrite (left_id_L ∅ (∪)).
  - apply NoDup_cons in Hnd as [Hp Hnd]. rewrite IH by done.
    rewrite <- insert_union_l. symmetry. apply insert_union_r.
    apply not_elem_of_list_to_map_1. by rewrite <- list_fmap_compose.
Qed.

Lemma Go_apply_node_union go resolved node :
  unique_keys go ->
  Go.apply_node json_Unmarshal order_by_key go resolved node
  = properties_of go (Go.ID node) ∪ resolved.
Proof.
  intros Hu. unfold Go.apply_node, Go.GetPropertiesByNodeID, go_properties.
  pose proof (unique_keys_of_node go (Go.ID node) Hu) as Hnd.
  rewrite foldl_insert_rows by by rewrite order_by_key_perm.
  f_equal. apply list_to_map_proper.
  - rewrite <- list_fmap_compose. by rewrite order_by_key_perm.
  - by rewrite order_by_key_perm.
Qed.

(** A row that has a default value has a value. *)
Lemma go_defaults_within_properties go i k :
  is_Some (defaults_of go i !! k) -> is_Some (properties_of go i !! k).
Proof.
  unfold go_defaults, go_properties.
  intros [v Hv]. apply not_eq_None_Some. intros Hnone.
  apply not_elem_of_list_to_map_2 in Hnone. apply Hnone.
  apply elem_of_list_to_map_2, list_elem_of_omap in Hv as (p & Hp & Hd).
  destruct (Go.DefaultValue p); [|done]. injection Hd as <- _.
  rewrite <- list_fmap_compose. by apply (list_elem_of_fmap_2 _ _ p).
Qed.

(** One step of each resolver, from accumulators that agree on a key. *)
Lemma apply_node_agree go o (m : gmap string json) n g k :
  unique_keys go -> same_node n g -> same_maps json_Unmarshal go n ->
  k ≠ dollar_NAME -> k ≠ Js.proto_key ->
  Js.own o !! k = m !! k ->
  Js.own (apply_node o n) !! k
  = Go.apply_node json_Unmarshal order_by_key go m g !! k.
Proof.
  intros Hu (Hid & _) [Hprops Hdefs] Hname Hproto Heq.
  rewrite Go_apply_node_union, own_apply_node_lookup by done.
  unfold spec_step, spec_merge. rewrite Hid, Hprops, Hdefs, !lookup_union, Heq.
  destruct (properties_of go (Node.id n) !! k) as [v|] eqn:Hv;
    [by destruct (defaults_of go (Node.id n) !! k), (m !! k)|].
  destruct (defaults_of go (Node.id n) !! k) as [d|] eqn:Hd; [|by destruct (m !! k)].
  destruct (go_defaults_within_properties go (Node.id n) k) as [? Hsome]; [by eexists|].
  by rewrite Hv in Hsome.
Qed.

Lemma fold_apply_node_related go path gopath k :
  unique_keys go ->
  Forall2 same_node path gopath ->
  Forall (same_maps json_Unmarshal go) path ->
  k ≠ dollar_NAME -> k ≠ Js.proto_key ->
  forall o (m : gmap string json),
    Js.own o !! k = m !! k ->
    Js.own (foldl apply_node o path) !! k
    = foldl (Go.apply_node json_Unmarshal order_by_key go) m gopath !! k.
Proof.
  intros Hu Hpaths Hmaps Hname Hproto.
  induction Hpaths as [|n g path gopath Hng _ IH]; intros o m Heq; simpl; [done|].
  inversion_clear Hmaps as [|? ? Hn Hrest].
  apply IH; [done|]. by apply apply_node_agree.
Qed.

(** Related stores give related paths, with the same fuel. *)
Lemma paths_related db go fuel n path :
  Forall2 same_node (config_nodes db) (Go.config_nodes go) ->
  getConfigNodePath fuel n db = Some path ->
  exists gopath, Go.GetNodePath fuel n go = Some gopath /\ Forall2 same_node path gopath.
Proof.
  intros Hnodes Hpath. unfold getConfigNodePath in Hpath. rewrite path_loop_walk in Hpath.
  pose proof (walk_related (fun i => getConfigNode i db) Node.parentId
                (fun i => Go.GetNodeByID i go) Go.ParentID same_node
                (fun i => same_nodes_lookup db go i Hnodes)
                (fun n g H => eq_sym (proj1 (proj2 (proj2 H))))
                fuel (Some n) [] [] (List.Forall2_nil same_node)) as Hrel.
  rewrite Hpath in Hrel. inversion Hrel as [? gopath Hpaths Heq1 Hgo|]; subst.
  exists gopath. split; [|done].
  unfold Go.GetNodePath. by rewrite Go_path_loop_walk.
Qed.

(** C9 (amended): on stores with the same contents (the same nodes, and
    every property row the entry of its node's [properties] and
    [defaults]), with unique keys per node and parent links that form a
    forest, both resolvers return for an existing node, over the same
    path, and the two mappings agree on every key other than [$NAME] and
    [__proto__]; under [$NAME] the embedded-map resolver holds the name
    the row resolver reports as [NodeName]. *)
Theorem resolvers_agree rank db go n node :
  unique_keys go ->
  equivalent json_Unmarshal db go ->
  ranked rank (config_nodes db) ->
  getConfigNode n db = Some node ->
  exists path resolved goresolved,
    (forall fuel, (rank n < fuel)%nat ->
       getConfigNodePath fuel n db = Some path
       /\ resolveConfiguration fuel n db = Some resolved
       /\ Go.ResolveConfiguration json_Unmarshal order_by_key fuel n go
          = Some (inr goresolved))
    /\ Forall2 same_node path (Go.Path goresolved)
    /\ (forall k, k ≠ dollar_NAME -> k ≠ Js.proto_key ->
          Js.own resolved !! k = Go.Properties goresolved !! k)
    /\ Js.own resolved !! dollar_NAME = Some (JStr (Go.NodeName goresolved)).
Proof.
  intros Hu [Hnodes Hmaps] Hr Hn.
  destruct (getConfigNodePath_returns rank db n Hr) as [path Hpath].
  pose proof (Hpath _ (Nat.lt_succ_diag_r _)) as Hpath0.
  pose proof (getConfigNodePath_last _ _ _ _ _ Hn Hpath0) as Hlast.
  assert (forall i m, getConfigNode i db = Some m -> Node.id m = i) as Hident
    by (intros i m Hm; by apply getConfigNode_Some in Hm as [? _]).
  pose proof Hpath0 as Hwalk. unfold getConfigNodePath in Hwalk.
  rewrite path_loop_walk in Hwalk.
  pose proof (walk_in_store _ _ Node.id Hident _ _ _ _ (Forall_nil_2 _) Hwalk) as Hstore.
  assert (Forall (same_maps json_Unmarshal go) path) as Hpathmaps.
  { rewrite Forall_forall in Hmaps. eapply Forall_impl; [exact Hstore|].
    intros m Hm. by apply Hmaps, (getConfigNode_Some (Node.id m)). }
  destruct (paths_related db go _ n path Hnodes Hpath0) as (gopath & Hgo & Hpaths).
  apply last_Some in Hlast as [init ->].
  apply Forall2_app_inv_l in Hpaths as (goinit & golast & Hinit & Hlastrel & ->).
  inversion Hlastrel as [|? g ? ? Hng Hnil]; subst. inversion Hnil; subst.
  exists (init ++ [node]), (foldl apply_node Js.empty (init ++ [node])),
         (Go.mkResolved n (Go.Name g)
            (foldl (Go.apply_node json_Unmarshal order_by_key go) ∅ (goinit ++ [g]))
            (goinit ++ [g])).
  split; [|split; [|split]].
  - intros fuel Hfuel. split; [by apply Hpath|].
    split; [by apply resolveConfiguration_unfold, Hpath|].
    unfold Go.ResolveConfiguration, Go.GetNodePath in *.
    rewrite Go_path_loop_walk in *.
    rewrite (walk_fuel_mono _ _ (S (rank n)) fuel _ _ _ ltac:(lia) Hgo). simpl.
    by rewrite last_snoc.
  - simpl. apply Forall2_app; [done|by constructor].
  - intros k Hname Hproto. simpl.
    apply (fold_apply_node_related go); try done.
    apply Forall2_app; [done|by constructor].
  - simpl. rewrite foldl_snoc, own_apply_node_NAME.
    destruct Hng as (_ & -> & _). done.
Qed.
End resolvers.

Lemma resolvers_agree_witness :
  exists path resolved goresolved,
    (forall fuel, (Sample.rank 2 < fuel)%nat ->
       getConfigNodePath fuel 2 Sample.row_store = Some path
       /\ resolveConfiguration fuel 2 Sample.row_store = Some resolved
       /\ Go.ResolveConfiguration Sample.unmarshal (fun rows => rows) fuel 2 Sample.go_store
          = Some (inr goresolved))
    /\ Forall2 same_node path (Go.Path goresolved)
    /\ (forall k, k ≠ dollar_NAME -> k ≠ Js.proto_key ->
          Js.own resolved !! k = Go.Properties goresolved !! k)
    /\ Js.own resolved !! dollar_NAME = Some (JStr (Go.NodeName goresolved)).
Proof.
  apply (resolvers_agree Sample.unmarshal (fun rows => rows) (fun rows => reflexivity rows)
           Sample.rank Sample.row_store Sample.go_store 2 Sample.Leaf).
  - apply (bool_decide_unpack _). vm_compute. exact I.
  - split; repeat constructor; vm_compute; reflexivity.
  - repeat constructor; simpl; vm_compute; lia.
  - vm_compute. reflexivity.
Defined.

(** C9, as stated, fails: on stores with the same contents the
    embedded-map resolver returns the key [$NAME], which the row resolver
    does not, and the row resolver returns a property stored under
    [__proto__], which the embedded-map resolver does not. *)
Lemma resolvers_differ :
  (unique_keys Sample.go_bare
   /\ equivalent Sample.unmarshal Sample.bare_store Sample.go_bare
   /\ exists resolved goresolved,
        resolveConfiguration 1 1 Sample.bare_store = Some resolved
        /\ Go.ResolveConfiguration Sample.unmarshal (fun rows => rows) 1 1 Sample.go_bare
           = Some (inr goresolved)
        /\ Js.own resolved !! dollar_NAME = Some (JStr "Bare")
        /\ Go.Properties goresolved !! dollar_NAME = None)
  /\ (unique_keys Sample.go_proto
      /\ equivalent Sample.unmarshal Sample.proto_store Sample.go_proto
      /\ exists resolved goresolved,
           resolveConfiguration 1 1 Sample.proto_store = Some resolved
           /\ Go.ResolveConfiguration Sample.unmarshal (fun rows => rows) 1 1 Sample.go_proto
              = Some (inr goresolved)
           /\ Js.own resolved !! Js.proto_key = None
           /\ Go.Properties goresolved !! Js.proto_key = Some (JNum 1%float)).
Proof.
  split; (split; [apply (bool_decide_unpack _); vm_compute; exact I|]);
    (split; [split; repeat constructor; vm_compute; reflexivity|]);
    do 2 eexists; repeat split; vm_compute; reflexivity.
Qed.

(** ** The same walk in the row-per-property variant *)

Lemma GetNodePath_shape rank go n node :
  Forall (fun g => match Go.ParentID g with
                   | Some p => (rank p < rank (Go.ID g))%nat
                   | None => True
                   end) (Go.config_nodes go) ->
  Go.GetNodeByID n go = Some node ->
  exists path,
    (forall fuel, (rank n < fuel)%nat -> Go.GetNodePath fuel n go = Some path)
    /\ last path = Some node
    /\ linked Go.ParentID Go.ID path
    /\ starts_at_boundary (fun i => Go.GetNodeByID i go) Go.ParentID path.
Proof.
  intros Hr Hn.
  assert (forall i g, Go.GetNodeByID i go = Some g -> Go.ID g = i /\ g ∈ Go.config_nodes go)
    as Hfound.
  { intros i g Hg%head_Some_elem_of. by apply list_elem_of_filter in Hg. }
  assert (forall i g p, Go.GetNodeByID i go = Some g -> Go.ParentID g = Some p ->
            (rank p < rank i)%nat) as Hdec.
  { intros i g p [<- Hin]%Hfound Hp. rewrite Forall_forall in Hr.
    specialize (Hr _ Hin). by rewrite Hp in Hr. }
  destruct (walk_terminates (fun i => Go.GetNodeByID i go) Go.ParentID rank Hdec
              (S (rank n)) (Some n) []) as [path Hpath]; [simpl; lia|].
  exists path. split.
  - intros fuel Hlt. unfold Go.GetNodePath. rewrite Go_path_loop_walk.
    apply (walk_fuel_mono _ _ (S (rank n))); [lia|done].
  - split; [by apply (walk_last (fun i => Go.GetNodeByID i go) Go.ParentID _ _ _ _ Hn Hpath)|].
    apply (walk_shape _ _ Go.ID (fun i g Hg => proj1 (Hfound i g Hg)) _ _ _ _) in Hpath;
      [done|done].
Qed.

(** The cyclic store is within reach of the routes: two creations and one
    update of [parentId]. *)
Example cyclic_store_reachable :
  let db1 := (Routes.post "alice" (mkCreateBody (Some "a") (Some "territory") None None None)
                100 (mkStore [] 1)).2 in
  let db2 := (Routes.post "alice" (mkCreateBody (Some "b") (Some "center") (Some 1) None None)
                101 db1).2 in
  (Routes.patch "alice" 1 (Some (mkUpdate None (Some (Some 2)) None None None)) 102 db2).2
  = Sample.cyclic_store.
Proof. vm_compute. reflexivity. Qed.

(** * Further properties of the store and its routes *)

(** ** Paths and configurations, from parent to child *)

(** X1: the path of a node of the store is the path of its parent
    followed by the node's own record; for a root, and for a node whose
    parent is missing, it is the record alone. *)
Theorem getConfigNodePath_child fuel d db r :
  getConfigNode d db = Some r ->
  getConfigNodePath (S fuel) d db
  = (fun above => above ++ [r])
      <$> match Node.parentId r with
          | Some q => getConfigNodePath fuel q db
          | None => Some []
          end.
Proof.
  intros Hd. unfold getConfigNodePath. simpl. rewrite Hd.
  destruct (Node.parentId r) as [q|].
  - by rewrite path_loop_walk, walk_acc, <- path_loop_walk.
  - by destruct fuel.
Qed.

Lemma getConfigNodePath_child_witness :
  getConfigNodePath 2 2 Sample.store
  = (fun above => above ++ [Sample.EastCoast])
      <$> match Node.parentId Sample.EastCoast with
          | Some q => getConfigNodePath 1 q Sample.store
          | None => Some []
          end.
Proof.
  apply (getConfigNodePath_child 1 2 Sample.store Sample.EastCoast).
  vm_compute. reflexivity.
Defined.

(** X2: the resolved configuration of a node is the resolved
    configuration of its parent to which the node's defaults, then its
    properties, then its name are applied; a root starts from the empty
    object.  So on every key other than [$NAME] and [__proto__] the child
    holds its own value when it has one and the parent's resolved value
    otherwise. *)
Theorem resolveConfiguration_child fuel d db r :
  getConfigNode d db = Some r ->
  resolveConfiguration (S fuel) d db
  = (fun inherited => apply_node inherited r)
      <$> match Node.parentId r with
          | Some q => resolveConfiguration fuel q db
          | None => Some Js.empty
          end
  /\ forall inherited k,
       k ≠ dollar_NAME -> k ≠ Js.proto_key ->
       Js.own (apply_node inherited r) !! k
       = match node_value r k with
         | Some v => Some v
         | None => Js.own inherited !! k
         end.
Proof.
  intros Hd. split.
  - unfold resolveConfiguration, getConfigNodePath. simpl path_loop. rewrite Hd.
    destruct (Node.parentId r) as [q|].
    + rewrite path_loop_walk, walk_acc, <- path_loop_walk.
      destruct (path_loop fuel db (Some q) []) as [above|]; [|done].
      simpl. by rewrite foldl_snoc.
    + by destruct fuel.
  - intros inherited k Hname Hproto.
    by rewrite own_apply_node_lookup, spec_step_lookup.
Qed.

Lemma resolveConfiguration_child_witness :
  resolveConfiguration 2 2 Sample.store
  = (fun inherited => apply_node inherited Sample.EastCoast)
      <$> match Node.parentId Sample.EastCoast with
          | Some q => resolveConfiguration 1 q Sample.store
          | None => Some Js.empty
          end
  /\ forall inherited k,
       k ≠ dollar_NAME -> k ≠ Js.proto_key ->
       Js.own (apply_node inherited Sample.EastCoast) !! k
       = match node_value Sample.EastCoast k with
         | Some v => Some v
         | None => Js.own inherited !! k
         end.
Proof.
  apply (resolveConfiguration_child 1 2 Sample.store Sample.EastCoast).
  vm_compute. reflexivity.
Defined.

Section walk_climbing.
Context {N : Type}.
Variable lookup : Z -> option N.
Variable parent : N -> option Z.
Variable ident : N -> Z.
Variable rank : Z -> nat.
Hypothesis lookup_ident : forall i n, lookup i = Some n -> ident n = i.
Hypothesis rank_decreases :
  forall i n p, lookup i = Some n -> parent n = Some p -> (rank p < rank i)%nat.

(** Ranks grow along what the walk returns, and stay below the rank of
    the node it started from. *)
Lemma walk_climbing fuel current acc path top :
  climbing rank ident acc ->
  match current with
  | Some c => Forall (fun b => (rank c < rank (ident b))%nat) acc /\ (rank c <= top)%nat
  | None => True
  end ->
  Forall (fun b => (rank (ident b) <= top)%nat) acc ->
  walk lookup parent fuel current acc = Some path ->
  climbing rank ident path /\ Forall (fun b => (rank (ident b) <= top)%nat) path.
Proof.
  revert current acc. induction fuel as [|fuel IH]; intros [c|] acc Hacc Hc Htop; simpl;
    try (by intros [= <-]).
  - destruct (lookup c); [done|]. by intros [= <-].
  - destruct (lookup c) as [node|] eqn:Hnode; [|by intros [= <-]].
    destruct Hc as [Hc Hctop]. pose proof (lookup_ident _ _ Hnode) as Hid.
    apply IH.
    + simpl. rewrite Hid. done.
    + destruct (parent node) as [p|] eqn:Hp; [|done].
      pose proof (rank_decreases _ _ _ Hnode Hp) as Hlt. split; [|lia].
      constructor; [by rewrite Hid|].
      eapply Forall_impl; [exact Hc|]. simpl. intros b Hb. lia.
    + constructor; [by rewrite Hid|done].
Qed.

Lemma climbing_NoDup (path : list N) :
  climbing rank ident path -> NoDup (ident <$> path).
Proof.
  induction path as [|a path IH]; [constructor|]. intros [Ha Hrest].
  rewrite fmap_cons. apply NoDup_cons. split; [|by apply IH].
  intros (b & Heq & Hb)%list_elem_of_fmap. rewrite Forall_forall in Ha.
  specialize (Ha _ Hb). rewrite Heq in Ha. lia.
Qed.

Lemma climbing_length (path : list N) lo top :
  climbing rank ident path ->
  Forall (fun b => (lo <= rank (ident b) <= top)%nat) path ->
  (length path <= S top - lo)%nat.
Proof.
  revert lo. induction path as [|a path IH]; intros lo Hcl Hin; simpl; [lia|].
  destruct Hcl as [Ha Hrest]. inversion_clear Hin as [|? ? Harange Hprange].
  specialize (IH (S (rank (ident a))) Hrest).
  assert (length path <= S top - S (rank (ident a)))%nat; [|lia].
  apply IH. rewrite Forall_forall in *. intros b Hb.
  specialize (Ha _ Hb). specialize (Hprange _ Hb). lia.
Qed.
End walk_climbing.

(** X3: on a store whose parent links form a forest, the path of [n] that
    is returned visits no id twice, and has at most [rank n + 1] nodes,
    the ranks growing from its first node to its last. *)
Theorem getConfigNodePath_no_repeat rank db n :
  ranked rank (config_nodes db) ->
  exists path,
    (forall fuel, (rank n < fuel)%nat -> getConfigNodePath fuel n db = Some path)
    /\ NoDup (ids path)
    /\ (length path <= S (rank n))%nat
    /\ climbing rank Node.id path.
Proof.
  intros Hr. destruct (getConfigNodePath_returns rank db n Hr) as [path Hpath].
  exists path. split; [done|].
  specialize (Hpath _ (Nat.lt_succ_diag_r _)).
  unfold getConfigNodePath in Hpath. rewrite path_loop_walk in Hpath.
  assert (forall i m, getConfigNode i db = Some m -> Node.id m = i) as Hident
    by (intros i m Hm; by apply getConfigNode_Some in Hm as [? _]).
  destruct (walk_climbing (fun i => getConfigNode i db) Node.parentId Node.id rank Hident
              (fun i m p => ranked_decreases rank db i m p Hr)
              (S (rank n)) (Some n) [] path (rank n)) as [Hcl Htop]; try done.
  split; [by apply (climbing_NoDup Node.id rank)|]. split; [|done].
  pose proof (climbing_length Node.id rank path 0 (rank n) Hcl) as Hlen.
  rewrite Nat.sub_0_r in Hlen. apply Hlen.
  eapply Forall_impl; [exact Htop|]. simpl. intros b Hb. lia.
Qed.

Lemma getConfigNodePath_no_repeat_witness :
  exists path,
    (forall fuel, (Sample.rank 2 < fuel)%nat ->
       getConfigNodePath fuel 2 Sample.store = Some path)
    /\ NoDup (ids path)
    /\ (length path <= S (Sample.rank 2))%nat
    /\ climbing Sample.rank Node.id path.
Proof.
  apply (getConfigNodePath_no_repeat Sample.rank Sample.store 2).
  repeat constructor; simpl; vm_compute; lia.
Defined.

(** ** What the routes answer *)

(** X4: an id that is not in the table.  When the id is within the range
    of the column, every route that names a node answers 404, with any
    fuel, and the storage layer itself signals nothing: the path is
    empty, the resolved configuration is the empty object, and an update
    whose parameters are accepted, its [parentId] being within the range
    too, returns no row.  When the id is outside
    the range, the lookup throws and every such route answers 500.  The
    store is left as it is in both cases. *)
Theorem routes_on_missing_node caller i db :
  getConfigNode i db = None ->
  (Sql.int4 i ->
   (forall fuel, Routes.get_resolve fuel caller i db
                 = Some (mkResponse 404 (Message "Config node not found")))
   /\ (forall fuel, Routes.get_path fuel caller i db
                    = Some (mkResponse 404 (Message "Config node not found")))
   /\ (forall parsed now, Routes.patch caller i parsed now db
                          = (mkResponse 404 (Message "Config node not found"), db))
   /\ (forall fuel, Routes.delete fuel caller i db
                    = Some (mkResponse 404 (Message "Config node not found"), db))
   /\ Reads.get_node caller i db = (404, None)
   /\ (forall fuel, getConfigNodePath fuel i db = Some []
                    /\ resolveConfiguration fuel i db = Some Js.empty)
   /\ (forall u now, is_Some (Sql.bind_update u) ->
                     (forall p, upd_parentId u = Some (Some p) -> Sql.int4 p) ->
                     updateConfigNode i u now db = Ok None db))
  /\ (~ Sql.int4 i ->
      (forall fuel, Routes.get_resolve fuel caller i db
                    = Some (mkResponse 500 (Message "Failed to resolve configuration")))
      /\ (forall fuel, Routes.get_path fuel caller i db
                       = Some (mkResponse 500 (Message "Failed to fetch config path")))
      /\ (forall parsed now, Routes.patch caller i parsed now db
                             = (mkResponse 500 (Message "Failed to update config node"), db))
      /\ (forall fuel, Routes.delete fuel caller i db
                       = Some (mkResponse 500 (Message "Failed to delete config node"), db))
      /\ Reads.get_node caller i db = (500, None)).
Proof.
  intros Hi.
  unfold Routes.get_resolve, Routes.get_path, Routes.patch, Routes.delete,
    Reads.get_node, getConfigNodeWithChildren, no_row.
  rewrite Hi. split; intros Hrange.
  - rewrite (bool_decide_eq_true_2 _ Hrange). repeat split; try done.
    + by apply getConfigNodePath_missing.
    + unfold resolveConfiguration. by rewrite (getConfigNodePath_missing _ _ _ Hi).
    + intros u now [sent Hsent] Hparent. unfold updateConfigNode, Sql.update.
      rewrite Hsent.
      destruct (bind_update_fields u sent Hsent) as (_ & -> & _).
      assert (Sql.parent_in_range (upd_parentId u) (config_nodes db) = true) as ->.
      { unfold Sql.parent_in_range. destruct (upd_parentId u) as [[p|]|]; try done.
        by rewrite (bool_decide_eq_true_2 _ (Hparent p eq_refl)). }
      unfold getConfigNode, Sql.select_by_id in Hi. apply head_None in Hi.
      by rewrite Hi.
  - rewrite (bool_decide_eq_false_2 _ Hrange). by repeat split.
Qed.

Lemma routes_on_missing_node_witness :
  (forall fuel, Routes.get_path fuel "alice" 9 Sample.store
                = Some (mkResponse 404 (Message "Config node not found")))
  /\ (forall fuel, Routes.get_path fuel "alice" 2147483648 Sample.store
                   = Some (mkResponse 500 (Message "Failed to fetch config path"))).
Proof.
  split.
  - destruct (routes_on_missing_node "alice" 9 Sample.store) as [Hin _].
    + vm_compute. reflexivity.
    + apply Hin. unfold Sql.int4. lia.
  - destruct (routes_on_missing_node "alice" 2147483648 Sample.store) as [_ Hout].
    + vm_compute. reflexivity.
    + apply Hout. unfold Sql.int4. lia.
Defined.

(** X5: for a node owned by somebody else, every route that names it
    answers 403 without reading or changing anything more: the store is
    as before, and the answer needs no fuel, whatever the parent links of
    the store look like. *)
Theorem routes_on_foreign_node caller i db node :
  getConfigNode i db = Some node ->
  Node.userId node ≠ caller ->
  (forall fuel, Routes.get_resolve fuel caller i db
                = Some (mkResponse 403 (Message "Access denied")))
  /\ (forall fuel, Routes.get_path fuel caller i db
                   = Some (mkResponse 403 (Message "Access denied")))
  /\ (forall parsed now, Routes.patch caller i parsed now db
                         = (mkResponse 403 (Message "Access denied"), db))
  /\ (forall fuel, Routes.delete fuel caller i db
                   = Some (mkResponse 403 (Message "Access denied"), db))
  /\ Reads.get_node caller i db = (403, None).
Proof.
  intros Hi Hown.
  unfold Routes.get_resolve, Routes.get_path, Routes.patch, Routes.delete,
    Reads.get_node, getConfigNodeWithChildren.
  rewrite Hi, (bool_decide_eq_true_2 _ Hown). done.
Qed.

Lemma routes_on_foreign_node_witness :
  (forall fuel, Routes.get_resolve fuel "bob" 1 Sample.cyclic_store
                = Some (mkResponse 403 (Message "Access denied")))
  /\ (forall fuel, Routes.get_path fuel "bob" 1 Sample.cyclic_store
                   = Some (mkResponse 403 (Message "Access denied")))
  /\ (forall parsed now, Routes.patch "bob" 1 parsed now Sample.cyclic_store
                         = (mkResponse 403 (Message "Access denied"), Sample.cyclic_store))
  /\ (forall fuel, Routes.delete fuel "bob" 1 Sample.cyclic_store
                   = Some (mkResponse 403 (Message "Access denied"), Sample.cyclic_store))
  /\ Reads.get_node "bob" 1 Sample.cyclic_store = (403, None).
Proof.
  apply (routes_on_foreign_node "bob" 1 Sample.cyclic_store
           (Node.mk 1 "a" (Some 2) "alice" (JObj ∅) (JObj ∅) "territory" 100 102)).
  - vm_compute. reflexivity.
  - discriminate.
Defined.

(** ** Creating *)


(** X7: a request without a name or without a node type is answered 400
    "Validation error"; a request that names the parent 0 is not checked
    against the parent's owner and, when no row has the id 0 and the
    sequence is not at 0, is answered 500 by the failed insertion.  All
    three leave the rows as they are. *)
Theorem post_rejections caller name nodeType n t parent props defs now db :
  0 ∉ ids (config_nodes db) ->
  config_nodes_id_seq db ≠ 0 ->
  Routes.post caller (mkCreateBody None nodeType parent props defs) now db
  = (mkResponse 400 (Message "Validation error"), db)
  /\ Routes.post caller (mkCreateBody name None parent props defs) now db
     = (mkResponse 400 (Message "Validation error"), db)
  /\ (Routes.post caller (mkCreateBody (Some n) (Some t) (Some 0) props defs) now db).1
     = mkResponse 500 (Message "Failed to create config node")
  /\ config_nodes
       (Routes.post caller (mkCreateBody (Some n) (Some t) (Some 0) props defs) now db).2
     = config_nodes db.
Proof.
  intros Hzero Hseq. split; [done|]. split; [by destruct name|].
  unfold Routes.post, parse_insert. simpl.
  unfold createConfigNode, Sql.insert.
  match goal with |- context [Sql.bind_insert ?v] =>
    destruct (Sql.bind_insert v) as [sent|] eqn:Hbind end; [|done].
  destruct (bind_insert_fields _ sent Hbind) as (_ & -> & _). simpl ins_parentId.
  set (row := Node.mk (config_nodes_id_seq db) (ins_name sent) (Some 0) (ins_userId sent)
                (default Sql.column_default (ins_properties sent))
                (default Sql.column_default (ins_defaults sent)) (ins_nodeType sent) now now).
  assert (Sql.references_ok (Some 0) (config_nodes db ++ [row]) = false) as ->.
  { apply bool_decide_eq_false_2. unfold ids. rewrite fmap_app.
    intros [Hin|Hin]%elem_of_app; [done|].
    apply list_elem_of_singleton in Hin. simpl in Hin. done. }
  by rewrite andb_false_r.
Qed.

Lemma post_rejections_witness :
  Routes.post "alice" (mkCreateBody None (Some "center") None None None) 200 Sample.store
  = (mkResponse 400 (Message "Validation error"), Sample.store)
  /\ Routes.post "alice" (mkCreateBody (Some "Zero") None None None None) 200 Sample.store
     = (mkResponse 400 (Message "Validation error"), Sample.store)
  /\ (Routes.post "alice" More.zero_body 200 Sample.store).1
     = mkResponse 500 (Message "Failed to create config node")
  /\ config_nodes (Routes.post "alice" More.zero_body 200 Sample.store).2
     = config_nodes Sample.store.
Proof.
  apply (post_rejections "alice" (Some "Zero") (Some "center") "Zero" "center"
           None None None 200 Sample.store).
  - vm_compute. intros Hin. repeat (apply elem_of_cons in Hin as [Hin|Hin]; [done|]).
    by apply elem_of_nil in Hin.
  - discriminate.
Defined.

(** The store a call leaves, returned or thrown. *)
Lemma insert_store v now db :
  Sql.insert v now db = Throw db
  \/ Sql.insert v now db = Throw (mkStore (config_nodes db) (config_nodes_id_seq db + 1))
  \/ exists name properties defaults nodeType,
       let row := Node.mk (config_nodes_id_seq db) name (ins_parentId v)
                    (ins_userId v) properties defaults nodeType now now in
       Sql.insert v now db
       = Ok row (mkStore (config_nodes db ++ [row]) (config_nodes_id_seq db + 1))
       /\ (config_nodes_id_seq db ∉ ids (config_nodes db))
       /\ Sql.references_ok (ins_parentId v) (config_nodes db ++ [row]) = true.
Proof.
  unfold Sql.insert. destruct (Sql.bind_insert v) as [sent|] eqn:Hbind; [|by left].
  destruct (bind_insert_fields v sent Hbind) as (_ & -> & -> & _).
  right.
  destruct (Sql.not_null_ok (ins_properties v)), (Sql.not_null_ok (ins_defaults v));
    simpl; try by left.
  case_bool_decide; simpl; [|by left].
  destruct (Sql.references_ok _ _) eqn:Hfk; [right|by left].
  by exists (ins_name sent), (default Sql.column_default (ins_properties sent)),
            (default Sql.column_default (ins_defaults sent)), (ins_nodeType sent).
Qed.

(** What [POST] does to the store: nothing, or what the insertion of the
    parsed request does, and then a non-zero parent is a row of the
    store. *)
Lemma post_store caller b now db :
  (Routes.post caller b now db).2 = db
  \/ exists v,
       parse_insert caller b = Some v
       /\ (forall p, ins_parentId v = Some p -> p ≠ 0 -> p ∈ ids (config_nodes db))
       /\ (Routes.post caller b now db).2
          = match Sql.insert v now db with Ok _ db' => db' | Throw db' => db' end.
Proof.
  unfold Routes.post. destruct (parse_insert caller b) as [v|]; [|by left].
  unfold createConfigNode, truthy.
  destruct (ins_parentId v) as [p|] eqn:Hp.
  - case_bool_decide as Hz.
    + right. exists v. split; [done|]. split; [intros q Hq Hnz; congruence|].
      by destruct (Sql.insert v now db).
    + destruct (getConfigNode p db) as [parent|] eqn:Hpar; [|by left].
      case_bool_decide; [by left|]. right. exists v. split; [done|]. split.
      * intros q Hq _. assert (q = p) as -> by congruence.
        apply getConfigNode_is_Some. by eexists.
      * by destruct (Sql.insert v now db).
  - right. exists v. split; [done|]. split; [intros q Hq; congruence|].
    by destruct (Sql.insert v now db).
Qed.

Lemma issued_seq_succ rows seq :
  issued (mkStore rows seq) -> issued (mkStore rows (seq + 1)).
Proof.
  unfold issued. simpl. intros Hi. eapply Forall_impl; [exact Hi|].
  simpl. intros n [Hid Hp]. split; [lia|].
  destruct (Node.parentId n); [lia|done].
Qed.

(** X8: creating keeps the store well formed.  If every id and parent
    reference was issued by the sequence, the ids are unique, the parent
    links form a forest and the sequence is positive, then the same holds
    after any [POST], accepted or not: no request creates a duplicate id,
    a reference to an id not yet issued, or a cycle. *)
Theorem post_keeps_invariants rank caller b now db :
  issued db -> unique_ids db -> ranked rank (config_nodes db) ->
  0 < config_nodes_id_seq db ->
  issued (Routes.post caller b now db).2
  /\ unique_ids (Routes.post caller b now db).2
  /\ (exists rank', ranked rank' (config_nodes (Routes.post caller b now db).2))
  /\ 0 < config_nodes_id_seq (Routes.post caller b now db).2.
Proof.
  intros Hi Hu Hr Hseq.
  destruct (post_store caller b now db) as [->|(v & _ & Hparent & ->)];
    [split; [done|split; [done|split; [by exists rank|done]]]|].
  destruct db as [rows seq]. simpl in *.
  destruct (insert_store v now (mkStore rows seq))
    as [->|[->|(name & properties & defaults & nodeType & -> & Hfresh & Hfk)]]; simpl in *.
  { split; [done|]. split; [done|]. split; [by exists rank|done]. }
  { split; [by apply issued_seq_succ|]. split; [done|]. split; [by exists rank|lia]. }
  pose proof Hi as Hi'. unfold issued in Hi'. simpl in Hi'. rewrite Forall_forall in Hi'.
  (* the parent of the new row is an older row *)
  assert (forall p, ins_parentId v = Some p -> p ∈ ids rows) as Hold.
  { intros p Hp. destruct (decide (p = 0)) as [->|Hnz]; [|by apply Hparent].
    rewrite Hp in Hfk. simpl in Hfk. apply bool_decide_eq_true_1 in Hfk.
    unfold ids in Hfk. rewrite fmap_app in Hfk.
    apply elem_of_app in Hfk as [Hin|Hin]; [done|].
    apply list_elem_of_singleton in Hin. simpl in Hin. lia. }
  assert (forall p, p ∈ ids rows -> p < seq) as Hlt.
  { intros p (n & -> & Hn)%list_elem_of_fmap. by destruct (Hi' _ Hn). }
  split; [|split; [|split; [|lia]]].
  - unfold issued. simpl. apply Forall_app. split.
    + by apply (issued_seq_succ rows seq).
    + constructor; [|done]. simpl. split; [lia|].
      destruct (ins_parentId v) as [p|] eqn:Hp; [|done].
      specialize (Hlt p (Hold p eq_refl)). lia.
  - unfold unique_ids, ids in *. simpl in *. rewrite fmap_app. apply NoDup_app.
    split; [done|]. split; [|apply NoDup_singleton].
    intros x Hx ->%list_elem_of_singleton. done.
  - destruct (ins_parentId v) as [p|] eqn:Hp.
    + exists (fun i => if bool_decide (i = seq) then S (rank p) else rank i).
      specialize (Hlt p (Hold p eq_refl)).
      unfold ranked. apply Forall_app. split.
      * unfold ranked in Hr. rewrite Forall_forall in Hr. apply Forall_forall.
        intros n Hn. specialize (Hr _ Hn). destruct (Hi' _ Hn) as [Hid Hq].
        rewrite (bool_decide_eq_false_2 (Node.id n = seq)) by lia.
        destruct (Node.parentId n) as [q|]; [|done].
        by rewrite (bool_decide_eq_false_2 (q = seq)) by lia.
      * constructor; [|done]. simpl.
        rewrite (bool_decide_eq_false_2 (p = seq)) by lia.
        rewrite bool_decide_eq_true_2 by done. lia.
    + exists rank. unfold ranked. apply Forall_app. split; [done|].
      constructor; [|done]. simpl. by rewrite ?Hp.
Qed.

Lemma post_keeps_invariants_witness :
  issued (Routes.post "alice" Sample.west_body 200 Sample.store).2
  /\ unique_ids (Routes.post "alice" Sample.west_body 200 Sample.store).2
  /\ (exists rank',
        ranked rank' (config_nodes (Routes.post "alice" Sample.west_body 200 Sample.store).2))
  /\ 0 < config_nodes_id_seq (Routes.post "alice" Sample.west_body 200 Sample.store).2.
Proof.
  apply (post_keeps_invariants Sample.rank "alice" Sample.west_body 200 Sample.store).
  - repeat constructor; simpl; lia.
  - apply (bool_decide_unpack _). vm_compute. exact I.
  - repeat constructor; simpl; vm_compute; lia.
  - reflexivity.
Defined.

Lemma path_loop_rows fuel db db' current acc :
  config_nodes db' = config_nodes db ->
  path_loop fuel db' current acc = path_loop fuel db current acc.
Proof.
  intros Hrows.
  assert (forall i, getConfigNode i db' = getConfigNode i db) as Hget
    by (intros i; unfold getConfigNode, Sql.select_by_id; by rewrite Hrows).
  revert current acc. induction fuel as [|fuel IH]; intros [c|] acc; simpl;
    rewrite ?Hget; try done.
  destruct (getConfigNode c db); [apply IH|done].
Qed.

(** X9: creating a node changes nothing for the nodes that exist: after
    any [POST] on a store whose ids and parent references were issued by
    the sequence, every id below the sequence has the record, the path and
    the resolved configuration it had before, with the same fuel. *)
Theorem post_leaves_existing caller b now db j :
  issued db -> j < config_nodes_id_seq db ->
  getConfigNode j (Routes.post caller b now db).2 = getConfigNode j db
  /\ forall fuel,
       getConfigNodePath fuel j (Routes.post caller b now db).2
       = getConfigNodePath fuel j db
       /\ resolveConfiguration fuel j (Routes.post caller b now db).2
          = resolveConfiguration fuel j db.
Proof.
  intros Hi Hj.
  assert (forall fuel, getConfigNodePath fuel j (Routes.post caller b now db).2
                       = getConfigNodePath fuel j db) as Hpath.
  { intros fuel. unfold getConfigNodePath.
    destruct (post_store caller b now db) as [->|(v & _ & _ & ->)]; [done|].
    destruct (insert_store v now db) as [->|[->|(name & properties & defaults & nodeType & -> & _ & _)]].
    - done.
    - by apply path_loop_rows.
    - by apply path_loop_append. }
  split.
  - destruct (post_store caller b now db) as [->|(v & _ & _ & ->)]; [done|].
    destruct (insert_store v now db) as [->|[->|(name & properties & defaults & nodeType & -> & _ & _)]];
      [done|done|].
    apply getConfigNode_append_other. simpl. lia.
  - intros fuel. split; [done|]. unfold resolveConfiguration. by rewrite Hpath.
Qed.

Lemma post_leaves_existing_witness :
  getConfigNode 2 (Routes.post "alice" Sample.west_body 200 Sample.store).2
  = getConfigNode 2 Sample.store
  /\ forall fuel,
       getConfigNodePath fuel 2 (Routes.post "alice" Sample.west_body 200 Sample.store).2
       = getConfigNodePath fuel 2 Sample.store
       /\ resolveConfiguration fuel 2 (Routes.post "alice" Sample.west_body 200 Sample.store).2
          = resolveConfiguration fuel 2 Sample.store.
Proof.
  apply (post_leaves_existing "alice" Sample.west_body 200 Sample.store 2).
  - repeat constructor; simpl; lia.
  - reflexivity.
Defined.

(** ** Updating *)

(** What [PATCH] does to the store: nothing, or the update of the rows
    with the id [i], accepted by the database, of a node of the caller;
    [sent] holds the values as the server read them. *)
Lemma patch_store caller i parsed now db :
  (Routes.patch caller i parsed now db).2 = db
  \/ exists u sent node,
       parsed = Some u
       /\ upd_parentId sent = upd_parentId u
       /\ getConfigNode i db = Some node
       /\ Node.userId node = caller
       /\ (Routes.patch caller i parsed now db).1
          = mkResponse 200 (NodeBody (Sql.set_row sent now node))
       /\ (Routes.patch caller i parsed now db).2
          = mkStore ((fun n => if bool_decide (Node.id n = i)
                               then Sql.set_row sent now n else n) <$> config_nodes db)
                    (config_nodes_id_seq db)
       /\ Forall (fun n =>
                    Node.parentId (Sql.set_row sent now n) = Node.parentId n
                    \/ Sql.references_ok (Node.parentId (Sql.set_row sent now n))
                         (config_nodes db) = true)
                 (filter (fun n => Node.id n = i) (config_nodes db)).
Proof.
  unfold Routes.patch. destruct (getConfigNode i db) as [node|] eqn:Hnode; [|by left].
  case_bool_decide as Hown; [by left|]. destruct parsed as [u|]; [|by left].
  unfold updateConfigNode, Sql.update.
  destruct (Sql.bind_update (Zod.update u)) as [sent|] eqn:Hbind; [|by left].
  destruct (bind_update_fields _ _ Hbind) as (_ & Hparent & _).
  unfold getConfigNode, Sql.select_by_id in Hnode.
  destruct (filter (fun n => Node.id n = i) (config_nodes db)) as [|first hit] eqn:Hhit;
    [done|]. injection Hnode as ->.
  rewrite bool_decide_eq_false_2 by done.
  destruct (Sql.parent_in_range _ _); simpl negb; cbv iota; [|by left].
  destruct (Sql.not_null_ok (upd_properties (Zod.update u))
            && Sql.not_null_ok (upd_defaults (Zod.update u)));
    [|by left]. rewrite andb_true_l.
  destruct (forallb _ (node :: hit)) eqn:Hfk; [|by left].
  right. exists u, sent, node. split; [done|].
  split; [done|]. split; [done|].
  split; [exact Hown|]. split; [done|]. split; [done|].
  apply Forall_forall. intros n Hn.
  rewrite forallb_forall in Hfk. specialize (Hfk n (proj1 (list_elem_of_In _ _) Hn)).
  apply orb_true_iff in Hfk as [Hsame|Hok]; [left|by right].
  by apply bool_decide_eq_true_1 in Hsame.
Qed.

Lemma ids_set_rows i u now (rows : list ConfigNode) :
  ids ((fun n => if bool_decide (Node.id n = i) then Sql.set_row u now n else n) <$> rows)
  = ids rows.
Proof.
  unfold ids. rewrite <- list_fmap_compose. apply list_fmap_ext.
  intros k n _. simpl. by case_bool_decide.
Qed.

(** X10: updating keeps the primary key and the references: after any
    [PATCH], accepted or not, the ids are those of before (so they stay
    unique), every id and parent reference is still one the sequence has
    issued, and the sequence has not moved; and a request that supplies no
    [parentId] keeps every parent link, so a forest stays one under the
    same ranks. *)
Theorem patch_keeps_invariants rank caller i parsed now db :
  unique_ids db -> issued db ->
  ids (config_nodes (Routes.patch caller i parsed now db).2) = ids (config_nodes db)
  /\ unique_ids (Routes.patch caller i parsed now db).2
  /\ issued (Routes.patch caller i parsed now db).2
  /\ config_nodes_id_seq (Routes.patch caller i parsed now db).2 = config_nodes_id_seq db
  /\ (match parsed with Some u => upd_parentId u = None | None => True end ->
      ranked rank (config_nodes db) ->
      ranked rank (config_nodes (Routes.patch caller i parsed now db).2)).
Proof.
  intros Hu Hi.
  destruct (patch_store caller i parsed now db)
    as [->|(u & sent & node & -> & Hsent & _ & _ & _ & -> & Hfk)]; [done|]. simpl.
  rewrite ids_set_rows. split; [done|].
  split; [unfold unique_ids; simpl; by rewrite ids_set_rows|].
  pose proof Hi as Hi'. unfold issued in Hi'. rewrite Forall_forall in Hi'.
  split; [|split; [done|]].
  - unfold issued. simpl. apply Forall_fmap, Forall_forall. intros n Hn. simpl.
    destruct (Hi' _ Hn) as [Hid Hp].
    case_bool_decide as Hni; [|done]. simpl. split; [done|].
    rewrite Forall_forall in Hfk.
    destruct (Hfk n) as [Hsame|Hok]; [by apply list_elem_of_filter| |].
    + simpl in Hsame. by rewrite Hsame.
    + simpl in Hok. destruct (default (Node.parentId n) (upd_parentId sent)) as [p|]; [|done].
      simpl in Hok. apply bool_decide_eq_true_1 in Hok.
      apply list_elem_of_fmap in Hok as (m & -> & Hm). by destruct (Hi' _ Hm).
  - intros Hnone Hr. unfold ranked in *. apply Forall_fmap.
    eapply Forall_impl; [exact Hr|]. simpl. intros n Hn.
    case_bool_decide; [|done]. simpl. by rewrite Hsent, Hnone.
Qed.

Lemma patch_keeps_invariants_witness :
  ids (config_nodes (Routes.patch "alice" 1 (Some Sample.rename) 300 Sample.store).2)
  = ids (config_nodes Sample.store)
  /\ unique_ids (Routes.patch "alice" 1 (Some Sample.rename) 300 Sample.store).2
  /\ issued (Routes.patch "alice" 1 (Some Sample.rename) 300 Sample.store).2
  /\ config_nodes_id_seq (Routes.patch "alice" 1 (Some Sample.rename) 300 Sample.store).2
     = config_nodes_id_seq Sample.store
  /\ (match Some Sample.rename with Some u => upd_parentId u = None | None => True end ->
      ranked Sample.rank (config_nodes Sample.store) ->
      ranked Sample.rank
        (config_nodes (Routes.patch "alice" 1 (Some Sample.rename) 300 Sample.store).2)).
Proof.
  apply (patch_keeps_invariants Sample.rank "alice" 1 (Some Sample.rename) 300 Sample.store).
  - apply (bool_decide_unpack _). vm_compute. exact I.
  - repeat constructor; simpl; lia.
Defined.

Section walk_agree.
Context {N : Type}.
Variable lookup lookup' : Z -> option N.
Variable parent : N -> option Z.
Variable ident : N -> Z.
Variable changed : Z.
Hypothesis lookup_ident : forall i n, lookup i = Some n -> ident n = i.
Hypothesis changed_there : is_Some (lookup changed).
Hypothesis agree : forall j, j ≠ changed -> lookup' j = lookup j.

(** A walk that does not meet the one id on which two stores differ is
    the same in both. *)
Lemma walk_agree fuel current acc path :
  walk lookup parent fuel current acc = Some path ->
  changed ∉ (ident <$> path) ->
  walk lookup' parent fuel current acc = Some path.
Proof.
  revert current acc. induction fuel as [|fuel IH]; intros [c|] acc; simpl; try done.
  - destruct (decide (c = changed)) as [->|Hc].
    + destruct changed_there as [n Hn]. by rewrite Hn.
    + by rewrite agree.
  - destruct (decide (c = changed)) as [->|Hc].
    + destruct changed_there as [n Hn]. rewrite Hn. intros Hwalk Hnot.
      destruct (walk_grows _ _ _ _ _ _ Hwalk) as [climbed ->].
      destruct Hnot. rewrite fmap_app, fmap_cons, (lookup_ident _ _ Hn).
      apply elem_of_app. right. left.
    + rewrite agree by done. destruct (lookup c); [apply IH|done].
Qed.
End walk_agree.

(** X11: an update does not reach the nodes whose path does not go
    through the updated node: when the path of [n] is returned and does
    not contain [i], then after any [PATCH] of [i] the same path and the
    same resolved configuration are returned for [n], with the same
    fuel. *)
Theorem patch_off_path caller i parsed now db n fuel path :
  getConfigNodePath fuel n db = Some path ->
  i ∉ ids path ->
  getConfigNodePath fuel n (Routes.patch caller i parsed now db).2 = Some path
  /\ resolveConfiguration fuel n (Routes.patch caller i parsed now db).2
     = resolveConfiguration fuel n db.
Proof.
  intros Hpath Hoff.
  assert (getConfigNodePath fuel n (Routes.patch caller i parsed now db).2 = Some path)
    as Hsame.
  { destruct (patch_store caller i parsed now db)
      as [->|(u & sent & node & _ & _ & Hnode & _ & _ & -> & _)]; [done|].
    unfold getConfigNodePath in *. rewrite path_loop_walk in *.
    apply (walk_agree (fun j => getConfigNode j db) _ Node.parentId Node.id i);
      [|by eexists| |done|done].
    - intros j m Hm. by apply getConfigNode_Some in Hm as [? _].
    - intros j Hj.
      rewrite (getConfigNode_fmap
                 (fun n => if bool_decide (Node.id n = i) then Sql.set_row sent now n else n))
        by (intros m; by case_bool_decide).
      destruct (getConfigNode j db) as [m|] eqn:Hm; [|done]. simpl.
      apply getConfigNode_Some in Hm as [Hm _].
      rewrite bool_decide_eq_false_2; [done|congruence]. }
  split; [done|]. unfold resolveConfiguration. by rewrite Hsame, Hpath.
Qed.

Lemma patch_off_path_witness :
  getConfigNodePath 1 1 (Routes.patch "alice" 2 (Some Sample.rename) 300 Sample.store).2
  = Some [Sample.Production]
  /\ resolveConfiguration 1 1 (Routes.patch "alice" 2 (Some Sample.rename) 300 Sample.store).2
     = resolveConfiguration 1 1 Sample.store.
Proof.
  apply (patch_off_path "alice" 2 (Some Sample.rename) 300 Sample.store 1 1
           [Sample.Production]).
  - vm_compute. reflexivity.
  - apply (bool_decide_unpack _). vm_compute. exact I.
Defined.

Lemma self_parent_walk fuel db i node :
  getConfigNode i db = Some node -> Node.parentId node = Some i ->
  forall acc, path_loop fuel db (Some i) acc = None.
Proof.
  intros Hnode Hp. induction fuel as [|fuel IH]; intros acc; simpl; rewrite Hnode; [done|].
  rewrite Hp. apply IH.
Qed.

(** X12: [PATCH] takes any existing node as the new parent: the owner of
    a node may hang it under a node of any owner, and under itself; the
    request is answered 200 with the new link stored.  After hanging a
    node under itself, the path route never answers for it. *)
Theorem patch_reparents_anywhere caller i p now db node :
  getConfigNode i db = Some node ->
  Node.userId node = caller ->
  p ∈ ids (config_nodes db) ->
  exists node' db',
    Routes.patch caller i (Some (mkUpdate None (Some (Some p)) None None None)) now db
    = (mkResponse 200 (NodeBody node'), db')
    /\ getConfigNode i db' = Some node'
    /\ Node.parentId node' = Some p
    /\ Node.userId node' = caller
    /\ (p = i -> forall fuel, Routes.get_path fuel caller i db' = None).
Proof.
  intros Hnode Hown Hp.
  set (u := mkUpdate None (Some (Some p)) None None None).
  set (f := fun n => if bool_decide (Node.id n = i) then Sql.set_row u now n else n).
  assert (forall n, Node.id (f n) = Node.id n) as Hid
    by (intros n; unfold f; by case_bool_decide).
  assert (getConfigNode i (mkStore (f <$> config_nodes db) (config_nodes_id_seq db))
          = Some (Sql.set_row u now node)) as Hget.
  { rewrite getConfigNode_fmap, Hnode by done. simpl. unfold f.
    apply getConfigNode_Some in Hnode as [Hi _]. by rewrite (bool_decide_eq_true_2 _ Hi). }
  exists (Sql.set_row u now node),
         (mkStore (f <$> config_nodes db) (config_nodes_id_seq db)).
  split; [|split; [done|split; [done|split; [done|]]]].
  - unfold Routes.patch. rewrite Hnode.
    rewrite bool_decide_eq_false_2 by (by intros []).
    unfold updateConfigNode, Sql.update.
    change (Sql.bind_update (Zod.update u)) with (Some u). fold f.
    unfold getConfigNode, Sql.select_by_id in Hnode.
    destruct (filter (fun n => Node.id n = i) (config_nodes db)) as [|first hit] eqn:Hhit;
      [done|]. injection Hnode as ->.
    rewrite bool_decide_eq_false_2 by done.
    assert (Sql.parent_in_range (upd_parentId u) (config_nodes db) = true) as ->
      by (simpl; by rewrite (bool_decide_eq_true_2 _ Hp), orb_true_r).
    simpl negb. cbv iota.
    assert (forallb (fun n =>
              bool_decide (Node.parentId (Sql.set_row u now n) = Node.parentId n)
              || Sql.references_ok (Node.parentId (Sql.set_row u now n)) (config_nodes db))
              (node :: hit) = true) as ->; [|done].
    apply forallb_forall. intros n _. apply orb_true_iff. right. simpl.
    by apply bool_decide_eq_true_2.
  - intros -> fuel. unfold Routes.get_path. rewrite Hget. simpl Node.userId.
    rewrite bool_decide_eq_false_2 by (by intros []).
    unfold getConfigNodePath. by rewrite (self_parent_walk _ _ _ _ Hget).
Qed.

Lemma patch_reparents_anywhere_witness :
  exists node' db',
    Routes.patch "bob" 3 (Some (mkUpdate None (Some (Some 1)) None None None)) 300
      More.shared_store
    = (mkResponse 200 (NodeBody node'), db')
    /\ getConfigNode 3 db' = Some node'
    /\ Node.parentId node' = Some 1
    /\ Node.userId node' = "bob"
    /\ (1 = 3 -> forall fuel, Routes.get_path fuel "bob" 3 db' = None).
Proof.
  apply (patch_reparents_anywhere "bob" 3 1 300 More.shared_store More.Guest).
  - vm_compute. reflexivity.
  - reflexivity.
  - apply (bool_decide_unpack _). vm_compute. exact I.
Defined.

(** ** Deleting *)

Lemma descends_mono (rows rows' : list ConfigNode) i r :
  rows ⊆ rows' -> descends rows i r -> descends rows' i r.
Proof.
  intros Hsub. induction 1 as [i r Hid|i c r Hc Hp _ IH].
  - by apply descends_self.
  - apply (descends_child _ i c); [by apply Hsub|done|done].
Qed.

Lemma for_of_keeps_rest recur children :
  keeps_rest recur ->
  forall db db1,
    for_of (delete_child recur) children db = Some (Ok tt db1) ->
    config_nodes db1 ⊆ config_nodes db
    /\ forall r, r ∈ config_nodes db ->
         Forall (fun c => ~ descends (config_nodes db) (Node.id c) r) children ->
         r ∈ config_nodes db1.
Proof.
  intros Hrec. induction children as [|c children IH]; intros db db1; simpl.
  - intros [= <-]. by split.
  - unfold delete_child at 1.
    destruct (recur (Node.id c) db) as [[b dbc|?]|] eqn:Hc; [|done|done].
    intros Hloop. destruct (Hrec _ _ _ _ Hc) as [Hsub Hkeep].
    destruct (IH _ _ Hloop) as [Hsub1 Hkeep1].
    split; [by etrans|]. intros r Hr Hnot.
    inversion_clear Hnot as [|? ? Hnc Hrest].
    apply Hkeep1; [by apply Hkeep|].
    eapply Forall_impl; [exact Hrest|]. simpl.
    intros c' Hc' Hdesc. apply Hc'. by apply (descends_mono (config_nodes dbc)).
Qed.

Lemma deleteConfigNode_keeps_rest fuel : keeps_rest (deleteConfigNode fuel).
Proof.
  induction fuel as [|fuel IH]; intros i db b db'; [done|]. simpl.
  destruct (for_of _ _ db) as [[[] db1|?]|] eqn:Hloop; [|done|done].
  destruct (for_of_keeps_rest _ _ IH _ _ Hloop) as [Hsub1 Hkeep1].
  assert (forall r, r ∈ config_nodes db -> ~ descends (config_nodes db) i r ->
                    r ∈ config_nodes db1) as Hkept.
  { intros r Hr Hnot. apply Hkeep1; [done|]. apply Forall_forall.
    intros c [Hp Hc]%list_elem_of_filter Hdesc.
    apply Hnot. by apply (descends_child _ i c). }
  unfold Sql.delete. case_bool_decide.
  - intros [= _ <-]. by split.
  - destruct (forallb _ _); [|done]. intros [= _ <-]. simpl. split.
    + intros r [_ Hr]%list_elem_of_filter. by apply Hsub1.
    + intros r Hr Hnot. apply list_elem_of_filter. split; [|by apply Hkept].
      intros Hid. apply Hnot. by apply descends_self.
Qed.

Section on_path.
Context {N : Type}.
Variable lookup : Z -> option N.
Variable parent : N -> option Z.
Variable ident : N -> Z.

(** In a linked path, the parent of every element but the first is the
    element before it. *)
Lemma parent_before a (rest : list N) c i :
  linked parent ident (a :: rest) -> c ∈ rest -> parent c = Some i ->
  i ∈ (ident <$> a :: rest).
Proof.
  revert a. induction rest as [|b rest IH]; intros a Hl Hc Hp;
    [by apply elem_of_nil in Hc|].
  destruct Hl as [Hab Hl]. apply elem_of_cons in Hc as [->|Hc].
  - rewrite Hp in Hab. injection Hab as ->. rewrite fmap_cons. left.
  - rewrite fmap_cons. right. by apply (IH b).
Qed.

(** The same walk in a store that still finds every node of the path and
    finds nothing new. *)
Lemma walk_still lookup' fuel current acc path :
  (forall j, lookup j = None -> lookup' j = None) ->
  (forall j n, lookup j = Some n -> n ∈ path -> lookup' j = Some n) ->
  walk lookup parent fuel current acc = Some path ->
  walk lookup' parent fuel current acc = Some path.
Proof.
  intros Hnone Hsome. revert current acc.
  induction fuel as [|fuel IH]; intros [c|] acc; simpl; try done.
  - destruct (lookup c) eqn:Hc; [done|]. by rewrite (Hnone _ Hc).
  - destruct (lookup c) as [n|] eqn:Hc; [|by rewrite (Hnone _ Hc)].
    intros Hwalk. rewrite (Hsome _ _ Hc); [by apply IH|].
    destruct (walk_grows _ _ _ _ _ _ Hwalk) as [climbed ->].
    apply elem_of_app. right. left.
Qed.
End on_path.

Lemma getConfigNode_of_row db c :
  unique_ids db -> c ∈ config_nodes db -> getConfigNode (Node.id c) db = Some c.
Proof.
  intros Hu Hc. destruct (getConfigNode (Node.id c) db) as [c'|] eqn:Hget.
  - apply getConfigNode_Some in Hget as [Hid Hin].
    f_equal. by apply (unique_ids_eq (config_nodes db)).
  - apply getConfigNode_None in Hget. destruct Hget. by apply elem_of_ids.
Qed.

(** A node of a returned path that descends from an id of the store has
    that id on the path. *)
Lemma descends_on_path db i m fuel d path :
  unique_ids db ->
  getConfigNodePath fuel d db = Some path ->
  descends (config_nodes db) i m -> m ∈ path ->
  is_Some (getConfigNode i db) -> i ∈ ids path.
Proof.
  intros Hu Hpath Hdesc.
  assert (forall j n, getConfigNode j db = Some n -> Node.id n = j) as Hident
    by (intros j n Hn; by apply getConfigNode_Some in Hn as [? _]).
  unfold getConfigNodePath in Hpath. rewrite path_loop_walk in Hpath.
  pose proof (walk_in_store _ _ Node.id Hident _ _ _ _ (Forall_nil_2 _) Hpath) as Hstore.
  apply (walk_shape _ _ Node.id Hident) in Hpath as [Hlinked Hbound]; [|done].
  rewrite Forall_forall in Hstore.
  induction Hdesc as [i m Hid|i c m Hc Hp _ IH]; intros Hm Hi.
  - subst i. by apply elem_of_ids.
  - assert (Node.id c ∈ ids path) as (c' & Heq & Hc')%list_elem_of_fmap.
    { apply IH; [done|]. rewrite getConfigNode_of_row by done. by eexists. }
    assert (c' = c) as ->.
    { apply (unique_ids_eq (config_nodes db)); [done| |done|done].
      by apply (getConfigNode_Some (Node.id c')), Hstore. }
    destruct path as [|a rest]; [by apply elem_of_nil in Hc'|].
    apply elem_of_cons in Hc' as [->|Hc'].
    + simpl in Hbound. rewrite Hp in Hbound. rewrite Hbound in Hi. by destruct Hi.
    + by apply (parent_before Node.parentId Node.id a rest c).
Qed.

(** X13: deleting removes nothing but the subtree.  On a store with
    unique ids whose parent links form a forest, after the owner's
    [DELETE] of [p] every node whose path did not go through [p] has the
    record, the path and the resolved configuration it had before. *)
Theorem delete_keeps_rest rank bound caller p db node :
  unique_ids db ->
  ranked rank (config_nodes db) ->
  rank_below rank bound (config_nodes db) ->
  getConfigNode p db = Some node ->
  Node.userId node = caller ->
  exists db',
    Routes.delete (S bound) caller p db = Some (mkResponse 204 NoBody, db')
    /\ forall d r fuel path,
         getConfigNode d db = Some r ->
         getConfigNodePath fuel d db = Some path ->
         p ∉ ids path ->
         getConfigNode d db' = Some r
         /\ getConfigNodePath fuel d db' = Some path
         /\ resolveConfiguration fuel d db' = resolveConfiguration fuel d db.
Proof.
  intros Hu Hr Hb Hp Hown.
  destruct (deleteConfigNode_spec rank bound (S bound) p db Hr Hb) as
    (db' & Hdel & _ & _); [lia|].
  rewrite bool_decide_eq_true_2 in Hdel
    by (apply getConfigNode_is_Some; by eexists).
  destruct (deleteConfigNode_keeps_rest _ _ _ _ _ Hdel) as [Hsub Hkeep].
  exists db'. split.
  { unfold Routes.delete. rewrite Hp, Hdel.
    rewrite bool_decide_eq_false_2; [done|]. by intros []. }
  intros d r fuel path Hd Hpath Hoff.
  assert (forall j n, getConfigNode j db = Some n -> Node.id n = j) as Hident
    by (intros j n Hn; by apply getConfigNode_Some in Hn as [? _]).
  (* every node of the path is still found *)
  assert (forall j n, getConfigNode j db = Some n -> n ∈ path ->
                      getConfigNode j db' = Some n) as Hstill.
  { intros j n Hn Hin. pose proof (getConfigNode_Some _ _ _ Hn) as [<- Hrow].
    assert (n ∈ config_nodes db') as Hn'.
    { apply Hkeep; [done|]. intros Hdesc. apply Hoff.
      apply (descends_on_path db p n fuel d path); done. }
    destruct (getConfigNode (Node.id n) db') as [n'|] eqn:Hget.
    - apply getConfigNode_Some in Hget as [Hid Hin'].
      f_equal. apply (unique_ids_eq (config_nodes db)); auto.
    - apply getConfigNode_None in Hget. destruct Hget. by apply elem_of_ids. }
  assert (forall j, getConfigNode j db = None -> getConfigNode j db' = None) as Hnone.
  { intros j Hj. apply getConfigNode_None. rewrite getConfigNode_None in Hj.
    intros Hin. apply Hj. by apply (ids_subseteq _ _ _ Hsub). }
  assert (getConfigNodePath fuel d db' = Some path) as Hsame.
  { unfold getConfigNodePath in *. rewrite path_loop_walk in *.
    by apply (walk_still (fun j => getConfigNode j db) Node.parentId
                (fun j => getConfigNode j db')). }
  split; [|split; [done|]].
  - apply Hstill; [done|].
    by apply last_Some_elem_of, (getConfigNodePath_last fuel d db).
  - unfold resolveConfiguration. by rewrite Hsame, Hpath.
Qed.

Lemma delete_keeps_rest_witness :
  exists db',
    Routes.delete 4 "alice" 2 Sample.store = Some (mkResponse 204 NoBody, db')
    /\ forall d r fuel path,
         getConfigNode d Sample.store = Some r ->
         getConfigNodePath fuel d Sample.store = Some path ->
         2 ∉ ids path ->
         getConfigNode d db' = Some r
         /\ getConfigNodePath fuel d db' = Some path
         /\ resolveConfiguration fuel d db' = resolveConfiguration fuel d Sample.store.
Proof.
  apply (delete_keeps_rest Sample.rank 3 "alice" 2 Sample.store Sample.EastCoast).
  - apply (bool_decide_unpack _). vm_compute. exact I.
  - repeat constructor; simpl; vm_compute; lia.
  - repeat constructor; simpl; vm_compute; lia.
  - vm_compute. reflexivity.
  - reflexivity.
Defined.

(** Deleting takes no value from the sequence. *)
Lemma for_of_seq (body : ConfigNode -> Store -> option (res unit)) :
  (forall x db r, body x db = Some r ->
                  config_nodes_id_seq (left_by r) = config_nodes_id_seq db) ->
  forall xs db r, for_of body xs db = Some r ->
                  config_nodes_id_seq (left_by r) = config_nodes_id_seq db.
Proof.
  intros Hbody xs. induction xs as [|x xs IH]; intros db r; simpl; [by intros [= <-]|].
  destruct (body x db) as [[u db1|db1]|] eqn:Hx; [|intros [= <-]|done].
  - intros Hrest. rewrite (IH _ _ Hrest). apply (Hbody x db (Ok u db1) Hx).
  - apply (Hbody x db (Throw db1) Hx).
Qed.

Lemma deleteConfigNode_seq fuel i db r :
  deleteConfigNode fuel i db = Some r ->
  config_nodes_id_seq (left_by r) = config_nodes_id_seq db.
Proof.
  revert i db r. induction fuel as [|fuel IH]; intros i db r; simpl; [done|].
  destruct (for_of _ _ db) as [[u db1|db1]|] eqn:Hfor; [|intros [= <-]|done].
  - assert (config_nodes_id_seq db1 = config_nodes_id_seq db) as Hseq.
    { apply (for_of_seq (delete_child (deleteConfigNode fuel))) in Hfor; [done|].
      intros x db0 r0. unfold delete_child.
      destruct (deleteConfigNode fuel (Node.id x) db0) as [[b db2|db2]|] eqn:Hx;
        [| |done]; intros [= <-]; apply (IH _ _ _ Hx). }
    unfold Sql.delete. case_bool_decide; [by intros [= <-]|].
    destruct (forallb _ _); by intros [= <-].
  - apply (for_of_seq (delete_child (deleteConfigNode fuel))) in Hfor; [done|].
    intros x db0 r0. unfold delete_child.
    destruct (deleteConfigNode fuel (Node.id x) db0) as [[b db2|db2]|] eqn:Hx;
      [| |done]; intros [= <-]; apply (IH _ _ _ Hx).
Qed.

(** A call that reports a deleted row leaves no row with the id. *)
Lemma deleteConfigNode_gone fuel i db db' :
  deleteConfigNode fuel i db = Some (Ok true db') -> i ∉ ids (config_nodes db').
Proof.
  destruct fuel as [|fuel]; simpl; [done|].
  destruct (for_of _ _ db) as [[u db1|db1]|]; [|done|done].
  unfold Sql.delete. case_bool_decide.
  - by intros [= Hcount _].
  - destruct (forallb _ _); [|done]. intros [= _ <-]. simpl.
    intros (n & Hid & [Hne _]%list_elem_of_filter)%list_elem_of_fmap. congruence.
Qed.

(** X14: deleting twice.  In any store, after a [DELETE] of [p] was
    answered 204, the sequence is where it was, no row has the id [p],
    and a second [DELETE] of [p], by anyone and with any fuel, is answered
    404 and changes nothing ([p] being in the range of the column, as
    the id of a row is). *)
Theorem delete_twice fuel caller p db db' :
  Routes.delete fuel caller p db = Some (mkResponse 204 NoBody, db') ->
  Sql.int4 p ->
  config_nodes_id_seq db' = config_nodes_id_seq db
  /\ getConfigNode p db' = None
  /\ forall fuel' caller',
       Routes.delete fuel' caller' p db'
       = Some (mkResponse 404 (Message "Config node not found"), db').
Proof.
  unfold Routes.delete at 1.
  destruct (getConfigNode p db) as [node|];
    [|unfold no_row; case_bool_decide; intros [= ? ?]; done].
  case_bool_decide; [done|].
  destruct (deleteConfigNode fuel p db) as [[[|] db1|db1]|] eqn:Hdel; try done.
  intros [= <-] Hrange.
  assert (getConfigNode p db1 = None) as Hgone
    by (apply getConfigNode_None; by apply (deleteConfigNode_gone fuel p db)).
  split; [apply (deleteConfigNode_seq fuel p db _ Hdel)|]. split; [done|].
  intros fuel' caller'. unfold Routes.delete, no_row.
  by rewrite Hgone, (bool_decide_eq_true_2 _ Hrange).
Qed.

Lemma delete_twice_witness :
  config_nodes_id_seq (mkStore [] 3) = config_nodes_id_seq Sample.store
  /\ getConfigNode 1 (mkStore [] 3) = None
  /\ forall fuel' caller',
       Routes.delete fuel' caller' 1 (mkStore [] 3)
       = Some (mkResponse 404 (Message "Config node not found"), mkStore [] 3).
Proof.
  apply (delete_twice 4 "alice" 1 Sample.store (mkStore [] 3)).
  - vm_compute. reflexivity.
  - unfold Sql.int4. lia.
Defined.

(** ** Listings *)

Lemma filter_fmap_same (P : ConfigNode -> Prop) `{!forall n, Decision (P n)}
    (f : ConfigNode -> ConfigNode) (rows : list ConfigNode) :
  (forall n, n ∈ rows -> P n -> f n = n) ->
  (forall n, n ∈ rows -> P (f n) -> P n) ->
  filter P (f <$> rows) = filter P rows.
Proof.
  induction rows as [|n rows IH]; intros Hfix Hback; [done|].
  rewrite fmap_cons, !filter_cons.
  assert (filter P (f <$> rows) = filter P rows) as ->
    by (apply IH; intros m Hm; [apply Hfix|apply Hback]; by right).
  destruct (decide (P n)) as [Hn|Hn].
  - rewrite (Hfix n) by (done || left). by rewrite decide_True.
  - rewrite decide_False; [done|]. intros Hfn. apply Hn, Hback; [left|done].
Qed.

(** X15: what another user lists is out of reach: after any [POST] and,
    on a store with unique ids, after any [PATCH] by [caller], the nodes
    and the roots that a different user lists are those of before. *)
Theorem listings_of_others caller other b i parsed now db :
  other ≠ caller ->
  unique_ids db ->
  getUserConfigNodes other (Routes.post caller b now db).2 = getUserConfigNodes other db
  /\ getRootConfigNodes other (Routes.post caller b now db).2 = getRootConfigNodes other db
  /\ getUserConfigNodes other (Routes.patch caller i parsed now db).2
     = getUserConfigNodes other db
  /\ getRootConfigNodes other (Routes.patch caller i parsed now db).2
     = getRootConfigNodes other db.
Proof.
  intros Hother Hu.
  assert (getUserConfigNodes other (Routes.post caller b now db).2
          = getUserConfigNodes other db
          /\ getRootConfigNodes other (Routes.post caller b now db).2
             = getRootConfigNodes other db) as [Hpost1 Hpost2].
  { destruct (post_store caller b now db) as [->|(v & Hv & _ & ->)]; [done|].
    destruct (insert_store v now db) as [->|[->|(name & properties & defaults & nodeType & -> & _ & _)]];
      [done|done|].
    assert (ins_userId v = caller) as Hcaller.
    { unfold parse_insert in Hv. destruct (cb_name b), (cb_nodeType b); try done.
      by injection Hv as <-. }
    unfold getUserConfigNodes, getRootConfigNodes. simpl.
    rewrite !filter_app, !filter_cons, !filter_nil. simpl.
    rewrite !decide_False; [by rewrite !app_nil_r| |]; rewrite Hcaller;
      [by intros [? _]|done]. }
  split; [done|]. split; [done|].
  destruct (patch_store caller i parsed now db)
    as [->|(u & sent & node & _ & _ & Hnode & Hown & _ & -> & _)]; [done|].
  assert (forall n, n ∈ config_nodes db -> Node.userId n = other -> Node.id n ≠ i) as Hnot.
  { intros n Hn Hno Hid. apply getConfigNode_Some in Hnode as [Hnid Hnin].
    assert (n = node) as ->
      by (apply (unique_ids_eq (config_nodes db)); [exact Hu|exact Hn|exact Hnin|congruence]).
    congruence. }
  unfold getUserConfigNodes, getRootConfigNodes. simpl.
  split; apply filter_fmap_same.
  - intros n Hn Ho. by rewrite bool_decide_eq_false_2 by by apply Hnot.
  - intros n Hn. by case_bool_decide.
  - intros n Hn [Ho _]. by rewrite bool_decide_eq_false_2 by by apply Hnot.
  - intros n Hn. case_bool_decide as Hid; [|done]. simpl. intros [Ho _].
    by destruct (Hnot n Hn Ho).
Qed.

Lemma listings_of_others_witness :
  getUserConfigNodes "bob" (Routes.post "alice" Sample.west_body 200 More.shared_store).2
  = getUserConfigNodes "bob" More.shared_store
  /\ getRootConfigNodes "bob" (Routes.post "alice" Sample.west_body 200 More.shared_store).2
     = getRootConfigNodes "bob" More.shared_store
  /\ getUserConfigNodes "bob"
       (Routes.patch "alice" 1 (Some Sample.rename) 300 More.shared_store).2
     = getUserConfigNodes "bob" More.shared_store
  /\ getRootConfigNodes "bob"
       (Routes.patch "alice" 1 (Some Sample.rename) 300 More.shared_store).2
     = getRootConfigNodes "bob" More.shared_store.
Proof.
  apply (listings_of_others "alice" "bob" Sample.west_body 1 (Some Sample.rename) 300
           More.shared_store).
  - discriminate.
  - apply (bool_decide_unpack _). vm_compute. exact I.
Defined.

(** X16: [GET /api/config-nodes/:id] by the owner, on a store with unique
    ids, answers 200 with the node and its children; the children are the
    rows whose [parentId] is the node, whoever owns them, and the path of
    each child is the path of the node followed by the child. *)
Theorem get_node_children caller i db node :
  unique_ids db ->
  getConfigNode i db = Some node ->
  Node.userId node = caller ->
  exists children,
    Reads.get_node caller i db = (200, Some (node, children))
    /\ (forall c, c ∈ children <-> c ∈ config_nodes db /\ Node.parentId c = Some i)
    /\ forall c fuel,
         c ∈ children ->
         getConfigNode (Node.id c) db = Some c
         /\ getConfigNodePath (S fuel) (Node.id c) db
            = (fun above => above ++ [c]) <$> getConfigNodePath fuel i db.
Proof.
  intros Hu Hnode Hown. exists (Sql.select_by_parent i db).
  split; [|split].
  - unfold Reads.get_node, getConfigNodeWithChildren. rewrite Hnode.
    rewrite bool_decide_eq_false_2; [done|]. by intros [].
  - intros c. unfold Sql.select_by_parent. rewrite list_elem_of_filter. tauto.
  - intros c fuel [Hp Hc]%list_elem_of_filter.
    pose proof (getConfigNode_of_row db c Hu Hc) as Hget. split; [done|].
    unfold getConfigNodePath. simpl. rewrite Hget, Hp.
    by rewrite path_loop_walk, walk_acc, <- path_loop_walk.
Qed.

Lemma get_node_children_witness :
  exists children,
    Reads.get_node "alice" 1 Sample.store = (200, Some (Sample.Production, children))
    /\ (forall c, c ∈ children <-> c ∈ config_nodes Sample.store /\ Node.parentId c = Some 1)
    /\ forall c fuel,
         c ∈ children ->
         getConfigNode (Node.id c) Sample.store = Some c
         /\ getConfigNodePath (S fuel) (Node.id c) Sample.store
            = (fun above => above ++ [c]) <$> getConfigNodePath fuel 1 Sample.store.
Proof.
  apply (get_node_children "alice" 1 Sample.store Sample.Production).
  - apply (bool_decide_unpack _). vm_compute. exact I.
  - vm_compute. reflexivity.
  - reflexivity.
Defined.

(** ** Users *)

Lemma find_user_Some id (users : list User) u :
  find_user id users = Some u -> user_id u = id /\ u ∈ users.
Proof.
  intros Hhead%head_Some_elem_of. by apply list_elem_of_filter in Hhead.
Qed.

Lemma find_user_append_new (users : list User) row :
  find_user (user_id row) users = None ->
  find_user (user_id row) (users ++ [row]) = Some row.
Proof.
  unfold find_user. intros Hnone%head_None.
  by rewrite filter_app, Hnone, filter_cons, decide_True.
Qed.

Lemma find_user_fmap (f : User -> User) id (users : list User) :
  (forall u, user_id (f u) = user_id u) ->
  find_user id (f <$> users) = f <$> find_user id users.
Proof.
  intros Hid. unfold find_user.
  induction users as [|u users IH]; [done|].
  rewrite fmap_cons, !filter_cons, Hid.
  destruct (decide (user_id u = id)); [done|apply IH].
Qed.

Lemma email_free_true row (users : list User) :
  (forall e other, email row = Some e -> other ∈ users -> email other = Some e ->
                   user_id other = user_id row) ->
  email_free row users = true.
Proof.
  intros Hfree. unfold email_free. destruct (email row) as [e|] eqn:He; [|done].
  apply forallb_forall. intros other Hother%list_elem_of_In.
  apply orb_true_iff. destruct (decide (email other = Some e)) as [Heq|Hne].
  - left. apply bool_decide_eq_true_2. by apply (Hfree e).
  - right. by rewrite bool_decide_eq_false_2.
Qed.

(** The statement on the parameters the server received. *)
Lemma upsert_then_find d now users :
  users_ok users ->
  email_available d users ->
  exists user users',
    upsert d now users = Some (user, users')
    /\ find_user (up_id d) users' = Some user
    /\ user_id user = up_id d
    /\ (forall id, id ≠ up_id d -> find_user id users' = find_user id users)
    /\ (forall field, up_email d = Some field -> email user = field)
    /\ (forall field, up_firstName d = Some field -> firstName user = field)
    /\ (forall field, up_lastName d = Some field -> lastName user = field)
    /\ (forall field, up_profileImageUrl d = Some field -> profileImageUrl user = field)
    /\ (forall field, up_createdAt d = Some field -> user_createdAt user = field)
    /\ match find_user (up_id d) users with
       | Some old =>
         user_updatedAt user = Some now
         /\ (up_email d = None -> email user = email old)
         /\ (up_firstName d = None -> firstName user = firstName old)
         /\ (up_lastName d = None -> lastName user = lastName old)
         /\ (up_profileImageUrl d = None -> profileImageUrl user = profileImageUrl old)
         /\ (up_createdAt d = None -> user_createdAt user = user_createdAt old)
       | None =>
         user_updatedAt user = default (Some now) (up_updatedAt d)
         /\ (up_email d = None -> email user = None)
         /\ (up_firstName d = None -> firstName user = None)
         /\ (up_lastName d = None -> lastName user = None)
         /\ (up_profileImageUrl d = None -> profileImageUrl user = None)
         /\ (up_createdAt d = None -> user_createdAt user = Some now)
       end
    /\ users_ok users'.
Proof.
  intros [Hnd Hemails] Havail. unfold upsert.
  destruct (find_user (up_id d) users) as [old|] eqn:Hold.
  - pose proof (find_user_Some _ _ _ Hold) as [Hoid Hoin].
    set (f := fun u => if bool_decide (user_id u = up_id d)
                       then updated_user d now u else u).
    assert (forall u, user_id (f u) = user_id u) as Hid
      by (intros u; unfold f; by case_bool_decide).
    (* the email of an updated row is still nobody else's *)
    assert (forall u e other, u ∈ users -> user_id u = up_id d ->
              email (updated_user d now u) = Some e ->
              other ∈ users -> email other = Some e ->
              user_id other = up_id d) as Hfree.
    { intros u e other Hu Huid He Hother Hoe. simpl in He.
      destruct (up_email d) as [supplied|] eqn:Hsup; simpl in He.
      - subst supplied. by apply (Havail e other).
      - rewrite <- Huid. by apply (Hemails other u e). }
    rewrite email_free_true
      by (intros e other He Ho Hoe; simpl; rewrite Hoid;
          by apply (Hfree old e other)).
    exists (updated_user d now old), (f <$> users).
    split; [done|]. split; [|split; [done|split]].
    + rewrite (find_user_fmap f) by done. rewrite Hold. simpl. unfold f.
      by rewrite bool_decide_eq_true_2.
    + intros id Hne. rewrite (find_user_fmap f) by done.
      destruct (find_user id users) as [u|] eqn:Hu; [|done]. simpl. unfold f.
      apply find_user_Some in Hu as [Hu _].
      rewrite bool_decide_eq_false_2; [done|congruence].
    + do 5 (split; [intros field Hf; simpl; by rewrite Hf|]).
      split; [split; [done|repeat split; intros Hf; simpl; by rewrite Hf]|].
      split.
      * rewrite <- list_fmap_compose.
        assert (user_id ∘ f <$> users = user_id <$> users) as ->; [|done].
        apply list_fmap_ext. intros k u _. apply Hid.
      * intros u' v' e (u & -> & Hu)%list_elem_of_fmap (v & -> & Hv)%list_elem_of_fmap.
        rewrite !Hid. unfold f.
        case_bool_decide as Hui; case_bool_decide as Hvi; intros Hue Hve.
        -- congruence.
        -- rewrite Hui. symmetry. by apply (Hfree u e v).
        -- rewrite Hvi. by apply (Hfree v e u).
        -- by apply (Hemails u v e).
  - assert (up_id d ∉ (user_id <$> users)) as Hfresh.
    { intros (u & Hu & Hin)%list_elem_of_fmap.
      unfold find_user in Hold. apply head_None in Hold.
      by apply (filter_nil_not_elem_of _ _ u Hold). }
    rewrite email_free_true.
    2:{ intros e other He Ho Hoe. simpl in *.
        destruct (up_email d) as [[e'|]|] eqn:Hsup; simpl in He; try done.
        injection He as ->. by apply (Havail e other). }
    exists (inserted_user d now), (users ++ [inserted_user d now]).
    split; [done|]. split; [by apply (find_user_append_new users (inserted_user d now))|].
    split; [done|]. split.
    + intros id Hne. unfold find_user.
      rewrite filter_app, filter_cons, decide_False by (simpl; congruence).
      by rewrite filter_nil, app_nil_r.
    + do 5 (split; [intros field Hf; simpl; by rewrite Hf|]).
      split; [split; [done|repeat split; intros Hf; simpl; by rewrite Hf]|].
      split.
      * rewrite fmap_app. apply NoDup_app. split; [done|].
        split; [|apply NoDup_singleton].
        intros x Hx ->%list_elem_of_singleton. done.
      * assert (forall e other, email (inserted_user d now) = Some e ->
                  other ∈ users -> email other = Some e -> False) as Hnew.
        { intros e other He Ho Hoe. simpl in He.
          destruct (up_email d) as [[e'|]|] eqn:Hsup; simpl in He; try done.
          injection He as ->. apply Hfresh, list_elem_of_fmap.
          exists other. split; [|done]. symmetry. by apply (Havail e other). }
        intros u v e Hu Hv Hue Hve.
        apply elem_of_app in Hu as [Hu|Hu]; apply elem_of_app in Hv as [Hv|Hv];
          try apply list_elem_of_singleton in Hu; try apply list_elem_of_singleton in Hv;
          subst.
        -- by apply (Hemails u v e).
        -- by destruct (Hnew e u).
        -- by destruct (Hnew e v).
        -- done.
Qed.

(** X17: on a table that satisfies its two constraints, [upsertUser] with
    texts the server accepts (none holds U+0000) and an email that belongs
    to nobody else is accepted and returns the row that [getUser] then
    finds under the given id.  Every text is stored as the server
    receives it (a lone surrogate as U+FFFD), the id too.  Every supplied
    field of the row is as supplied, except that for a user that existed
    [updatedAt] is the time of the call whatever is supplied; a field that
    is not supplied keeps its value for a user that existed, and for a new
    user it is [NULL], or the time of the call for the two timestamps.
    Every user stored under another id is found as before and the table
    still satisfies its constraints. *)
Theorem upsertUser_then_getUser d now users :
  users_ok users ->
  email_available (sent_user d) users ->
  user_text_ok d = true ->
  exists user users',
    upsertUser d now users = Some (user, users')
    /\ getUser (up_id d) users' = Some user
    /\ user_id user = Sql.text (up_id d)
    /\ (forall id, Sql.text id ≠ Sql.text (up_id d) ->
          getUser id users' = getUser id users)
    /\ (forall field, up_email d = Some field -> email user = Sql.text <$> field)
    /\ (forall field, up_firstName d = Some field -> firstName user = Sql.text <$> field)
    /\ (forall field, up_lastName d = Some field -> lastName user = Sql.text <$> field)
    /\ (forall field, up_profileImageUrl d = Some field ->
          profileImageUrl user = Sql.text <$> field)
    /\ (forall field, up_createdAt d = Some field -> user_createdAt user = field)
    /\ match getUser (up_id d) users with
       | Some old =>
         user_updatedAt user = Some now
         /\ (up_email d = None -> email user = email old)
         /\ (up_firstName d = None -> firstName user = firstName old)
         /\ (up_lastName d = None -> lastName user = lastName old)
         /\ (up_profileImageUrl d = None -> profileImageUrl user = profileImageUrl old)
         /\ (up_createdAt d = None -> user_createdAt user = user_createdAt old)
       | None =>
         user_updatedAt user = default (Some now) (up_updatedAt d)
         /\ (up_email d = None -> email user = None)
         /\ (up_firstName d = None -> firstName user = None)
         /\ (up_lastName d = None -> lastName user = None)
         /\ (up_profileImageUrl d = None -> profileImageUrl user = None)
         /\ (up_createdAt d = None -> user_createdAt user = Some now)
       end
    /\ users_ok users'.
Proof.
  intros Hok Havail Htext. unfold upsertUser, getUser. rewrite Htext.
  destruct (upsert_then_find (sent_user d) now users Hok Havail)
    as (user & users' & Hupsert & Hfind & Hid & Hothers & Hemail & Hfirst & Hlast
        & Himage & Hcreated & Hold & Hok').
  exists user, users'. split; [exact Hupsert|]. split; [exact Hfind|].
  split; [exact Hid|]. split; [intros id Hne; by apply Hothers|].
  split; [intros field Hf; apply Hemail; simpl; by rewrite Hf|].
  split; [intros field Hf; apply Hfirst; simpl; by rewrite Hf|].
  split; [intros field Hf; apply Hlast; simpl; by rewrite Hf|].
  split; [intros field Hf; apply Himage; simpl; by rewrite Hf|].
  split; [exact Hcreated|]. split; [|exact Hok'].
  change (up_id (sent_user d)) with (Sql.text (up_id d)) in Hold.
  destruct (find_user (Sql.text (up_id d)) users) as [old|].
  - destruct Hold as (Hu & He & Hf & Hl & Hi & Hc). split; [exact Hu|].
    split; [intros Hn; apply He; simpl; by rewrite Hn|].
    split; [intros Hn; apply Hf; simpl; by rewrite Hn|].
    split; [intros Hn; apply Hl; simpl; by rewrite Hn|].
    split; [intros Hn; apply Hi; simpl; by rewrite Hn|exact Hc].
  - destruct Hold as (Hu & He & Hf & Hl & Hi & Hc). split; [exact Hu|].
    split; [intros Hn; apply He; simpl; by rewrite Hn|].
    split; [intros Hn; apply Hf; simpl; by rewrite Hn|].
    split; [intros Hn; apply Hl; simpl; by rewrite Hn|].
    split; [intros Hn; apply Hi; simpl; by rewrite Hn|exact Hc].
Qed.

Lemma upsertUser_then_getUser_witness :
  exists user users',
    upsertUser More.alice_again 20 [More.alice] = Some (user, users')
    /\ getUser "alice" users' = Some user
    /\ email user = Some "a@example.org"
    /\ firstName user = Some "Alice"
    /\ lastName user = Some "Liddell"
    /\ user_updatedAt user = Some 20.
Proof.
  destruct (upsertUser_then_getUser More.alice_again 20 [More.alice])
    as (user & users' & Hupsert & Hget & _ & _ & Hemail & _ & Hlast & _ & _ & Hold & _).
  - split; [apply (bool_decide_unpack _); vm_compute; exact I|].
    intros u v e Hu Hv _ _.
    apply list_elem_of_singleton in Hu, Hv. by subst.
  - intros e other _ Hother _. apply list_elem_of_singleton in Hother as ->.
    vm_compute. reflexivity.
  - vm_compute. reflexivity.
  - exists user, users'. split; [exact Hupsert|]. split; [exact Hget|].
    change (getUser (up_id More.alice_again) [More.alice]) with (Some More.alice) in Hold.
    destruct Hold as (Hupdated & _ & Hfirst & _).
    split; [exact (Hemail _ eq_refl)|]. split; [exact (Hfirst eq_refl)|].
    split; [exact (Hlast _ eq_refl)|exact Hupdated].
Defined.

(** * The row-per-property variant: reading *)

Lemma go_properties_lookup json_Unmarshal go i k v :
  unique_keys go ->
  go_properties json_Unmarshal go i !! k = Some v
  <-> exists p, p ∈ Go.config_properties go /\ Go.NodeID p = i /\ Go.Key p = k
                /\ v = Go.decode json_Unmarshal (Go.Value p).
Proof.
  intros Hu. unfold go_properties.
  rewrite <- elem_of_list_to_map
    by (rewrite <- list_fmap_compose; apply (unique_keys_of_node go i Hu)).
  rewrite list_elem_of_fmap. split.
  - intros (p & Heq & [Hi Hin]%list_elem_of_filter). injection Heq as -> ->. by exists p.
  - intros (p & Hin & Hi & <- & ->). exists p. split; [done|].
    by apply list_elem_of_filter.
Qed.

Lemma go_properties_None json_Unmarshal go i k :
  go_properties json_Unmarshal go i !! k = None
  <-> forall p, p ∈ Go.config_properties go -> Go.NodeID p = i -> Go.Key p ≠ k.
Proof.
  unfold go_properties. rewrite <- not_elem_of_list_to_map, <- list_fmap_compose.
  rewrite list_elem_of_fmap. split.
  - intros Hno p Hin Hi Hk. apply Hno. exists p. split; [done|].
    by apply list_elem_of_filter.
  - intros Hno (p & Hk & [Hi Hin]%list_elem_of_filter). by apply (Hno p).
Qed.

(** The walk reads the node rows only. *)
Lemma Go_path_loop_nodes fuel nodes props props' current acc :
  Go.path_loop fuel (Go.mkDB nodes props') current acc
  = Go.path_loop fuel (Go.mkDB nodes props) current acc.
Proof.
  revert current acc. induction fuel as [|fuel IH]; intros [i|] acc; simpl; try done.
  change (Go.GetNodeByID i (Go.mkDB nodes props'))
    with (Go.GetNodeByID i (Go.mkDB nodes props)).
  destruct (Go.GetNodeByID i (Go.mkDB nodes props)); [apply IH|done].
Qed.

Section fold_of_maps.
Variable P : Z -> gmap string json.

Lemma go_fold_skip path acc k :
  Forall (fun d => P (Go.ID d) !! k = None) path ->
  foldl (fun acc g => P (Go.ID g) ∪ acc) acc path !! k = acc !! k.
Proof.
  revert acc. induction path as [|d path IH]; intros acc Hall; simpl; [done|].
  apply Forall_cons in Hall as [Hd Hall]. rewrite IH by done.
  by rewrite lookup_union_r.
Qed.

Lemma go_fold_hit before g after acc k v :
  P (Go.ID g) !! k = Some v ->
  Forall (fun d => P (Go.ID d) !! k = None) after ->
  foldl (fun acc g => P (Go.ID g) ∪ acc) acc (before ++ g :: after) !! k = Some v.
Proof.
  intros Hg Hafter. rewrite foldl_app. simpl. rewrite go_fold_skip by done.
  by apply lookup_union_Some_l.
Qed.

Lemma go_fold_is_Some path acc k :
  is_Some (foldl (fun acc g => P (Go.ID g) ∪ acc) acc path !! k) ->
  is_Some (acc !! k) \/ exists g, g ∈ path /\ is_Some (P (Go.ID g) !! k).
Proof.
  revert acc. induction path as [|d path IH]; intros acc; simpl; [by left|].
  intros [Hacc|(g & Hin & Hg)]%IH.
  - destruct Hacc as [v [Hv|[_ Hv]]%lookup_union_Some_raw].
    + right. exists d. split; [apply list_elem_of_here|by eexists].
    + left. by eexists.
  - right. exists g. split; [by apply list_elem_of_further|done].
Qed.
End fold_of_maps.

Section go_resolution.
Variable json_Unmarshal : string -> option json.
Variable order_by_key : list Go.ConfigProperty -> list Go.ConfigProperty.
Hypothesis order_by_key_perm : forall rows, order_by_key rows ≡ₚ rows.

Lemma Go_resolve_fold go path acc :
  unique_keys go ->
  foldl (Go.apply_node json_Unmarshal order_by_key go) acc path
  = foldl (fun acc g => go_properties json_Unmarshal go (Go.ID g) ∪ acc) acc path.
Proof.
  intros Hu. revert acc. induction path as [|g path IH]; intros acc; simpl; [done|].
  by rewrite (Go_apply_node_union json_Unmarshal order_by_key order_by_key_perm), IH.
Qed.

(** X18: in the row-per-property resolver the deepest row wins.  On
    tables whose node rows form a forest and whose property rows are
    unique per node and key, resolving an existing node returns (with
    any fuel above its rank) a result that names the node, whose path
    ends with the node, and in which a row of a path node gives the value
    of its key (its decoded [value]) whenever no node below it on the
    path has a row for that key; and every key of the result is the key
    of a row of some path node. *)
Theorem ResolveConfiguration_deepest_row rank go n node :
  unique_keys go -> go_ranked rank go -> Go.GetNodeByID n go = Some node ->
  exists resolved,
    (forall fuel, (rank n < fuel)%nat ->
       Go.ResolveConfiguration json_Unmarshal order_by_key fuel n go
       = Some (inr resolved))
    /\ Go.ResolvedNodeID resolved = n /\ Go.NodeName resolved = Go.Name node
    /\ last (Go.Path resolved) = Some node
    /\ (forall before g after row,
          Go.Path resolved = before ++ g :: after ->
          row ∈ Go.config_properties go -> Go.NodeID row = Go.ID g ->
          (forall d other, d ∈ after -> other ∈ Go.config_properties go ->
                           Go.NodeID other = Go.ID d -> Go.Key other ≠ Go.Key row) ->
          Go.Properties resolved !! Go.Key row
          = Some (Go.decode json_Unmarshal (Go.Value row)))
    /\ (forall k, is_Some (Go.Properties resolved !! k) ->
          exists g row, g ∈ Go.Path resolved /\ row ∈ Go.config_properties go
                        /\ Go.NodeID row = Go.ID g /\ Go.Key row = k).
Proof.
  intros Hu Hr Hn.
  destruct (GetNodePath_shape rank go n node Hr Hn) as (path & Hpath & Hlast & _ & _).
  exists (Go.mkResolved n (Go.Name node)
            (foldl (Go.apply_node json_Unmarshal order_by_key go) ∅ path) path).
  simpl. split; [|split; [done|split; [done|split; [done|split]]]].
  - intros fuel Hfuel. unfold Go.ResolveConfiguration. rewrite (Hpath fuel Hfuel). simpl.
    by rewrite Hlast.
  - intros before g after row -> Hrow Hnode Hbelow. rewrite Go_resolve_fold by done.
    apply go_fold_hit.
    + apply go_properties_lookup; [done|]. by exists row.
    + apply Forall_forall. intros d Hd. apply go_properties_None.
      intros other Hother Hid. by apply (Hbelow d).
  - intros k Hk. rewrite Go_resolve_fold in Hk by done.
    apply go_fold_is_Some in Hk as [[v Hv]|(g & Hg & [v Hv])]; [by rewrite lookup_empty in Hv|].
    apply go_properties_lookup in Hv as (row & Hrow & Hid & Hkey & _); [|done].
    by exists g, row.
Qed.

(** Two tables with the same node rows, and property rows that agree on
    node, key and value, give every node the same map. *)
Lemma same_values_properties nodes props props' i :
  same_values props props' ->
  go_properties json_Unmarshal (Go.mkDB nodes props') i
  = go_properties json_Unmarshal (Go.mkDB nodes props) i.
Proof.
  unfold go_properties. simpl. induction 1 as [|p p' props props' (Hn & Hk & Hv) _ IH]; [done|].
  rewrite !filter_cons. rewrite Hn.
  destruct (decide (Go.NodeID p = i)); [|done].
  rewrite !fmap_cons. simpl. by rewrite IH, Hk, Hv.
Qed.

Lemma same_values_unique nodes props props' :
  same_values props props' ->
  unique_keys (Go.mkDB nodes props) -> unique_keys (Go.mkDB nodes props').
Proof.
  unfold unique_keys. simpl. intros Hsame.
  assert ((fun p => (Go.NodeID p, Go.Key p)) <$> props'
          = (fun p => (Go.NodeID p, Go.Key p)) <$> props) as ->; [|done].
  induction Hsame as [|p p' props props' (Hn & Hk & Hv) _ IH]; [done|].
  rewrite !fmap_cons. by rewrite IH, Hn, Hk.
Qed.

(** X19: resolution reads only the node, the key and the value of a
    property row.  Changing default values, declared data types and
    descriptions of any rows (of tables with the unique-key constraint)
    changes the outcome of no resolution: a default value is never used
    as a fallback, and the declared type never decides how a value is
    decoded. *)
Theorem ResolveConfiguration_reads_values fuel n nodes props props' :
  unique_keys (Go.mkDB nodes props) -> same_values props props' ->
  Go.ResolveConfiguration json_Unmarshal order_by_key fuel n (Go.mkDB nodes props')
  = Go.ResolveConfiguration json_Unmarshal order_by_key fuel n (Go.mkDB nodes props).
Proof.
  intros Hu Hsame. pose proof (same_values_unique nodes props props' Hsame Hu) as Hu'.
  unfold Go.ResolveConfiguration, Go.GetNodePath.
  rewrite (Go_path_loop_nodes fuel nodes props props').
  destruct (Go.path_loop fuel (Go.mkDB nodes props) (Some n) []) as [path|]; [|done].
  simpl. destruct (last path); [|done].
  rewrite !Go_resolve_fold by done. do 3 f_equal.
  generalize (∅ : gmap string json). induction path as [|g path IH]; intros acc; [done|].
  simpl. by rewrite IH, (same_values_properties nodes props props').
Qed.

(** X20: a node that does not exist.  The path of a missing id is the
    empty path, for which the path handler answers 200; resolving it is
    the error "node not found", for which the resolving handler answers
    500.  Neither answers 404. *)
Theorem Go_missing_node fuel n t :
  Go.GetNodeByID n (Repo.tables t) = None ->
  Go.GetNodePath fuel n (Repo.tables t) = Some []
  /\ Go.ResolveConfiguration json_Unmarshal order_by_key fuel n (Repo.tables t)
     = Some (inl "node not found")
  /\ Handlers.GetNodePath fuel (Some n) t = Some (200, Handlers.PathJSON [])
  /\ Handlers.ResolveConfiguration json_Unmarshal order_by_key fuel (Some n) t
     = Some (500, Handlers.ErrorText "Failed to resolve configuration").
Proof.
  intros Hn.
  assert (Go.GetNodePath fuel n (Repo.tables t) = Some []) as Hpath.
  { unfold Go.GetNodePath. destruct fuel; simpl; by rewrite Hn. }
  unfold Handlers.GetNodePath, Handlers.ResolveConfiguration, Go.ResolveConfiguration.
  by rewrite Hpath.
Qed.
End go_resolution.

Lemma ResolveConfiguration_deepest_row_witness :
  exists resolved,
    (forall fuel, (Sample.rank 2 < fuel)%nat ->
       Go.ResolveConfiguration Sample.unmarshal id fuel 2 Sample.go_store
       = Some (inr resolved))
    /\ Go.Properties resolved !! "api_timeout" = Some (JNum 1%float).
Proof.
  destruct (ResolveConfiguration_deepest_row Sample.unmarshal id (fun rows => reflexivity rows)
              Sample.rank Sample.go_store 2
              (Go.mkConfigNode 2 "Leaf" "center" (Some 1) EmptyString 101 101))
    as (resolved & Hres & _ & _ & _ & Hrow & _).
  - apply (bool_decide_unpack _). vm_compute. exact I.
  - repeat constructor; simpl; vm_compute; lia.
  - vm_compute. reflexivity.
  - exists resolved. split; [exact Hres|].
    specialize (Hres 3%nat ltac:(vm_compute; lia)).
    vm_compute in Hres. injection Hres as <-. vm_compute. reflexivity.
Defined.

Lemma ResolveConfiguration_reads_values_witness :
  Go.ResolveConfiguration Sample.unmarshal id 5 2
    (Go.mkDB (Go.config_nodes Sample.go_store) More.relabelled)
  = Go.ResolveConfiguration Sample.unmarshal id 5 2 Sample.go_store.
Proof.
  apply (ResolveConfiguration_reads_values Sample.unmarshal id (fun rows => reflexivity rows)
           5 2 (Go.config_nodes Sample.go_store) (Go.config_properties Sample.go_store)
           More.relabelled).
  - apply (bool_decide_unpack _). vm_compute. exact I.
  - repeat constructor.
Defined.

Lemma Go_missing_node_witness :
  Go.GetNodePath 0 9 Sample.go_store = Some []
  /\ Handlers.ResolveConfiguration Sample.unmarshal id 0 (Some 9) More.go_tables
     = Some (500, Handlers.ErrorText "Failed to resolve configuration").
Proof.
  destruct (Go_missing_node Sample.unmarshal id 0 9 More.go_tables) as (Hp & _ & _ & Hr).
  - vm_compute. reflexivity.
  - split; [exact Hp|exact Hr].
Defined.

(** * The row-per-property variant: writing *)

Lemma same_place_lookup id nodes nodes' props props' i :
  Forall2 (same_place id) nodes nodes' ->
  option_Forall2 (same_place id) (Go.GetNodeByID i (Go.mkDB nodes props))
                                 (Go.GetNodeByID i (Go.mkDB nodes' props')).
Proof.
  unfold Go.GetNodeByID. simpl.
  induction 1 as [|g g' nodes nodes' Hg _ IH]; [constructor|].
  rewrite !filter_cons. destruct Hg as (Hid & Hrest). rewrite Hid.
  destruct (decide (Go.ID g = i)); [by constructor|done].
Qed.

Lemma UpdateNode_rows id req now t :
  Forall2 (same_place id) (Go.config_nodes (Repo.tables t))
    (Go.config_nodes (Repo.tables (Repo.after (Repo.UpdateNode id req now t))))
  /\ Go.config_properties (Repo.tables (Repo.after (Repo.UpdateNode id req now t)))
     = Go.config_properties (Repo.tables t).
Proof.
  assert (forall nodes : list Go.ConfigNode, Forall2 (same_place id) nodes nodes) as Hrefl.
  { intros nodes. apply Forall_Forall2_diag, Forall_forall. by intros g _. }
  unfold Repo.UpdateNode. case_bool_decide; [by split|].
  destruct (forallb _ _); [|by split]. simpl. split; [|done].
  generalize (Go.config_nodes (Repo.tables t)). clear.
  intros nodes. induction nodes as [|g nodes IH]; [constructor|].
  rewrite fmap_cons. constructor; [|done].
  case_bool_decide; [|done]. by repeat split.
Qed.

Section go_writes.
Variable json_Unmarshal : string -> option json.
Variable order_by_key : list Go.ConfigProperty -> list Go.ConfigProperty.

(** One step of the resolver reads the id of the node and the property
    rows. *)
Lemma apply_node_same_place id nodes nodes' props path path' acc :
  Forall2 (same_place id) path path' ->
  foldl (Go.apply_node json_Unmarshal order_by_key (Go.mkDB nodes' props)) acc path'
  = foldl (Go.apply_node json_Unmarshal order_by_key (Go.mkDB nodes props)) acc path.
Proof.
  intros Hpaths. revert acc.
  induction Hpaths as [|g g' path path' (Hid & _) _ IH]; intros acc; [done|].
  simpl. rewrite IH. f_equal.
  unfold Go.apply_node, Go.GetPropertiesByNodeID. simpl. by rewrite Hid.
Qed.

(** X21: what [UpdateNode] can change.  Whatever the request and its
    outcome, every node row keeps its id, its type, its parent and its
    creation time, rows other than the addressed one are untouched and so
    is the property table; hence every path keeps its shape and every
    resolution keeps its properties (or its error): the row-per-property
    variant has no way to move a node or to change its type. *)
Theorem UpdateNode_frame id req now t :
  Forall2 (same_place id) (Go.config_nodes (Repo.tables t))
    (Go.config_nodes (Repo.tables (Repo.after (Repo.UpdateNode id req now t))))
  /\ Go.config_properties (Repo.tables (Repo.after (Repo.UpdateNode id req now t)))
     = Go.config_properties (Repo.tables t)
  /\ (forall fuel n,
        option_Forall2 (Forall2 (same_place id))
          (Go.GetNodePath fuel n (Repo.tables t))
          (Go.GetNodePath fuel n (Repo.tables (Repo.after (Repo.UpdateNode id req now t)))))
  /\ (forall fuel n,
        resolved_properties
          (Go.ResolveConfiguration json_Unmarshal order_by_key fuel n
             (Repo.tables (Repo.after (Repo.UpdateNode id req now t))))
        = resolved_properties
            (Go.ResolveConfiguration json_Unmarshal order_by_key fuel n (Repo.tables t))).
Proof.
  destruct (UpdateNode_rows id req now t) as [Hnodes Hprops].
  destruct (Repo.tables (Repo.after (Repo.UpdateNode id req now t))) as [nodes' props'].
  destruct (Repo.tables t) as [nodes props]. simpl in *. subst props'.
  assert (forall fuel n,
            option_Forall2 (Forall2 (same_place id))
              (Go.GetNodePath fuel n (Go.mkDB nodes props))
              (Go.GetNodePath fuel n (Go.mkDB nodes' props))) as Hpaths.
  { intros fuel n. unfold Go.GetNodePath. rewrite !Go_path_loop_walk.
    apply walk_related; [|by intros g g' (_ & _ & -> & _)|constructor].
    intros i. by apply same_place_lookup. }
  split; [done|]. split; [done|]. split; [done|].
  intros fuel n. unfold Go.ResolveConfiguration.
  destruct (Hpaths fuel n) as [path path' Hrel|]; [|done]. simpl.
  rewrite (apply_node_same_place id nodes nodes' props path path') by done.
  assert (option_Forall2 (same_place id) (last path) (last path')) as Hlast.
  { clear -Hrel. induction Hrel as [|g g' path path' Hg _ IH]; [constructor|].
    rewrite !last_cons. destruct IH; by constructor. }
  by destruct Hlast.
Qed.



End go_writes.


Section fold_agree.
Variables P P' : Z -> gmap string json.

End fold_agree.

Section go_round_trip.
Variable json_Unmarshal : string -> option json.
Variable order_by_key : list Go.ConfigProperty -> list Go.ConfigProperty.
Hypothesis order_by_key_perm : forall rows, order_by_key rows ≡ₚ rows.

End go_round_trip.


(** * The handlers of the row-per-property variant *)


(** What a created row brings with it. *)
Lemma Go_CreateNode_tables body now t :
  (Go.config_nodes (Repo.tables (Handlers.CreateNode body now t).2)
   = Go.config_nodes (Repo.tables t)
   /\ (Repo.nodes_seq (Handlers.CreateNode body now t).2 = Repo.nodes_seq t
       \/ Repo.nodes_seq (Handlers.CreateNode body now t).2 = Repo.nodes_seq t + 1))
  \/ exists node,
       Go.config_nodes (Repo.tables (Handlers.CreateNode body now t).2)
       = Go.config_nodes (Repo.tables t) ++ [node]
       /\ Repo.nodes_seq (Handlers.CreateNode body now t).2 = Repo.nodes_seq t + 1
       /\ Go.ID node = Repo.nodes_seq t
       /\ (Repo.nodes_seq t ∉ Repo.node_ids t)
       /\ forall p, Go.ParentID node = Some p -> p ∈ Repo.node_ids t.
Proof.
  unfold Handlers.CreateNode.
  destruct (Handlers.bind_CreateNode body) as [req|]; [|by left; split; [|left]].
  destruct (negb _ && negb _); [by left; split; [|left]|].
  assert (forall p, is_Some (Go.GetNodeByID p (Repo.tables t)) -> p ∈ Repo.node_ids t)
    as Hin.
  { intros p [g Hg]. unfold Go.GetNodeByID in Hg.
    apply head_Some_elem_of, list_elem_of_filter in Hg as [<- Hg].
    by apply list_elem_of_fmap_2. }
  assert (forall out, out = Repo.CreateNode req now t ->
            (forall p, Repo.cn_ParentID req = Some p -> p ∈ Repo.node_ids t) ->
            match out with
            | Repo.Done node t' =>
              Go.config_nodes (Repo.tables t') = Go.config_nodes (Repo.tables t) ++ [node]
              /\ Repo.nodes_seq t' = Repo.nodes_seq t + 1
              /\ Go.ID node = Repo.nodes_seq t
              /\ (Repo.nodes_seq t ∉ Repo.node_ids t)
              /\ forall p, Go.ParentID node = Some p -> p ∈ Repo.node_ids t
            | Repo.Failed t' =>
              Go.config_nodes (Repo.tables t') = Go.config_nodes (Repo.tables t)
              /\ Repo.nodes_seq t' = Repo.nodes_seq t + 1
            end) as Hcreate.
  { intros out -> Hparent. unfold Repo.CreateNode.
    destruct (Repo.fits_255 _ && Repo.node_type_ok _); simpl; [|done].
    case_bool_decide as Hfresh; simpl; [|done].
    destruct (match Repo.cn_ParentID req with Some _ => _ | None => _ end); [|done].
    simpl. by repeat split. }
  destruct (Repo.cn_ParentID req) as [p|] eqn:Hparent.
  - destruct (Go.GetNodeByID p (Repo.tables t)) as [parent|] eqn:Hp;
      [|by left; split; [|left]].
    specialize (Hcreate _ eq_refl). rewrite ?Hparent in Hcreate.
    destruct (Repo.CreateNode req now t) as [node t'|t']; simpl.
    + right. exists node. apply Hcreate. intros q [= <-]. apply Hin. by rewrite Hp.
    + left. destruct Hcreate as [-> ->]; [|by split; [|right]].
      intros q [= <-]. apply Hin. by rewrite Hp.
  - specialize (Hcreate _ eq_refl). rewrite ?Hparent in Hcreate.
    destruct (Repo.CreateNode req now t) as [node t'|t']; simpl.
    + right. exists node. by apply Hcreate.
    + left. destruct Hcreate as [-> ->]; [done|by split; [|right]].
Qed.

(** X25: the handler [CreateNode] keeps the node table well formed.  If
    every id and parent reference was issued by the sequence, the ids are
    unique and the parent links form a forest, the same holds after any
    request, whatever the answer: no request creates a duplicate id, a
    reference to an id not yet issued, or a cycle. *)
Theorem Go_CreateNode_keeps_forest rank body now t :
  go_issued t -> NoDup (Repo.node_ids t) -> go_ranked rank (Repo.tables t) ->
  go_issued (Handlers.CreateNode body now t).2
  /\ NoDup (Repo.node_ids (Handlers.CreateNode body now t).2)
  /\ exists rank', go_ranked rank' (Repo.tables (Handlers.CreateNode body now t).2).
Proof.
  intros Hi Hu Hr. unfold go_issued, go_ranked, Repo.node_ids in *.
  pose proof Hi as Hi'. rewrite Forall_forall in Hi'.
  destruct (Go_CreateNode_tables body now t)
    as [(-> & Hseq)|(node & -> & -> & Hid & Hfresh & Hparent)].
  - split; [|split; [done|by exists rank]].
    apply Forall_forall. intros g Hg. destruct (Hi' g Hg) as [Hlt Hp].
    split; [lia|]. destruct (Go.ParentID g); [lia|done].
  - assert (forall p, p ∈ Repo.node_ids t -> p < Repo.nodes_seq t) as Hlt.
    { intros p (g & -> & Hg)%list_elem_of_fmap. by destruct (Hi' g Hg). }
    split; [|split].
    + apply Forall_app. split.
      * apply Forall_forall. intros g Hg. destruct (Hi' g Hg) as [Hl Hp].
        split; [lia|]. destruct (Go.ParentID g); [lia|done].
      * constructor; [|done]. split; [lia|].
        destruct (Go.ParentID node) as [p|] eqn:Hp; [|done].
        specialize (Hlt p (Hparent p eq_refl)). lia.
    + rewrite fmap_app. apply NoDup_app. split; [done|]. split; [|apply NoDup_singleton].
      intros x Hx ->%list_elem_of_singleton. simpl in Hx. by rewrite Hid in Hx.
    + destruct (Go.ParentID node) as [p|] eqn:Hp.
      * exists (fun i => if bool_decide (i = Repo.nodes_seq t) then S (rank p) else rank i).
        specialize (Hlt p (Hparent p eq_refl)).
        apply Forall_app. split.
        -- rewrite Forall_forall in Hr. apply Forall_forall.
           intros g Hg. specialize (Hr _ Hg). destruct (Hi' _ Hg) as [Hl Hq].
           rewrite (bool_decide_eq_false_2 (Go.ID g = Repo.nodes_seq t)) by lia.
           destruct (Go.ParentID g) as [q|]; [|done].
           by rewrite (bool_decide_eq_false_2 (q = Repo.nodes_seq t)) by lia.
        -- constructor; [|done]. rewrite Hp, Hid.
           rewrite (bool_decide_eq_false_2 (p = Repo.nodes_seq t)) by lia.
           rewrite bool_decide_eq_true_2 by done. lia.
      * exists rank. apply Forall_app. split; [done|].
        constructor; [|done]. by rewrite Hp.
Qed.

Lemma Go_CreateNode_keeps_forest_witness :
  go_issued (Handlers.CreateNode (Some More.branch_request) 200 More.go_tables).2
  /\ NoDup (Repo.node_ids (Handlers.CreateNode (Some More.branch_request) 200 More.go_tables).2)
  /\ exists rank',
       go_ranked rank'
         (Repo.tables (Handlers.CreateNode (Some More.branch_request) 200 More.go_tables).2).
Proof.
  apply (Go_CreateNode_keeps_forest Sample.rank).
  - repeat constructor; simpl; lia.
  - apply (bool_decide_unpack _). vm_compute. exact I.
  - repeat constructor; simpl; vm_compute; lia.
Defined.

Lemma same_values_refl props : same_values props props.
Proof. apply Forall_Forall2_diag, Forall_forall. by intros p _. Qed.

Lemma same_values_fmap (f f' : Go.ConfigProperty -> Go.ConfigProperty) props :
  (forall p, Go.NodeID (f' p) = Go.NodeID (f p) /\ Go.Key (f' p) = Go.Key (f p)
             /\ Go.Value (f' p) = Go.Value (f p)) ->
  same_values (f <$> props) (f' <$> props).
Proof.
  intros Hf. induction props as [|p props IH]; [constructor|].
  rewrite !fmap_cons. by constructor.
Qed.

Lemma data_type_of_empty : Repo.data_type_of EmptyString = None.
Proof. vm_compute. reflexivity. Qed.

Section go_property_handlers.
Variable json_Unmarshal : string -> option json.

(** X26: the declared data type of a property is stored, not checked
    against the value.  For two requests that differ only in the declared
    type, both among the six type names, the handler [CreateProperty]
    gives the same status, and the tables after them have the same node
    rows and property rows with the same node, key and value.  With 201
    the stored row carries the declared type and the text of the request,
    which decodes as JSON: no stored value of an accepted request falls
    back to a plain string when resolved. *)
Theorem Go_CreateProperty_declared_type nodeId key value dt dt' default description t :
  is_Some (Repo.data_type_of dt) -> is_Some (Repo.data_type_of dt') ->
  (Handlers.CreateProperty json_Unmarshal nodeId
     (Some (Repo.mkCreatePropertyRequest key value dt default description)) t).1.1
  = (Handlers.CreateProperty json_Unmarshal nodeId
       (Some (Repo.mkCreatePropertyRequest key value dt' default description)) t).1.1
  /\ Go.config_nodes (Repo.tables
       (Handlers.CreateProperty json_Unmarshal nodeId
          (Some (Repo.mkCreatePropertyRequest key value dt default description)) t).2)
     = Go.config_nodes (Repo.tables
         (Handlers.CreateProperty json_Unmarshal nodeId
            (Some (Repo.mkCreatePropertyRequest key value dt' default description)) t).2)
  /\ same_values
       (Go.config_properties (Repo.tables
          (Handlers.CreateProperty json_Unmarshal nodeId
             (Some (Repo.mkCreatePropertyRequest key value dt default description)) t).2))
       (Go.config_properties (Repo.tables
          (Handlers.CreateProperty json_Unmarshal nodeId
             (Some (Repo.mkCreatePropertyRequest key value dt' default description)) t).2))
  /\ ((Handlers.CreateProperty json_Unmarshal nodeId
         (Some (Repo.mkCreatePropertyRequest key value dt default description)) t).1.1 = 201 ->
      exists row v,
        (Handlers.CreateProperty json_Unmarshal nodeId
           (Some (Repo.mkCreatePropertyRequest key value dt default description)) t).1.2
        = Handlers.PropertyJSON row
        /\ Repo.data_type_of dt = Some (Go.PropDataType row)
        /\ Go.Value row = value
        /\ json_Unmarshal value = Some v
        /\ Go.decode json_Unmarshal (Go.Value row) = v).
Proof.
  intros [d Hd] [d' Hd'].
  assert (dt ≠ EmptyString) as Hdt by (intros ->; by rewrite data_type_of_empty in Hd).
  assert (dt' ≠ EmptyString) as Hdt' by (intros ->; by rewrite data_type_of_empty in Hd').
  unfold Handlers.CreateProperty, Handlers.bind_CreateProperty. simpl.
  rewrite (bool_decide_eq_false_2 (dt = EmptyString)) by done.
  rewrite (bool_decide_eq_false_2 (dt' = EmptyString)) by done.
  pose proof (same_values_refl (Go.config_properties (Repo.tables t))) as Hrefl.
  destruct nodeId as [nodeID|]; [|done].
  destruct (bool_decide (key = EmptyString) || bool_decide (value = EmptyString) || false);
    [done|].
  simpl. destruct (json_Unmarshal value) as [v|] eqn:Hv; [|done].
  rewrite Hd, Hd'.
  destruct (Go.GetNodeByID nodeID (Repo.tables t)) as [node|]; [|done].
  unfold Repo.CreateProperty. simpl. rewrite Hd, Hd'.
  destruct (Repo.fits_255 key); [|done].
  destruct (head (filter (Repo.at_key nodeID key) (Go.config_properties (Repo.tables t))))
    as [old|].
  - simpl. split; [done|]. split; [done|]. split.
    + apply same_values_fmap. intros p. by case_bool_decide.
    + intros _. eexists _, v. split; [reflexivity|]. simpl. unfold Go.decode.
      by rewrite Hv.
  - destruct (bool_decide (nodeID ∈ Repo.node_ids t)
              && bool_decide (Repo.props_seq t ∉ Go.PropID <$> Go.config_properties (Repo.tables t)));
      [|done].
    simpl. split; [done|]. split; [done|]. split.
    + apply Forall2_app; [done|]. by repeat constructor.
    + intros _. eexists _, v. split; [reflexivity|]. simpl. unfold Go.decode.
      by rewrite Hv.
Qed.

Lemma NoDup_fmap_same {A B : Type} (f : A -> B) (l : list A) x y :
  NoDup (f <$> l) -> x ∈ l -> y ∈ l -> f x = f y -> x = y.
Proof.
  intros Hnd [i Hi]%list_elem_of_lookup [j Hj]%list_elem_of_lookup Hf.
  assert (i = j) as <-; [|congruence].
  apply (NoDup_lookup _ i j (f x) Hnd); rewrite list_lookup_fmap;
    [by rewrite Hi|rewrite Hj; simpl; congruence].
Qed.

(** X27: deleting a property row.  On tables where the ids of the
    property rows and their (node, key) pairs are unique, deleting an id
    that no row has is an error, answered with 500 and no change; deleting
    the id of a row answers 204, keeps the node rows and the unique keys,
    removes the key of the row from the properties of its node, as maps,
    and leaves the properties of every other node as they were. *)
Theorem DeleteProperty_outcome id t :
  unique_keys (Repo.tables t) ->
  NoDup (Go.PropID <$> Go.config_properties (Repo.tables t)) ->
  ((forall p, p ∈ Go.config_properties (Repo.tables t) -> Go.PropID p ≠ id)
   /\ Handlers.DeleteProperty (Some id) t
      = (500, Handlers.ErrorText "Failed to delete property", t))
  \/ exists row t',
       row ∈ Go.config_properties (Repo.tables t) /\ Go.PropID row = id
       /\ Handlers.DeleteProperty (Some id) t = (204, Handlers.NoContent, t')
       /\ Go.config_nodes (Repo.tables t') = Go.config_nodes (Repo.tables t)
       /\ unique_keys (Repo.tables t')
       /\ go_properties json_Unmarshal (Repo.tables t') (Go.NodeID row)
          = delete (Go.Key row) (go_properties json_Unmarshal (Repo.tables t) (Go.NodeID row))
       /\ (forall j, j ≠ Go.NodeID row ->
             go_properties json_Unmarshal (Repo.tables t') j
             = go_properties json_Unmarshal (Repo.tables t) j).
Proof.
  intros Hu Hids. unfold Handlers.DeleteProperty, Repo.DeleteProperty.
  case_bool_decide as Hhit.
  { left. split; [|done]. intros p Hp Hid.
    assert (p ∈ filter (fun p => Go.PropID p = id) (Go.config_properties (Repo.tables t)))
      as Hin by by apply list_elem_of_filter.
    rewrite Hhit in Hin. by apply elem_of_nil in Hin. }
  right.
  destruct (filter (fun p => Go.PropID p = id) (Go.config_properties (Repo.tables t)))
    as [|row rest] eqn:Hfilter; [done|].
  assert (row ∈ Go.config_properties (Repo.tables t) /\ Go.PropID row = id) as [Hrow Hid].
  { assert (row ∈ filter (fun p => Go.PropID p = id) (Go.config_properties (Repo.tables t)))
      as Hin by (rewrite Hfilter; apply list_elem_of_here).
    by apply list_elem_of_filter in Hin as [? ?]. }
  eexists row, _. split; [done|]. split; [done|]. split; [reflexivity|]. simpl.
  split; [done|].
  assert (unique_keys
            (Go.mkDB (Go.config_nodes (Repo.tables t))
               (filter (fun p => Go.PropID p ≠ id) (Go.config_properties (Repo.tables t)))))
    as Hu'.
  { unfold unique_keys in *. simpl. clear -Hu.
    induction (Go.config_properties (Repo.tables t)) as [|p props IH]; [constructor|].
    rewrite fmap_cons in Hu. apply NoDup_cons in Hu as [Hp Hnd].
    rewrite filter_cons. destruct (decide (Go.PropID p ≠ id)); [|by apply IH].
    rewrite fmap_cons. apply NoDup_cons. split; [|by apply IH].
    intros (q & Hq & [_ Hin]%list_elem_of_filter)%list_elem_of_fmap.
    apply Hp. apply list_elem_of_fmap. by exists q. }
  split; [done|].
  assert (forall p, p ∈ Go.config_properties (Repo.tables t) ->
                    Go.PropID p ≠ id <-> p ≠ row) as Hother.
  { intros p Hp. split; [by intros Hne ->|].
    intros Hne Hpid. apply Hne.
    apply (NoDup_fmap_same Go.PropID (Go.config_properties (Repo.tables t))); congruence. }
  split.
  - apply map_eq. intros k. apply option_eq. intros v.
    rewrite lookup_delete_Some, !go_properties_lookup by done. simpl. split.
    + intros (p & [Hne Hp]%list_elem_of_filter & Hn & Hk & ->).
      split; [|by exists p]. intros Hkey. apply (proj1 (Hother p Hp) Hne).
      apply (NoDup_fmap_same (fun p => (Go.NodeID p, Go.Key p))
               (Go.config_properties (Repo.tables t))); [done..|]. congruence.
    + intros (Hkey & p & Hp & Hn & Hk & ->). exists p. split; [|done].
      apply list_elem_of_filter. split; [|done]. apply (Hother p Hp). by intros ->.
  - intros j Hj. apply map_eq. intros k. apply option_eq. intros v.
    rewrite !go_properties_lookup by done. simpl. split.
    + intros (p & [Hne Hp]%list_elem_of_filter & Hrest). by exists p.
    + intros (p & Hp & Hn & Hrest). exists p. split; [|done].
      apply list_elem_of_filter. split; [|done]. apply (Hother p Hp). by intros ->.
Qed.
End go_property_handlers.

Lemma Go_CreateProperty_declared_type_witness :
  (Handlers.CreateProperty Sample.unmarshal (Some 2) (Some More.timeout_request)
     More.go_tables).1.1
  = (Handlers.CreateProperty Sample.unmarshal (Some 2) (Some More.timeout_request_boolean)
       More.go_tables).1.1.
Proof.
  destruct (Go_CreateProperty_declared_type Sample.unmarshal (Some 2) "api_timeout" "true"
              "string" "boolean" None EmptyString More.go_tables) as (Hstatus & _).
  - vm_compute. by eexists.
  - vm_compute. by eexists.
  - exact Hstatus.
Defined.

Lemma DeleteProperty_outcome_witness :
  exists row,
    row ∈ Go.config_properties Sample.go_store /\ Go.PropID row = 3
    /\ go_properties Sample.unmarshal
         (Repo.tables (Handlers.DeleteProperty (Some 3) More.go_tables).2) (Go.NodeID row)
       = delete (Go.Key row) (go_properties Sample.unmarshal Sample.go_store (Go.NodeID row)).
Proof.
  destruct (DeleteProperty_outcome Sample.unmarshal 3 More.go_tables)
    as [[Hnone _]|(row & t' & Hrow & Hid & Hdel & _ & _ & Hmap & _)].
  - apply (bool_decide_unpack _). vm_compute. exact I.
  - apply (bool_decide_unpack _). vm_compute. exact I.
  - exfalso.
    apply (Hnone (Go.mkConfigProperty 3 2 "api_timeout" "1" DataTypeNumber None EmptyString));
      [|reflexivity].
    apply list_elem_of_further, list_elem_of_further, list_elem_of_here.
  - exists row. split; [exact Hrow|]. split; [exact Hid|].
    rewrite Hdel. exact Hmap.
Defined.

Section go_update_property.
Variable json_Unmarshal : string -> option json.

(** X28: what updating a property can change.  Whatever the request and
    the answer, every property row keeps its id, its node and its key,
    rows other than the addressed one are untouched and so are the node
    rows; hence the unique-key constraint is kept.  An answer other than
    200 changes nothing at all, and with 200 a value given in the request
    decodes as JSON. *)
Theorem Go_UpdateProperty_frame propertyId body t :
  Forall2 (same_slot (default 0 propertyId))
    (Go.config_properties (Repo.tables t))
    (Go.config_properties
       (Repo.tables (Handlers.UpdateProperty json_Unmarshal propertyId body t).2))
  /\ Go.config_nodes (Repo.tables (Handlers.UpdateProperty json_Unmarshal propertyId body t).2)
     = Go.config_nodes (Repo.tables t)
  /\ (unique_keys (Repo.tables t) ->
      unique_keys (Repo.tables (Handlers.UpdateProperty json_Unmarshal propertyId body t).2))
  /\ ((Handlers.UpdateProperty json_Unmarshal propertyId body t).1.1 ≠ 200 ->
      (Handlers.UpdateProperty json_Unmarshal propertyId body t).2 = t)
  /\ ((Handlers.UpdateProperty json_Unmarshal propertyId body t).1.1 = 200 ->
      exists req, body = Some req
                  /\ forall value, Repo.up_Value req = Some value ->
                                   is_Some (json_Unmarshal value)).
Proof.
  assert (forall id props, Forall2 (same_slot id) props props) as Hrefl.
  { intros id props. apply Forall_Forall2_diag, Forall_forall. by intros p _. }
  assert (forall id (props props' : list Go.ConfigProperty) nodes,
            Forall2 (same_slot id) props props' ->
            unique_keys (Go.mkDB nodes props) -> unique_keys (Go.mkDB nodes props'))
    as Hkeys.
  { unfold unique_keys. simpl. intros id props props' nodes Hrel.
    assert ((fun p => (Go.NodeID p, Go.Key p)) <$> props'
            = (fun p => (Go.NodeID p, Go.Key p)) <$> props) as ->; [|done].
    induction Hrel as [|p p' props props' (_ & Hn & Hk & _) _ IH]; [done|].
    rewrite !fmap_cons. by rewrite IH, Hn, Hk. }
  assert (forall id req,
            let out := Repo.UpdateProperty id req t in
            Forall2 (same_slot id) (Go.config_properties (Repo.tables t))
              (Go.config_properties (Repo.tables (Repo.after out)))
            /\ Go.config_nodes (Repo.tables (Repo.after out)) = Go.config_nodes (Repo.tables t)
            /\ match out with
               | Repo.Done (Some _) _ => True
               | _ => Repo.after out = t
               end) as Hrepo.
  { intros id req. unfold Repo.UpdateProperty. case_bool_decide as Hhit; [by simpl|].
    assert (forall dt,
              Forall2 (same_slot id) (Go.config_properties (Repo.tables t))
                ((fun p => if bool_decide (Go.PropID p = id)
                           then Repo.set_property req (default (Go.PropDataType p) dt) p
                           else p) <$> Go.config_properties (Repo.tables t))) as Hmap.
    { intros dt. induction (Go.config_properties (Repo.tables t)) as [|p props IH] in |- *;
        [constructor|].
      rewrite fmap_cons. constructor; [|done]. case_bool_decide; [|done]. by repeat split. }
    destruct (filter (fun p => Go.PropID p = id) (Go.config_properties (Repo.tables t)))
      as [|row rest]; [done|].
    destruct (Repo.up_DataType req) as [text|]; [|split; [apply (Hmap None)|done]].
    destruct (Repo.data_type_of text) as [dt|]; [split; [apply (Hmap (Some dt))|done]|done]. }
  pose proof (Hkeys (default 0 propertyId) (Go.config_properties (Repo.tables t))
                (Go.config_properties
                   (Repo.tables (Handlers.UpdateProperty json_Unmarshal propertyId body t).2))
                (Go.config_nodes (Repo.tables t))) as Hk.
  unfold Handlers.UpdateProperty in *.
  destruct propertyId as [id|]; [|by repeat split]. simpl in *.
  destruct body as [req|]; [|by repeat split].
  specialize (Hrepo id req). simpl in Hrepo. destruct Hrepo as (Hrows & Hnodes & Hsame).
  assert (forall out : Z * Handlers.Payload * Repo.Tables,
            out = match Repo.UpdateProperty id req t with
                  | Repo.Failed t' => (500, Handlers.ErrorText "Failed to update property", t')
                  | Repo.Done None t' => (404, Handlers.ErrorText "Property not found", t')
                  | Repo.Done (Some property) t' => (200, Handlers.PropertyJSON property, t')
                  end ->
            Forall2 (same_slot id) (Go.config_properties (Repo.tables t))
              (Go.config_properties (Repo.tables out.2))
            /\ Go.config_nodes (Repo.tables out.2) = Go.config_nodes (Repo.tables t)
            /\ (out.1.1 ≠ 200 -> out.2 = t)) as Hupdate.
  { intros out ->. destruct (Repo.UpdateProperty id req t) as [[property|] t'|t']; simpl in *;
      by repeat split. }
  assert (forall out : Z * Handlers.Payload * Repo.Tables,
            Forall2 (same_slot id) (Go.config_properties (Repo.tables t))
              (Go.config_properties (Repo.tables out.2)) ->
            Go.config_nodes (Repo.tables out.2) = Go.config_nodes (Repo.tables t) ->
            unique_keys (Repo.tables t) -> unique_keys (Repo.tables out.2)) as Hunique.
  { intros out Hr Hn. destruct (Repo.tables out.2) as [nodes' props'].
    destruct (Repo.tables t) as [nodes props]. simpl in *. subst nodes'.
    by apply (Hkeys id). }
  destruct (Repo.up_Value req) as [value|] eqn:Hvalue.
  - destruct (json_Unmarshal value) as [v|] eqn:Hv.
    + destruct (Hupdate _ eq_refl) as (H1 & H2 & H3).
      split; [done|]. split; [done|]. split; [by apply Hunique|]. split; [done|].
      intros _. exists req. split; [done|]. intros w Hw. rewrite Hvalue in Hw.
      injection Hw as <-. by rewrite Hv.
    + simpl. split; [done|]. split; [done|]. split; [done|]. split; [done|]. done.
  - destruct (Hupdate _ eq_refl) as (H1 & H2 & H3).
    split; [done|]. split; [done|]. split; [by apply Hunique|]. split; [done|].
    intros _. exists req. split; [done|]. intros w Hw. by rewrite Hvalue in Hw.
Qed.

End go_update_property.


Lemma Go_UpdateProperty_frame_witness :
  (Handlers.UpdateProperty Sample.unmarshal (Some 3) (Some More.revalue_request)
     More.go_tables).1.1 = 200
  /\ unique_keys
       (Repo.tables (Handlers.UpdateProperty Sample.unmarshal (Some 3)
                       (Some More.revalue_request) More.go_tables).2).
Proof.
  split; [vm_compute; reflexivity|].
  destruct (Go_UpdateProperty_frame Sample.unmarshal (Some 3) (Some More.revalue_request)
              More.go_tables) as (_ & _ & Hkeys & _).
  apply Hkeys. apply (bool_decide_unpack _). vm_compute. exact I.
Defined.
